(** * Logseq "copy as Markdown / AsciiDoc / HTML": tokenizer, generators, converters

    A shallow embedding of [logseq-parser.ts], the three generators
    ([markdown-generator.ts], [asciidoc-generator.ts], [html-generator.ts]) and
    the three converters ([markdown-converter.ts], [asciidoc-converter.ts],
    [html-converter.ts]), of the transformation of fetched blocks
    ([logseq-api.ts]) and of the export of a block and of a page
    ([export-service.ts]), followed by the properties proved about them.

    JavaScript strings are sequences of UTF-16 code units; a code unit is a
    number [N], a string a [list N].  JavaScript numbers that the program uses
    (positions, lengths, depths) are integers and are modelled in [Z]. *)

From Stdlib Require Import List ZArith NArith Lia Bool String Ascii.
From Stdlib Require Import DecimalString.
Import ListNotations.
Local Open Scope Z_scope.

(* ================================================================== *)
(** ** JavaScript strings *)
(* ================================================================== *)

Definition char := N.
Definition jsstring := list char.

(** An ASCII literal as a JavaScript string. *)
Definition js (s : string) : jsstring :=
  List.map N_of_ascii (list_ascii_of_string s).

Definition nl : char := 10%N.        (* line feed        *)
Definition dq : char := 34%N.        (* double quote     *)
Definition sq : char := 39%N.        (* single quote     *)
Definition bslash : char := 92%N.    (* backslash        *)

Definition chr (a : ascii) : char := N_of_ascii a.

Definition len (s : jsstring) : Z := Z.of_nat (List.length s).

Fixpoint str_eqb (a b : jsstring) : bool :=
  match a, b with
  | [], [] => true
  | x :: a', y :: b' => N.eqb x y && str_eqb a' b'
  | _, _ => false
  end.

(** [strip_prefix p s] is the rest of [s] after the prefix [p], when [s]
    starts with [p]. *)
Fixpoint strip_prefix (p s : jsstring) : option jsstring :=
  match p with
  | [] => Some s
  | x :: p' =>
      match s with
      | y :: s' => if N.eqb x y then strip_prefix p' s' else None
      | [] => None
      end
  end.

(** [String.prototype.startsWith]. *)
Definition startsWith (s p : jsstring) : bool :=
  match strip_prefix p s with Some _ => true | None => false end.

(** [String.prototype.includes]. *)
Fixpoint includes (s p : jsstring) : bool :=
  startsWith s p ||
  match s with
  | [] => false
  | _ :: s' => includes s' p
  end.

(** [s.substring(a)]: negative [a] is clamped to 0, [a] beyond the end gives
    the empty string. *)
Definition substring_from (s : jsstring) (a : Z) : jsstring :=
  skipn (Z.to_nat a) s.

(** [s.substring(a, b)]: both indices clamped to [0, length], swapped when
    [a > b]. *)
Definition substring (s : jsstring) (a b : Z) : jsstring :=
  let clamp i := Z.max 0 (Z.min i (len s)) in
  let lo := Z.min (clamp a) (clamp b) in
  let hi := Z.max (clamp a) (clamp b) in
  firstn (Z.to_nat (hi - lo)) (skipn (Z.to_nat lo) s).

(** [s[i]]: [None] stands for [undefined]. *)
Definition charAt (s : jsstring) (i : Z) : option char :=
  if i <? 0 then None else nth_error s (Z.to_nat i).

(** [s[i] !== c]. *)
Definition char_neq (o : option char) (c : char) : bool :=
  match o with
  | Some x => negb (N.eqb x c)
  | None => true
  end.

(** [String.prototype.repeat]. *)
Fixpoint repeat_str (s : jsstring) (n : nat) : jsstring :=
  match n with
  | O => []
  | S n' => s ++ repeat_str s n'
  end.

Definition repeat (s : jsstring) (n : Z) : jsstring := repeat_str s (Z.to_nat n).

(** [Array.prototype.join]. *)
Fixpoint join (sep : jsstring) (l : list jsstring) : jsstring :=
  match l with
  | [] => []
  | [x] => x
  | x :: rest => x ++ sep ++ join sep rest
  end.

(** [s.split(c)] for a one-character separator: always at least one piece. *)
Fixpoint split_on (c : char) (s : jsstring) : list jsstring :=
  match s with
  | [] => [[]]
  | x :: s' =>
      match split_on c s' with
      | [] => [[]]        (* never happens *)
      | cur :: rest => if N.eqb x c then [] :: cur :: rest else (x :: cur) :: rest
      end
  end.

(** [s.replace(/c/g, rep)] for a one-character pattern. *)
Definition replace_all (c : char) (rep : jsstring) (s : jsstring) : jsstring :=
  flat_map (fun x => if N.eqb x c then rep else [x]) s.

(* ------------------------------------------------------------------ *)
(** *** Character classes of JavaScript regular expressions *)

Definition in_range (lo hi c : N) : bool := (N.leb lo c && N.leb c hi)%bool.

(** [\s]: WhiteSpace and LineTerminator code points. *)
Definition is_space (c : char) : bool :=
  (in_range 9 13 c || N.eqb c 32 || N.eqb c 160 || N.eqb c 5760
   || in_range 8192 8202 c || N.eqb c 8232 || N.eqb c 8233
   || N.eqb c 8239 || N.eqb c 8287 || N.eqb c 12288 || N.eqb c 65279)%N%bool.

(** [\d]. *)
Definition is_digit (c : char) : bool := in_range 48 57 c.

(** [\w]. *)
Definition is_word (c : char) : bool :=
  (in_range 97 122 c || in_range 65 90 c || is_digit c || N.eqb c 95)%N%bool.

(** [.] without the [s] flag: anything but a line terminator. *)
Definition is_dot (c : char) : bool :=
  negb (N.eqb c 10 || N.eqb c 13 || N.eqb c 8232 || N.eqb c 8233)%N.

(** [[^x]]. *)
Definition is_not (x : char) (c : char) : bool := negb (N.eqb c x).

Definition is_any (c : char) : bool := true.

(** [String.prototype.trim]: strips the same code points as [\s]. *)
Fixpoint trimStart (s : jsstring) : jsstring :=
  match s with
  | c :: s' => if is_space c then trimStart s' else s
  | [] => []
  end.

Definition trimEnd (s : jsstring) : jsstring := rev (trimStart (rev s)).

Definition trim (s : jsstring) : jsstring := trimEnd (trimStart s).

(** Truthiness of a string. *)
Definition nonempty (s : jsstring) : bool :=
  match s with [] => false | _ => true end.

(** [o || d] for an optional string: [undefined] and [''] are both falsy. *)
Definition str_or (o : option jsstring) (d : jsstring) : jsstring :=
  match o with
  | Some s => if nonempty s then s else d
  | None => d
  end.

(* ================================================================== *)
(** ** Regular expressions: a backtracking matcher *)
(* ================================================================== *)

(** The fragment of JavaScript regular expressions the program uses.
    Quantifiers are only ever applied to single-character classes, and there
    are at most two capture groups. *)
Inductive regex : Type :=
| RLit (l : jsstring)                          (* literal characters        *)
| RClass (p : char -> bool)                    (* one character of a class  *)
| RSeq (a b : regex)                           (* ab                        *)
| RAlt (a b : regex)                           (* a|b                       *)
| ROpt (a : regex)                             (* a?   (greedy)             *)
| RRep (greedy : bool) (min : nat) (p : char -> bool)
                                               (* p* p+ p*? p+?             *)
| RGroup (i : nat) (a : regex)                 (* i-th capture group        *)
| REnd.                                        (* $                         *)

(** Capture groups 1 and 2; [None] is [undefined]. *)
Definition caps : Type := (option jsstring * option jsstring)%type.

Definition no_caps : caps := (None, None).

Definition setcap (i : nat) (v : jsstring) (c : caps) : caps :=
  match i with
  | 1%nat => (Some v, snd c)
  | 2%nat => (fst c, Some v)
  | _ => c
  end.

Section Matcher.
Context {R : Type}.

(** Greedy repetition of a class: take as many characters as possible,
    give them back one at a time while the continuation fails. *)
Fixpoint rep_greedy (p : char -> bool) (k : jsstring -> option R)
         (min : nat) (s : jsstring) : option R :=
  let stop := match min with O => k s | S _ => None end in
  match s with
  | x :: s' =>
      if p x then
        match rep_greedy p k (Nat.pred min) s' with
        | Some r => Some r
        | None => stop
        end
      else stop
  | [] => stop
  end.

(** Lazy repetition: take as few characters as possible, one more each time
    the continuation fails. *)
Fixpoint rep_lazy (p : char -> bool) (k : jsstring -> option R)
         (min : nat) (s : jsstring) : option R :=
  let more :=
    match s with
    | x :: s' => if p x then rep_lazy p k (Nat.pred min) s' else None
    | [] => None
    end in
  match min with
  | O => match k s with Some r => Some r | None => more end
  | S _ => more
  end.

(** [rmatch r k s c]: match [r] at the start of [s] with captures [c], then
    continue with [k] on what is left; the first success in backtracking
    order wins. *)
Fixpoint rmatch (r : regex) (k : jsstring -> caps -> option R)
         (s : jsstring) (c : caps) : option R :=
  match r with
  | RLit l =>
      match strip_prefix l s with
      | Some s' => k s' c
      | None => None
      end
  | RClass p =>
      match s with
      | x :: s' => if p x then k s' c else None
      | [] => None
      end
  | RSeq a b => rmatch a (fun s' c' => rmatch b k s' c') s c
  | RAlt a b =>
      match rmatch a k s c with
      | Some r => Some r
      | None => rmatch b k s c
      end
  | ROpt a =>
      match rmatch a k s c with
      | Some r => Some r
      | None => k s c
      end
  | RRep g n p =>
      (if g then rep_greedy else rep_lazy) p (fun s' => k s' c) n s
  | RGroup i a =>
      rmatch a
        (fun s' c' =>
           k s' (setcap i (firstn (List.length s - List.length s') s) c'))
        s c
  | REnd =>
      match s with
      | [] => k s c
      | _ :: _ => None
      end
  end.
End Matcher.

(** The result of [String.prototype.match]: [m0] is [match[0]], [g1] and [g2]
    are [match[1]] and [match[2]]. *)
Record MatchResult : Type := mkMatch {
  m0 : jsstring;
  g1 : option jsstring;
  g2 : option jsstring
}.

(** [s.match(/^r/)]. *)
Definition re_match (r : regex) (s : jsstring) : option MatchResult :=
  match rmatch r (fun s' c' => Some (s', c')) s no_caps with
  | Some (rest, c) =>
      Some (mkMatch (firstn (List.length s - List.length rest) s) (fst c) (snd c))
  | None => None
  end.

(** [/^r/.test(s)]. *)
Definition re_test (r : regex) (s : jsstring) : bool :=
  match re_match r s with Some _ => true | None => false end.

(** [s.match(/r/)] for a pattern without [^]: the leftmost position at which
    the pattern matches. *)
Fixpoint re_find (r : regex) (s : jsstring) : option MatchResult :=
  match re_match r s with
  | Some m => Some m
  | None =>
      match s with
      | [] => None
      | _ :: s' => re_find r s'
      end
  end.

(** [s.search(/r/)]: index of the leftmost match, or -1. *)
Fixpoint re_search_from (r : regex) (s : jsstring) (i : Z) : Z :=
  match re_match r s with
  | Some _ => i
  | None =>
      match s with
      | [] => -1
      | _ :: s' => re_search_from r s' (i + 1)
      end
  end.

Definition re_search (r : regex) (s : jsstring) : Z := re_search_from r s 0.

(* ================================================================== *)
(** ** Token model ([types.ts]) *)
(* ================================================================== *)

Inductive TokenType : Type :=
| text | blockRef | markdownLink | nakedUrl | image | videoEmbed | tag
| highlight | bold | codeBlock | query | taskMarker | blockquote.

Inductive TaskType : Type := TODO | DONE | DOING | LATER | NOW.

Inductive VideoType : Type := youtube | vimeo | other.

(** [TokenMetadata]: every field is optional. *)
Record TokenMetadata : Type := mkMeta {
  language : option jsstring;
  taskType : option TaskType;
  linkTarget : option jsstring;
  linkText : option jsstring;
  altText : option jsstring;
  videoType : option VideoType;
  videoId : option jsstring;
  isExternalUrl : option bool
}.

Definition empty_meta : TokenMetadata :=
  mkMeta None None None None None None None None.

(** [Token]: [length] is the length of the token in the original string. *)
Record Token : Type := mkToken {
  type : TokenType;
  value : jsstring;
  metadata : option TokenMetadata;
  length : Z
}.

(** [token.metadata?.f]. *)
Definition meta {A : Type} (f : TokenMetadata -> option A) (t : Token) : option A :=
  match metadata t with
  | Some m => f m
  | None => None
  end.

(** A capture group that took part in the match. *)
Definition group (o : option jsstring) : jsstring :=
  match o with Some s => s | None => [] end.

(* ================================================================== *)
(** ** The tokenizer ([logseq-parser.ts], class [LogseqParser]) *)
(* ================================================================== *)

Module LogseqParser.

(** [https?:\/\/] *)
Definition re_scheme : regex :=
  RSeq (RLit (js "http")) (RSeq (ROpt (RLit (js "s"))) (RLit (js "://"))).

(** [/^```(\w+)?\n([\s\S]*?)```/] *)
Definition re_codeBlock : regex :=
  RSeq (RLit (js "```"))
    (RSeq (ROpt (RGroup 1 (RRep true 1 is_word)))
       (RSeq (RLit [nl])
          (RSeq (RGroup 2 (RRep false 0 is_any)) (RLit (js "```"))))).

Definition tryMatchCodeBlock (content : jsstring) (pos : Z) : option Token :=
  let remaining := substring_from content pos in
  match re_match re_codeBlock remaining with
  | None => None
  | Some m =>
      Some (mkToken codeBlock (group (g2 m))
              (Some (mkMeta (Some (str_or (g1 m) [])) None None None None None None None))
              (len (m0 m)))
  end.

(** [/^\{\{video\s+(https?:\/\/[^}]+)\}\}/] *)
Definition re_video : regex :=
  RSeq (RLit (js "{{video"))
    (RSeq (RRep true 1 is_space)
       (RSeq (RGroup 1 (RSeq re_scheme (RRep true 1 (is_not (chr "}")))))
          (RLit (js "}}")))).

(** [/^\{\{youtube\s+([^}]+)\}\}/] *)
Definition re_youtube : regex :=
  RSeq (RLit (js "{{youtube"))
    (RSeq (RRep true 1 is_space)
       (RSeq (RGroup 1 (RRep true 1 (is_not (chr "}")))) (RLit (js "}}")))).

(** [/^\{\{vimeo\s+([^}]+)\}\}/] *)
Definition re_vimeo : regex :=
  RSeq (RLit (js "{{vimeo"))
    (RSeq (RRep true 1 is_space)
       (RSeq (RGroup 1 (RRep true 1 (is_not (chr "}")))) (RLit (js "}}")))).

(** [/^\{\{query\s+([^}]+)\}\}/] *)
Definition re_query : regex :=
  RSeq (RLit (js "{{query"))
    (RSeq (RRep true 1 is_space)
       (RSeq (RGroup 1 (RRep true 1 (is_not (chr "}")))) (RLit (js "}}")))).

Definition detectVideoType (url : jsstring) : VideoType :=
  if includes url (js "youtube.com") || includes url (js "youtu.be") then youtube
  else if includes url (js "vimeo.com") then vimeo
  else other.

(** [/(?:youtube\.com\/watch\?v=|youtu\.be\/)([^&?]+)/] *)
Definition re_youtubeId : regex :=
  RSeq (RAlt (RLit (js "youtube.com/watch?v=")) (RLit (js "youtu.be/")))
    (RGroup 1 (RRep true 1 (fun c => is_not (chr "&") c && is_not (chr "?") c))).

(** [/vimeo\.com\/(\d+)/] *)
Definition re_vimeoId : regex :=
  RSeq (RLit (js "vimeo.com/")) (RGroup 1 (RRep true 1 is_digit)).

Definition extractVideoId (url : jsstring) (ty : VideoType) : option jsstring :=
  match ty with
  | youtube =>
      match re_find re_youtubeId url with
      | Some m => g1 m
      | None => None
      end
  | vimeo =>
      match re_find re_vimeoId url with
      | Some m => g1 m
      | None => None
      end
  | other => None
  end.

Definition tryMatchVideoEmbed (content : jsstring) : option Token :=
  match re_match re_video content with
  | Some videoMatch =>
      let url := group (g1 videoMatch) in
      let videoType := detectVideoType url in
      let videoId := extractVideoId url videoType in
      Some (mkToken videoEmbed url
              (Some (mkMeta None None (Some url) None None (Some videoType) videoId None))
              (len (m0 videoMatch)))
  | None =>
      match re_match re_youtube content with
      | Some youtubeMatch =>
          let videoId := trim (group (g1 youtubeMatch)) in
          let url := js "https://www.youtube.com/watch?v=" ++ videoId in
          Some (mkToken videoEmbed url
                  (Some (mkMeta None None (Some url) None None (Some youtube)
                           (Some videoId) None))
                  (len (m0 youtubeMatch)))
      | None =>
          match re_match re_vimeo content with
          | Some vimeoMatch =>
              let videoId := trim (group (g1 vimeoMatch)) in
              let url := js "https://vimeo.com/" ++ videoId in
              Some (mkToken videoEmbed url
                      (Some (mkMeta None None (Some url) None None (Some vimeo)
                               (Some videoId) None))
                      (len (m0 vimeoMatch)))
          | None => None
          end
      end
  end.

Definition tryMatchQuery (content : jsstring) (pos : Z) : option Token :=
  let remaining := substring_from content pos in
  match tryMatchVideoEmbed remaining with
  | Some videoToken => Some videoToken
  | None =>
      match re_match re_query remaining with
      | None => None
      | Some m => Some (mkToken query (group (g1 m)) None (len (m0 m)))
      end
  end.

(** [/^(TODO|DONE|DOING|LATER|NOW)\s+/] *)
Definition re_taskMarker : regex :=
  RSeq (RGroup 1
          (RAlt (RLit (js "TODO"))
             (RAlt (RLit (js "DONE"))
                (RAlt (RLit (js "DOING"))
                   (RAlt (RLit (js "LATER")) (RLit (js "NOW")))))))
    (RRep true 1 is_space).

(** [match[1] as 'TODO' | 'DONE' | 'DOING' | 'LATER' | 'NOW']. *)
Definition taskType_of (s : jsstring) : option TaskType :=
  if str_eqb s (js "TODO") then Some TODO
  else if str_eqb s (js "DONE") then Some DONE
  else if str_eqb s (js "DOING") then Some DOING
  else if str_eqb s (js "LATER") then Some LATER
  else if str_eqb s (js "NOW") then Some NOW
  else None.

(** [pos > 0 && content[pos - 1] !== '\n'] *)
Definition not_at_line_start (content : jsstring) (pos : Z) : bool :=
  (0 <? pos) && char_neq (charAt content (pos - 1)) nl.

Definition tryMatchTaskMarker (content : jsstring) (pos : Z) : option Token :=
  if not_at_line_start content pos then None
  else
    let remaining := substring_from content pos in
    match re_match re_taskMarker remaining with
    | None => None
    | Some m =>
        Some (mkToken taskMarker []
                (Some (mkMeta None (taskType_of (group (g1 m))) None None None None None None))
                (len (m0 m)))
    end.

(** [/^> ?(.{0,})/], written in the source with a star for [{0,}] *)
Definition re_blockquote : regex :=
  RSeq (RLit (js ">"))
    (RSeq (ROpt (RLit (js " "))) (RGroup 1 (RRep true 0 is_dot))).

Definition tryMatchBlockquote (content : jsstring) (pos : Z) : option Token :=
  if not_at_line_start content pos then None
  else
    let remaining := substring_from content pos in
    match re_match re_blockquote remaining with
    | None => None
    | Some m => Some (mkToken blockquote (group (g1 m)) None (len (m0 m)))
    end.

(** [/^https?:\/\//.test(target)] *)
Definition is_external (target : jsstring) : bool := re_test re_scheme target.

(** [/^!\[([^\]]{0,})\]\(([^)]+)\)/], written in the source with a star
    for [{0,}] *)
Definition re_image : regex :=
  RSeq (RLit (js "!["))
    (RSeq (RGroup 1 (RRep true 0 (is_not (chr "]"))))
       (RSeq (RLit (js "]("))
          (RSeq (RGroup 2 (RRep true 1 (is_not (chr ")")))) (RLit (js ")"))))).

Definition tryMatchImage (content : jsstring) (pos : Z) : option Token :=
  let remaining := substring_from content pos in
  match re_match re_image remaining with
  | None => None
  | Some m =>
      let altText := group (g1 m) in
      let imageSrc := group (g2 m) in
      let isExternalUrl := is_external imageSrc in
      Some (mkToken image altText
              (Some (mkMeta None None (Some imageSrc) None (Some altText) None None
                       (Some isExternalUrl)))
              (len (m0 m)))
  end.

(** [/^\[([^\]]+)\]\(([^)]+)\)/] *)
Definition re_markdownLink : regex :=
  RSeq (RLit (js "["))
    (RSeq (RGroup 1 (RRep true 1 (is_not (chr "]"))))
       (RSeq (RLit (js "]("))
          (RSeq (RGroup 2 (RRep true 1 (is_not (chr ")")))) (RLit (js ")"))))).

Definition tryMatchMarkdownLink (content : jsstring) (pos : Z) : option Token :=
  let remaining := substring_from content pos in
  match re_match re_markdownLink remaining with
  | None => None
  | Some m =>
      let linkText := group (g1 m) in
      let linkTarget := group (g2 m) in
      let isExternalUrl := is_external linkTarget in
      Some (mkToken markdownLink linkText
              (Some (mkMeta None None (Some linkTarget) (Some linkText) None None None
                       (Some isExternalUrl)))
              (len (m0 m)))
  end.

(** [/^\[\[([^\]]+)\]\]/] *)
Definition re_blockRef : regex :=
  RSeq (RLit (js "[["))
    (RSeq (RGroup 1 (RRep true 1 (is_not (chr "]")))) (RLit (js "]]"))).

Definition tryMatchBlockRef (content : jsstring) (pos : Z) : option Token :=
  let remaining := substring_from content pos in
  match re_match re_blockRef remaining with
  | None => None
  | Some m =>
      Some (mkToken blockRef (group (g1 m))
              (Some (mkMeta None None (Some (group (g1 m))) None None None None None))
              (len (m0 m)))
  end.

(** [/^(https?:\/\/[^\s)\]]+)/] *)
Definition re_nakedUrl : regex :=
  RGroup 1
    (RSeq re_scheme
       (RRep true 1
          (fun c => negb (is_space c) && is_not (chr ")") c && is_not (chr "]") c))).

Definition tryMatchNakedUrl (content : jsstring) (pos : Z) : option Token :=
  let remaining := substring_from content pos in
  match re_match re_nakedUrl remaining with
  | None => None
  | Some m =>
      Some (mkToken nakedUrl (group (g1 m))
              (Some (mkMeta None None (Some (group (g1 m))) None None None None
                       (Some true)))
              (len (m0 m)))
  end.

(** [/^==([^=]+)==/] *)
Definition re_highlight : regex :=
  RSeq (RLit (js "=="))
    (RSeq (RGroup 1 (RRep true 1 (is_not (chr "=")))) (RLit (js "=="))).

Definition tryMatchHighlight (content : jsstring) (pos : Z) : option Token :=
  let remaining := substring_from content pos in
  match re_match re_highlight remaining with
  | None => None
  | Some m => Some (mkToken highlight (group (g1 m)) None (len (m0 m)))
  end.

(** [/^\*\*([^*]+)\*\*/] *)
Definition re_bold : regex :=
  RSeq (RLit (js "**"))
    (RSeq (RGroup 1 (RRep true 1 (is_not (chr "*")))) (RLit (js "**"))).

Definition tryMatchBold (content : jsstring) (pos : Z) : option Token :=
  let remaining := substring_from content pos in
  match re_match re_bold remaining with
  | None => None
  | Some m => Some (mkToken bold (group (g1 m)) None (len (m0 m)))
  end.

(** [/^#([a-zA-Z0-9_-]+)/] *)
Definition re_tag : regex :=
  RSeq (RLit (js "#"))
    (RGroup 1 (RRep true 1 (fun c => is_word c || N.eqb c (chr "-")))).

Definition tryMatchTag (content : jsstring) (pos : Z) : option Token :=
  let remaining := substring_from content pos in
  match re_match re_tag remaining with
  | None => None
  | Some m => Some (mkToken tag (group (g1 m)) None (len (m0 m)))
  end.

(** [/[\[#=*`{!]/] *)
Definition re_specialChars : regex :=
  RClass (fun c =>
    N.eqb c (chr "[") || N.eqb c (chr "#") || N.eqb c (chr "=")
    || N.eqb c (chr "*") || N.eqb c (chr "`") || N.eqb c (chr "{")
    || N.eqb c (chr "!")).

(** [/\n>/] *)
Definition re_newlineBlockquote : regex := RLit (nl :: js ">").

(** [matchText]: plain text until the next special character. *)
Definition matchText (content : jsstring) (pos : Z) : Token :=
  let remaining := substring_from content pos in
  let atLineStart := (pos =? 0) || negb (char_neq (charAt content (pos - 1)) nl) in
  let taskMarkerAtStart := if atLineStart then Some re_taskMarker else None in
  let blockquoteAtStart := atLineStart && startsWith remaining (js ">") in
  if match taskMarkerAtStart with
     | Some r => re_test r remaining
     | None => false
     end
  then
    let nextSpecial := re_search re_specialChars remaining in
    let length := if nextSpecial =? -1 then len remaining else Z.max 1 nextSpecial in
    mkToken text (substring remaining 0 length) None length
  else if blockquoteAtStart then
    mkToken text [] None 0
  else
    let nextSpecial := re_search re_specialChars remaining in
    let urlStart := re_search re_scheme remaining in
    let nextSpecial :=
      if negb (urlStart =? -1) && ((nextSpecial =? -1) || (urlStart <? nextSpecial))
      then urlStart else nextSpecial in
    let newlineBlockquote := re_search re_newlineBlockquote remaining in
    let nextSpecial :=
      if negb (newlineBlockquote =? -1)
         && ((nextSpecial =? -1) || (newlineBlockquote + 1 <? nextSpecial))
      then newlineBlockquote + 1 else nextSpecial in
    let length := if nextSpecial =? -1 then len remaining else Z.max 1 nextSpecial in
    mkToken text (substring remaining 0 length) None length.

(** [a || b] on optional tokens. *)
Definition orElse (a : option Token) (b : unit -> option Token) : option Token :=
  match a with
  | Some t => Some t
  | None => b tt
  end.

(** The body of the scan loop: the first matcher that succeeds, in priority
    order, with [matchText] as the fallback. *)
Definition nextToken (content : jsstring) (position : Z) : Token :=
  match
    orElse (tryMatchCodeBlock content position) (fun _ =>
    orElse (tryMatchQuery content position) (fun _ =>
    orElse (tryMatchTaskMarker content position) (fun _ =>
    orElse (tryMatchBlockquote content position) (fun _ =>
    orElse (tryMatchImage content position) (fun _ =>
    orElse (tryMatchMarkdownLink content position) (fun _ =>
    orElse (tryMatchBlockRef content position) (fun _ =>
    orElse (tryMatchNakedUrl content position) (fun _ =>
    orElse (tryMatchHighlight content position) (fun _ =>
    orElse (tryMatchBold content position) (fun _ =>
           (tryMatchTag content position)))))))))))
  with
  | Some t => t
  | None => matchText content position
  end.

(** The scan loop [while (position < content.length)].  A token of length 0
    would make the loop spin for ever, so the loop is given fuel and answers
    [None] when it runs out. *)
Fixpoint parse_loop (fuel : nat) (content : jsstring) (position : Z)
         (tokens : list Token) : option (list Token) :=
  if position <? len content then
    match fuel with
    | O => None
    | S fuel' =>
        let token := nextToken content position in
        parse_loop fuel' content (position + length token) (tokens ++ [token])
    end
  else Some tokens.

Definition parse_fuel (fuel : nat) (content : jsstring) : option (list Token) :=
  parse_loop fuel content 0 [].

(** [LogseqParser.parse]: one unit of fuel per character of the input is
    always enough (theorem [parse_terminates] below). *)
Definition parse (content : jsstring) : list Token :=
  match parse_fuel (List.length content) content with
  | Some tokens => tokens
  | None => []
  end.

End LogseqParser.

(* ================================================================== *)
(** ** Format generators *)
(* ================================================================== *)

(** Characters outside ASCII that occur in the literals of the Markdown and
    of the HTML generator, as UTF-16 code units.  The file of the AsciiDoc
    generator has other characters in the same places; they are given in its
    module. *)
Definition emoji_doing : jsstring := [55357; 56580]%N.     (* U+1F504 *)
Definition emoji_later : jsstring := [9203]%N.             (* U+23F3  *)
Definition emoji_now : jsstring := [55357; 56613]%N.       (* U+1F525 *)
Definition play_sign : jsstring := [9654; 65039]%N.        (* U+25B6 U+FE0F *)
Definition arrow : jsstring := [8594]%N.                   (* U+2192  *)

(** [token.metadata?.isExternalUrl] used as a condition. *)
Definition isExternal (t : Token) : bool :=
  match meta isExternalUrl t with
  | Some b => b
  | None => false
  end.

Definition videoType_eqb (a b : VideoType) : bool :=
  match a, b with
  | youtube, youtube | vimeo, vimeo | other, other => true
  | _, _ => false
  end.

(** [videoType === ty && videoId]: the video id when the test passes. *)
Definition video_of (ty : VideoType) (t : Token) : option jsstring :=
  match meta videoType t, meta videoId t with
  | Some ty', Some id => if videoType_eqb ty' ty && nonempty id then Some id else None
  | _, _ => None
  end.

(** [tokens.map(g).join('')]. *)
Definition generate_with (g : Token -> jsstring) (tokens : list Token) : jsstring :=
  join [] (List.map g tokens).

(* ------------------------------------------------------------------ *)
Module MarkdownGenerator.

Definition generateImage (token : Token) : jsstring :=
  let altText := str_or (meta altText token) [] in
  let imageSrc := str_or (meta linkTarget token) [] in
  if isExternal token then
    js "![" ++ altText ++ js "](" ++ imageSrc ++ js ")"
  else
    js "**[Image: " ++ str_or (Some altText) (js "no description")
       ++ js "]** (local file: " ++ imageSrc ++ js ")".

Definition generateVideoEmbed (token : Token) : jsstring :=
  let url := str_or (meta linkTarget token) (value token) in
  match video_of youtube token with
  | Some videoId =>
      js "[" ++ play_sign ++ js " YouTube Video](https://www.youtube.com/watch?v="
         ++ videoId ++ js ")"
  | None =>
      match video_of vimeo token with
      | Some videoId =>
          js "[" ++ play_sign ++ js " Vimeo Video](https://vimeo.com/" ++ videoId ++ js ")"
      | None => js "[" ++ play_sign ++ js " Video](" ++ url ++ js ")"
      end
  end.

Definition generateMarkdownLink (token : Token) : jsstring :=
  let linkText := str_or (meta linkText token) (value token) in
  let linkTarget := str_or (meta linkTarget token) [] in
  if isExternal token then
    js "[" ++ linkText ++ js "](" ++ linkTarget ++ js ")"
  else
    js "**" ++ linkText ++ js "** (" ++ arrow ++ js " " ++ linkTarget ++ js ")".

Definition generateCodeBlock (token : Token) : jsstring :=
  let lang := str_or (meta language token) [] in
  js "```" ++ lang ++ [nl] ++ value token ++ js "```".

Definition generateTaskMarker (token : Token) : jsstring :=
  match meta taskType token with
  | Some TODO | None => js "- [ ] "
  | Some DONE => js "- [x] "
  | Some DOING => js "- [ ] " ++ emoji_doing ++ js " "
  | Some LATER => js "- [ ] " ++ emoji_later ++ js " "
  | Some NOW => js "- [ ] " ++ emoji_now ++ js " "
  end.

Definition generateToken (token : Token) : jsstring :=
  match type token with
  | text => value token
  | blockRef => js "**" ++ value token ++ js "**"
  | markdownLink => generateMarkdownLink token
  | nakedUrl => value token
  | image => generateImage token
  | videoEmbed => generateVideoEmbed token
  | tag => js "**" ++ value token ++ js "**"
  | highlight => js "<mark>" ++ value token ++ js "</mark>"
  | bold => js "**" ++ value token ++ js "**"
  | codeBlock => generateCodeBlock token
  | query => js "Query: " ++ value token
  | taskMarker => generateTaskMarker token
  | blockquote => js "> " ++ value token
  end.

Definition generate (tokens : list Token) : jsstring :=
  generate_with generateToken tokens.

End MarkdownGenerator.

(* ------------------------------------------------------------------ *)
Module AsciiDocGenerator.

(** The characters outside ASCII of the literals of [asciidoc-generator.ts],
    as that file has them, in UTF-16 code units: where the two other
    generators have an emoji, a play sign or an arrow, this file has the
    sequences below. *)
Definition emoji_doing : jsstring := [63743; 252; 238; 209]%N.
                                      (* U+F8FF U+00FC U+00EE U+00D1 *)
Definition emoji_later : jsstring := [8218; 232; 8805]%N.
                                      (* U+201A U+00E8 U+2265 *)
Definition emoji_now : jsstring := [63743; 252; 238; 8226]%N.
                                      (* U+F8FF U+00FC U+00EE U+2022 *)
Definition play_sign : jsstring := [8218; 241; 8706; 212; 8719; 232]%N.
                    (* U+201A U+00F1 U+2202 U+00D4 U+220F U+00E8 *)
Definition arrow : jsstring := [8218; 220; 237]%N.
                                      (* U+201A U+00DC U+00ED *)

Definition generateImage (token : Token) : jsstring :=
  let altText := str_or (meta altText token) [] in
  let imageSrc := str_or (meta linkTarget token) [] in
  if isExternal token then
    js "image::" ++ imageSrc ++ js "[" ++ altText ++ js "]"
  else
    js "*[Image: " ++ str_or (Some altText) (js "no description")
       ++ js "]* (local file: " ++ imageSrc ++ js ")".

Definition generateVideoEmbed (token : Token) : jsstring :=
  let url := str_or (meta linkTarget token) (value token) in
  match video_of youtube token with
  | Some videoId => js "video::" ++ videoId ++ js "[youtube]"
  | None =>
      match video_of vimeo token with
      | Some videoId => js "video::" ++ videoId ++ js "[vimeo]"
      | None => url ++ js "[" ++ play_sign ++ js " Video]"
      end
  end.

Definition generateAsciiDocLink (token : Token) : jsstring :=
  let linkText := str_or (meta linkText token) (value token) in
  let linkTarget := str_or (meta linkTarget token) [] in
  if isExternal token then
    linkTarget ++ js "[" ++ linkText ++ js "]"
  else
    js "*" ++ linkText ++ js "* (" ++ arrow ++ js " " ++ linkTarget ++ js ")".

Definition generateCodeBlock (token : Token) : jsstring :=
  let lang := str_or (meta language token) [] in
  let sourceAttr :=
    if nonempty lang then js "[source," ++ lang ++ js "]" else js "[source]" in
  sourceAttr ++ [nl] ++ js "----" ++ [nl] ++ trim (value token) ++ [nl] ++ js "----".

Definition generateTaskMarker (token : Token) : jsstring :=
  match meta taskType token with
  | Some TODO | None => js "* [ ] "
  | Some DONE => js "* [x] "
  | Some DOING => js "* [ ] " ++ emoji_doing ++ js " "
  | Some LATER => js "* [ ] " ++ emoji_later ++ js " "
  | Some NOW => js "* [ ] " ++ emoji_now ++ js " "
  end.

(** [/^"(.+?)"\s*-\s*(.+)$/] *)
Definition re_quoteWithAuthor : regex :=
  RSeq (RLit [dq])
    (RSeq (RGroup 1 (RRep false 1 is_dot))
       (RSeq (RLit [dq])
          (RSeq (RRep true 0 is_space)
             (RSeq (RLit (js "-"))
                (RSeq (RRep true 0 is_space)
                   (RSeq (RGroup 2 (RRep true 1 is_dot)) REnd)))))).

(** [/^(.+?)\s*-\s*(.+)$/] *)
Definition re_simpleQuoteWithAuthor : regex :=
  RSeq (RGroup 1 (RRep false 1 is_dot))
    (RSeq (RRep true 0 is_space)
       (RSeq (RLit (js "-"))
          (RSeq (RRep true 0 is_space)
             (RSeq (RGroup 2 (RRep true 1 is_dot)) REnd)))).

(** The attributed quote block: [`\n"${quote}"\n-- ${author}\n`]. *)
Definition attributed (quote author : jsstring) : jsstring :=
  [nl] ++ [dq] ++ quote ++ [dq] ++ [nl] ++ js "-- " ++ author ++ [nl].

Definition generateBlockquote (token : Token) : jsstring :=
  let content := value token in
  match re_match re_quoteWithAuthor content with
  | Some quoteWithAuthorMatch =>
      let quote := group (g1 quoteWithAuthorMatch) in
      let author := group (g2 quoteWithAuthorMatch) in
      attributed quote author
  | None =>
      let plain := [dq] ++ content ++ [dq] in
      match re_match re_simpleQuoteWithAuthor content with
      | Some simpleQuoteWithAuthorMatch =>
          let potentialQuote := trim (group (g1 simpleQuoteWithAuthorMatch)) in
          let potentialAuthor := trim (group (g2 simpleQuoteWithAuthorMatch)) in
          if (len potentialAuthor <? 50) && (len potentialQuote >? len potentialAuthor)
          then attributed potentialQuote potentialAuthor
          else plain
      | None => plain
      end
  end.

Definition generateToken (token : Token) : jsstring :=
  match type token with
  | text => if str_eqb (value token) [nl] then [] else value token
  | blockRef => js "*" ++ value token ++ js "*"
  | markdownLink => generateAsciiDocLink token
  | nakedUrl => value token
  | image => generateImage token
  | videoEmbed => generateVideoEmbed token
  | tag => js "*" ++ value token ++ js "*"
  | highlight => js "#" ++ value token ++ js "#"
  | bold => js "*" ++ value token ++ js "*"
  | codeBlock => generateCodeBlock token
  | query => js "Query: " ++ value token
  | taskMarker => generateTaskMarker token
  | blockquote => generateBlockquote token
  end.

Definition generate (tokens : list Token) : jsstring :=
  generate_with generateToken tokens.

End AsciiDocGenerator.

(* ------------------------------------------------------------------ *)
(** [escapeHtml], defined alike in [HtmlGenerator] and [HtmlConverter]: five
    global replacements, one after the other, the ampersand first. *)
Definition escapeHtml (s : jsstring) : jsstring :=
  replace_all sq (js "&#039;")
    (replace_all dq (js "&quot;")
       (replace_all (chr ">") (js "&gt;")
          (replace_all (chr "<") (js "&lt;")
             (replace_all (chr "&") (js "&amp;") s)))).

Module HtmlGenerator.

Definition generateImage (token : Token) : jsstring :=
  let altText := str_or (meta altText token) [] in
  let imageSrc := str_or (meta linkTarget token) [] in
  if isExternal token then
    js "<img src=" ++ [dq] ++ escapeHtml imageSrc ++ [dq] ++ js " alt=" ++ [dq]
       ++ escapeHtml altText ++ [dq] ++ js " />"
  else
    js "<strong>[Image: " ++ escapeHtml (str_or (Some altText) (js "no description"))
       ++ js "]</strong> <em>(local file: " ++ escapeHtml imageSrc ++ js ")</em>".

Definition generateVideoEmbed (token : Token) : jsstring :=
  let url := str_or (meta linkTarget token) (value token) in
  match video_of youtube token with
  | Some videoId =>
      js "<iframe width=" ++ [dq] ++ js "560" ++ [dq] ++ js " height=" ++ [dq]
         ++ js "315" ++ [dq] ++ js " src=" ++ [dq]
         ++ js "https://www.youtube.com/embed/" ++ escapeHtml videoId ++ [dq]
         ++ js " frameborder=" ++ [dq] ++ js "0" ++ [dq]
         ++ js " allowfullscreen></iframe>"
  | None =>
      match video_of vimeo token with
      | Some videoId =>
          js "<iframe src=" ++ [dq] ++ js "https://player.vimeo.com/video/"
             ++ escapeHtml videoId ++ [dq] ++ js " width=" ++ [dq] ++ js "560" ++ [dq]
             ++ js " height=" ++ [dq] ++ js "315" ++ [dq] ++ js " frameborder=" ++ [dq]
             ++ js "0" ++ [dq] ++ js " allowfullscreen></iframe>"
      | None =>
          js "<a href=" ++ [dq] ++ escapeHtml url ++ [dq] ++ js ">" ++ play_sign
             ++ js " Video</a>"
      end
  end.

Definition generateLink (token : Token) : jsstring :=
  let linkText := str_or (meta linkText token) (value token) in
  let linkTarget := str_or (meta linkTarget token) [] in
  if isExternal token then
    js "<a href=" ++ [dq] ++ escapeHtml linkTarget ++ [dq] ++ js ">"
       ++ escapeHtml linkText ++ js "</a>"
  else
    js "<strong>" ++ escapeHtml linkText ++ js "</strong> <em>(" ++ arrow ++ js " "
       ++ escapeHtml linkTarget ++ js ")</em>".

Definition generateCodeBlock (token : Token) : jsstring :=
  let lang := str_or (meta language token) [] in
  let langClass :=
    if nonempty lang
    then js " class=" ++ [dq] ++ js "language-" ++ escapeHtml lang ++ [dq]
    else [] in
  js "<pre><code" ++ langClass ++ js ">" ++ escapeHtml (value token)
     ++ js "</code></pre>".

Definition getTaskEmoji (taskType : option TaskType) : jsstring :=
  match taskType with
  | Some DOING => emoji_doing
  | Some LATER => emoji_later
  | Some NOW => emoji_now
  | _ => []
  end.

Definition generateTaskMarker (token : Token) : jsstring :=
  let taskType := meta taskType token in
  let checked := match taskType with Some DONE => js " checked" | _ => [] end in
  let emoji := getTaskEmoji taskType in
  js "<input type=" ++ [dq] ++ js "checkbox" ++ [dq] ++ checked ++ js " disabled /> "
     ++ emoji.

Definition generateToken (token : Token) : jsstring :=
  match type token with
  | text => escapeHtml (value token)
  | blockRef => js "<strong>" ++ escapeHtml (value token) ++ js "</strong>"
  | markdownLink => generateLink token
  | nakedUrl =>
      js "<a href=" ++ [dq] ++ escapeHtml (value token) ++ [dq] ++ js ">"
         ++ escapeHtml (value token) ++ js "</a>"
  | image => generateImage token
  | videoEmbed => generateVideoEmbed token
  | tag => js "<strong>" ++ escapeHtml (value token) ++ js "</strong>"
  | highlight => js "<mark>" ++ escapeHtml (value token) ++ js "</mark>"
  | bold => js "<strong>" ++ escapeHtml (value token) ++ js "</strong>"
  | codeBlock => generateCodeBlock token
  | query => js "<em>Query: " ++ escapeHtml (value token) ++ js "</em>"
  | taskMarker => generateTaskMarker token
  | blockquote => js "<blockquote>" ++ escapeHtml (value token) ++ js "</blockquote>"
  end.

Definition generate (tokens : list Token) : jsstring :=
  generate_with generateToken tokens.

End HtmlGenerator.

(* ================================================================== *)
(** ** Blocks, options and results ([types.ts]) *)
(* ================================================================== *)

(** A property value ([any] in the source).  The program does two things
    with it: it compares it with [null] and [undefined], and it turns it into
    a string.  A number, and any other value (an array, an object), is
    therefore given by the string that JavaScript makes of it: [3], [1.5],
    [1e+21] or [NaN] for a number, the joined elements for an array,
    [[object Object]] for a plain object.  Values that cannot be turned into
    a string (a symbol inside a template) are left out. *)
Inductive PropValue : Type :=
| PNull
| PUndefined
| PStr (s : jsstring)
| PBool (b : bool)
| PNumber (shown : jsstring)
| POther (shown : jsstring).

(** [String(value)] and [`${value}`] on a property value. *)
Definition toString (v : PropValue) : jsstring :=
  match v with
  | PNull => js "null"
  | PUndefined => js "undefined"
  | PStr s => s
  | PBool true => js "true"
  | PBool false => js "false"
  | PNumber shown => shown
  | POther shown => shown
  end.

(** [value !== null && value !== undefined] *)
Definition is_set (v : PropValue) : bool :=
  match v with
  | PNull | PUndefined => false
  | _ => true
  end.

(** [Record<string, any>] in the order [Object.entries] walks it. *)
Definition Properties : Type := list (jsstring * PropValue).

(** [LogseqBlock].  The source declares [children?]; every function below
    treats a missing list and an empty list alike
    ([block.children && block.children.length > 0], [for ... of]), so the field
    is a list here.  The fields [level], [parent] and [page] are never read. *)
#[warnings="-register-all"]
Inductive LogseqBlock : Type :=
  mkBlock (uuid : jsstring) (content : jsstring)
          (properties : option Properties) (children : list LogseqBlock).

Definition content (b : LogseqBlock) : jsstring :=
  match b with mkBlock _ c _ _ => c end.

Definition properties (b : LogseqBlock) : option Properties :=
  match b with mkBlock _ _ p _ => p end.

Definition children (b : LogseqBlock) : list LogseqBlock :=
  match b with mkBlock _ _ _ ch => ch end.

Inductive Format : Type := markdown | asciidoc | html.

Record ExportOptions : Type := mkOptions {
  format : Format;
  includeChildren : bool;
  includeProperties : bool;
  maxDepth : option Z
}.

Record ExportResult : Type := mkResult {
  result_content : jsstring;
  result_format : Format;
  blockCount : Z
}.

(** [options.maxDepth && depth > options.maxDepth]: an absent [maxDepth] and
    a [maxDepth] of 0 are both falsy. *)
Definition beyond_maxDepth (options : ExportOptions) (depth : Z) : bool :=
  match maxDepth options with
  | Some m => negb (m =? 0) && (depth >? m)
  | None => false
  end.

(** [options.includeProperties && block.properties &&
     Object.keys(block.properties).length > 0]: the properties to render. *)
Definition wanted_properties (options : ExportOptions) (block : LogseqBlock)
  : option Properties :=
  if includeProperties options then
    match properties block with
    | Some (p :: ps) => Some (p :: ps)
    | _ => None
    end
  else None.

(** [options.includeChildren && block.children && block.children.length > 0]:
    the children to visit. *)
Definition wanted_children (options : ExportOptions) (block : LogseqBlock)
  : list LogseqBlock :=
  if includeChildren options then children block else [].

(** [countBlocks], the same in the three converters. *)
Fixpoint countBlocks (block : LogseqBlock) (options : ExportOptions) : Z :=
  match block with
  | mkBlock _ _ _ ch =>
      if includeChildren options then
        fold_left (fun count child => count + countBlocks child options) ch 1
      else 1
  end.

(** [#{1,k+1}] unfolded into nested optional groups. *)
Fixpoint up_to (k : nat) (r : regex) : regex :=
  match k with
  | O => RLit []
  | S k' => ROpt (RSeq r (up_to k' r))
  end.

(** [#{1,6}] *)
Definition re_hashes : regex := RSeq (RLit (js "#")) (up_to 5 (RLit (js "#"))).

(** [/^(#{1,6})\s+(.+)/], used by [convertToDiscreteHeading] and
    [convertToHeading]. *)
Definition re_heading : regex :=
  RSeq (RGroup 1 re_hashes)
    (RSeq (RRep true 1 is_space) (RGroup 2 (RRep true 1 is_dot))).

(** [a[0]], [a[1]], ... on an array of strings that is long enough. *)
Definition item (a : list jsstring) (i : nat) : jsstring := nth i a [].

(** [a[i]] where the source tests the result for truthiness. *)
Definition item_opt (a : list jsstring) (i : nat) : option jsstring := nth_error a i.

(** [a.length > 0] *)
Definition nonempty_list {A : Type} (a : list A) : bool :=
  match a with [] => false | _ => true end.

(** [line.trim() === ''] *)
Definition blank (line : jsstring) : bool := negb (nonempty (trim line)).

(* ================================================================== *)
(** ** Markdown converter ([markdown-converter.ts]) *)
(* ================================================================== *)

Module MarkdownConverter.

Definition convertLogseqSyntax (content : jsstring) : jsstring :=
  MarkdownGenerator.generate (LogseqParser.parse content).

(** The callback of [lines.slice(1).map((line, index) => ...)]. *)
Definition remainingLine (lines : list jsstring) (indent : jsstring)
           (index : nat) (line : jsstring) : jsstring :=
  let isBlockquote := startsWith (trim line) (js ">") in
  let isEmpty := blank line in
  let isLastLine := Nat.eqb (index + 2) (List.length lines) in
  let nextLineIndex := (index + 2)%nat in
  let nextLine := item_opt lines nextLineIndex in
  let nextIsBlockquote :=
    match nextLine with
    | Some l => nonempty l && startsWith (trim l) (js ">")
    | None => false
    end in
  let nextIsEmpty :=
    match nextLine with
    | Some l => nonempty l && blank l
    | None => false
    end in
  if isBlockquote || isEmpty || isLastLine || nextIsBlockquote || nextIsEmpty
  then indent ++ js "  " ++ line
  else indent ++ js "  " ++ line ++ [bslash].

(** [a.map((x, index) => f index x)] *)
Fixpoint mapi {A B : Type} (f : nat -> A -> B) (i : nat) (l : list A) : list B :=
  match l with
  | [] => []
  | x :: l' => f i x :: mapi f (S i) l'
  end.

Definition convertBlockContent (content : jsstring) (depth : Z) : jsstring :=
  if blank content then []
  else
    let converted := convertLogseqSyntax content in
    let lines := split_on nl converted in
    if depth >? 0 then
      let indent := repeat (js "  ") depth in
      if startsWith converted (js "```") then
        join [nl] (List.map (fun line => indent ++ line) lines)
      else if Nat.ltb 1 (List.length lines) then
        let remainingLines := mapi (remainingLine lines indent) 0 (tl lines) in
        let needsBackslash :=
          match item_opt lines 1 with
          | Some secondLine =>
              nonempty secondLine
              && negb (startsWith (trim secondLine) (js ">"))
              && negb (blank secondLine)
          | None => false
          end in
        let firstLine :=
          if needsBackslash
          then indent ++ js "- " ++ item lines 0 ++ [bslash]
          else indent ++ js "- " ++ item lines 0 in
        join [nl] (firstLine :: remainingLines)
      else
        indent ++ js "- " ++ converted
    else converted.

(** The loop body of [convertProperties]: one line per property that is
    neither [null] nor [undefined]. *)
Definition propertyLines (properties : Properties) : list jsstring :=
  flat_map (fun kv =>
    if is_set (snd kv)
    then [js "- **" ++ fst kv ++ js "**: " ++ toString (snd kv)]
    else []) properties.

Definition convertProperties (properties : Properties) : jsstring :=
  join [nl] (js "**Properties:**" :: propertyLines properties).

(** [processBlock] pushes onto the array [lines]; here it returns the array
    after the pushes. *)
Fixpoint processBlock (block : LogseqBlock) (lines : list jsstring) (depth : Z)
         (options : ExportOptions) {struct block} : list jsstring :=
  if beyond_maxDepth options depth then lines
  else
    let content := convertBlockContent (content block) depth in
    let lines := if nonempty (trim content) then lines ++ [content] else lines in
    let lines :=
      match wanted_properties options block with
      | Some properties => lines ++ [convertProperties properties]
      | None => lines
      end in
    match block with
    | mkBlock _ _ _ ch =>
        if includeChildren options then
          fold_left (fun lines child => processBlock child lines (depth + 1) options)
            ch lines
        else lines
    end.

Definition convertBlock (block : LogseqBlock) (options : ExportOptions) : ExportResult :=
  let lines := processBlock block [] 0 options in
  let blockCount := countBlocks block options in
  mkResult (join [nl] lines) markdown blockCount.

End MarkdownConverter.

(* ================================================================== *)
(** ** AsciiDoc converter ([asciidoc-converter.ts]) *)
(* ================================================================== *)

Module AsciiDocConverter.

(** The static field [listDepthOffset : number | null] is the only state of
    the class; every function that reads or writes it takes the current value
    and returns the new one. *)
Definition State : Type := option Z.

Definition convertLogseqSyntax (content : jsstring) : jsstring :=
  AsciiDocGenerator.generate (LogseqParser.parse content).

(** [/^#{1,6}\s/] *)
Definition re_isHeading : regex := RSeq re_hashes (RClass is_space).

Definition isHeading (content : jsstring) : bool := re_test re_isHeading content.

Definition convertToDiscreteHeading (content : jsstring) : jsstring :=
  match re_match re_heading content with
  | None => content
  | Some m =>
      let headingLevel := len (group (g1 m)) in
      let headingText := group (g2 m) in
      let adocLevel := repeat (js "=") (headingLevel + 1) in
      [nl; nl] ++ js "[discrete]" ++ [nl] ++ adocLevel ++ js " " ++ headingText ++ [nl]
  end.

(** [while (lines.length > 0 && lines[lines.length - 1].trim() === '') lines.pop()] *)
Fixpoint dropBlankStart (lines : list jsstring) : list jsstring :=
  match lines with
  | l :: rest => if blank l then dropBlankStart rest else lines
  | [] => []
  end.

Definition popBlankLines (lines : list jsstring) : list jsstring :=
  rev (dropBlankStart (rev lines)).

(** The lines pushed by the [for] loop of the multi-line case, from index [i]
    on; [lines] already has the marker on its first line. *)
Fixpoint processedLines (lines : list jsstring) : list jsstring :=
  match lines with
  | [] => []
  | line :: rest =>
      match rest with
      | [] => [line]                                   (* isLastLine *)
      | nextLine :: _ =>
          (if blank line then [js "+"; line]
           else if blank nextLine then [line ++ js " +"]
           else [line ++ js " +"])
          ++ processedLines rest
      end
  end.

(** The first line with its list marker: the bullet of a rendered task marker
    is replaced, any other content gets the marker and a space. *)
Definition withMarker (converted indent line : jsstring) : jsstring :=
  if startsWith converted (js "* [")
  then indent ++ substring_from line 1
  else indent ++ js " " ++ line.

Definition convertBlockContent (content : jsstring) (depth : Z) (listDepthOffset : State)
  : jsstring * State :=
  if blank content then ([], listDepthOffset)
  else
    let converted := convertLogseqSyntax content in
    let lines := split_on nl converted in
    let firstLine := item lines 0 in
    if isHeading firstLine then
      let headingResult := convertToDiscreteHeading firstLine in
      if Nat.ltb 1 (List.length lines)
      then (headingResult ++ join [nl] (tl lines) ++ [nl], None)
      else (headingResult, None)
    else if startsWith converted (js "[source") then
      ([nl] ++ converted, listDepthOffset)
    else if depth >? 0 then
      let offset :=
        match listDepthOffset with
        | None => depth - 1
        | Some o => o
        end in
      let normalizedDepth := depth - offset in
      let effectiveDepth := Z.max 1 normalizedDepth in
      let indent := repeat (js "*") effectiveDepth in
      let converted :=
        if Nat.ltb 1 (List.length lines) then
          let hasQuoteBlock :=
            includes converted [nl; dq] && includes converted (nl :: js "--") in
          if hasQuoteBlock then
            let lines := popBlankLines lines in
            if blank (item lines 0) then
              indent ++ js " " ++ join [nl] (tl lines)
            else
              withMarker converted indent (item lines 0) ++ [nl] ++ join [nl] (tl lines)
          else
            let firstLineWithMarker := withMarker converted indent (item lines 0) in
            join [nl] (processedLines (firstLineWithMarker :: tl lines))
        else
          if startsWith converted (js "* [")
          then indent ++ substring_from converted 1
          else indent ++ js " " ++ converted in
      (converted, Some offset)
    else (converted, listDepthOffset).

Definition propertyLines (properties : Properties) : list jsstring :=
  flat_map (fun kv =>
    if is_set (snd kv)
    then [js "* *" ++ fst kv ++ js "*: " ++ toString (snd kv)]
    else []) properties.

Definition convertProperties (properties : Properties) : jsstring :=
  join [nl] (js "*Properties:*" :: [] :: propertyLines properties).

(** [processBlock]: the array [lines] and the static field are threaded
    through the recursion. *)
Fixpoint processBlock (block : LogseqBlock) (lines : list jsstring) (depth : Z)
         (options : ExportOptions) (st : State) {struct block}
  : list jsstring * State :=
  if beyond_maxDepth options depth then (lines, st)
  else
    let (content, st) := convertBlockContent (content block) depth st in
    let lines := if nonempty (trim content) then lines ++ [content] else lines in
    let lines :=
      match wanted_properties options block with
      | Some properties => lines ++ [convertProperties properties]
      | None => lines
      end in
    match block with
    | mkBlock _ _ _ ch =>
        if includeChildren options then
          fold_left
            (fun acc child => processBlock child (fst acc) (depth + 1) options (snd acc))
            ch (lines, st)
        else (lines, st)
    end.

(** [convertBlock] starts by resetting the static field, whatever value an
    earlier conversion left in it. *)
Definition convertBlock (block : LogseqBlock) (options : ExportOptions) (st : State)
  : ExportResult * State :=
  let st := @None Z in
  let processed := processBlock block [] 0 options st in
  let blockCount := countBlocks block options in
  (mkResult (join [nl] (fst processed)) asciidoc blockCount, snd processed).

End AsciiDocConverter.

(* ================================================================== *)
(** ** HTML converter ([html-converter.ts]) *)
(* ================================================================== *)

Module HtmlConverter.

Definition convertLogseqSyntax (content : jsstring) : jsstring :=
  HtmlGenerator.generate (LogseqParser.parse content).

(** [/^#{1,6}\s+/] *)
Definition re_isHeading : regex := RSeq re_hashes (RRep true 1 is_space).

Definition isHeading (content : jsstring) : bool := re_test re_isHeading content.

(** [`<h${level}>`] and [`</h${level}>`] for a level between 1 and 6. *)
Definition digit (level : Z) : jsstring := js (NilEmpty.string_of_int (Z.to_int level)).

Definition convertToHeading (content : jsstring) : jsstring :=
  match re_match re_heading content with
  | None => content
  | Some m =>
      let level := len (group (g1 m)) in
      let text := group (g2 m) in
      let convertedText := convertLogseqSyntax text in
      js "<h" ++ digit level ++ js ">" ++ convertedText ++ js "</h" ++ digit level ++ js ">"
  end.

Definition convertBlockContent (content : jsstring) : jsstring :=
  if blank content then []
  else
    let lines := split_on nl content in
    let firstLine := item lines 0 in
    if isHeading firstLine then
      let headingHtml := convertToHeading firstLine in
      if Nat.ltb 1 (List.length lines) then
        let remainingLines := join [nl] (tl lines) in
        let convertedRemaining := convertLogseqSyntax remainingLines in
        let withBreaks := replace_all nl (js "<br>") convertedRemaining in
        headingHtml ++ withBreaks
      else headingHtml
    else
      replace_all nl (js "<br>") (convertLogseqSyntax content).

Definition propertyItems (properties : Properties) : jsstring :=
  flat_map (fun kv =>
    if is_set (snd kv)
    then js "<li><strong>" ++ escapeHtml (fst kv) ++ js "</strong>: "
            ++ escapeHtml (toString (snd kv)) ++ js "</li>"
    else []) properties.

Definition convertProperties (properties : Properties) : jsstring :=
  js "<div class=" ++ [dq] ++ js "properties" ++ [dq] ++ js "><strong>Properties:</strong><ul>"
     ++ propertyItems properties ++ js "</ul></div>".

(** [generateListItem] takes no depth: [maxDepth] is not looked at below the
    root. *)
Fixpoint generateListItem (block : LogseqBlock) (options : ExportOptions)
         {struct block} : jsstring :=
  let content := convertBlockContent (content block) in
  let html := js "<li>" ++ content in
  let html :=
    match wanted_properties options block with
    | Some properties => html ++ convertProperties properties
    | None => html
    end in
  let html :=
    match block with
    | mkBlock _ _ _ ch =>
        if includeChildren options && nonempty_list ch then
          html ++ js "<ul>"
               ++ fold_left (fun html child => html ++ generateListItem child options) ch []
               ++ js "</ul>"
        else html
    end in
  html ++ js "</li>".

Definition generateHtml (block : LogseqBlock) (depth : Z) (options : ExportOptions)
  : jsstring :=
  if beyond_maxDepth options depth then []
  else
    let content := convertBlockContent (content block) in
    if depth =? 0 then
      let html := if nonempty (trim content) then content else [] in
      let html :=
        match wanted_properties options block with
        | Some properties => html ++ convertProperties properties
        | None => html
        end in
      if includeChildren options && nonempty_list (children block) then
        html ++ js "<ul>"
             ++ fold_left (fun html child => html ++ generateListItem child options)
                  (children block) []
             ++ js "</ul>"
      else html
    else content.

Definition convertBlock (block : LogseqBlock) (options : ExportOptions) : ExportResult :=
  let htmlText := generateHtml block 0 options in
  let blockCount := countBlocks block options in
  mkResult htmlText html blockCount.

End HtmlConverter.

(* ================================================================== *)
(** ** [ExportService.convertBlock]: the converter for the requested format *)
(* ================================================================== *)

(** The AsciiDoc converter is run from the value [st] that the static field
    [listDepthOffset] holds when the call is made. *)
Definition convert_from (st : AsciiDocConverter.State) (block : LogseqBlock)
           (options : ExportOptions) : ExportResult :=
  match format options with
  | markdown => MarkdownConverter.convertBlock block options
  | asciidoc => fst (AsciiDocConverter.convertBlock block options st)
  | html => HtmlConverter.convertBlock block options
  end.

(** A conversion in a freshly loaded program, where the field is [null]. *)
Definition convert (block : LogseqBlock) (options : ExportOptions) : ExportResult :=
  convert_from None block options.

(* ================================================================== *)
(** ** Fetching blocks ([logseq-api.ts]) and [ExportService] *)
(* ================================================================== *)

(** A block as the host hands it over ([any] in the source): [content] and
    [properties] may be missing, [children] is the list of child blocks (a
    missing list and an empty list are treated alike). *)
#[warnings="-register-all"]
Inductive RawBlock : Type :=
  mkRaw (raw_uuid : jsstring) (raw_content : option jsstring)
        (raw_properties : option Properties) (raw_children : list RawBlock).

Module LogseqAPI.

(** [rawBlock.properties || {}] *)
Definition properties_or_empty (o : option Properties) : option Properties :=
  match o with
  | Some ps => Some ps
  | None => Some []
  end.

(** [transformBlock]: no children are set. *)
Definition transformBlock (rawBlock : RawBlock) : LogseqBlock :=
  match rawBlock with
  | mkRaw u c p _ => mkBlock u (str_or c []) (properties_or_empty p) []
  end.

(** [transformBlockWithChildren]: the children are taken over while
    [currentDepth < maxDepth]. *)
Fixpoint transformBlockWithChildren (rawBlock : RawBlock) (currentDepth maxDepth : Z)
         {struct rawBlock} : LogseqBlock :=
  match rawBlock with
  | mkRaw u c p ch =>
      mkBlock u (str_or c []) (properties_or_empty p)
        (if (currentDepth <? maxDepth) && nonempty_list ch
         then List.map
                (fun child => transformBlockWithChildren child (currentDepth + 1) maxDepth)
                ch
         else [])
  end.

(** [getCurrentPageBlocks] once the host has answered: [None] stands for a
    missing current page, otherwise the top-level blocks of the page are
    transformed with the default arguments of [transformBlockWithChildren]. *)
Definition getCurrentPageBlocks (tree : option (list RawBlock)) : list LogseqBlock :=
  match tree with
  | None => []
  | Some pageBlocks =>
      List.map (fun block => transformBlockWithChildren block 0 10) pageBlocks
  end.

End LogseqAPI.

Module ExportService.

(** [options.maxDepth || 10] *)
Definition maxDepth_or_10 (options : ExportOptions) : Z :=
  match maxDepth options with
  | Some m => if m =? 0 then 10 else m
  | None => 10
  end.

(** The block that [exportBlock] converts, from the block the host returned:
    the tree cut at [options.maxDepth || 10] when the children are wanted,
    the block alone when they are not. *)
Definition blockToExport (rawBlock : RawBlock) (options : ExportOptions) : LogseqBlock :=
  if includeChildren options
  then LogseqAPI.transformBlockWithChildren rawBlock 0 (maxDepth_or_10 options)
  else LogseqAPI.transformBlock rawBlock.

(** [exportBlock] once the host has answered: [None] for a block that was not
    found is the thrown error, otherwise the converted block.  [st] is the
    value of the AsciiDoc static field when the call is made. *)
Definition exportBlock (st : AsciiDocConverter.State) (found : option RawBlock)
           (options : ExportOptions) : option ExportResult :=
  match found with
  | None => None
  | Some rawBlock => Some (convert_from st (blockToExport rawBlock options) options)
  end.

(** [ExportService.convertBlock] together with the value it leaves in the
    AsciiDoc static field. *)
Definition convertBlock (st : AsciiDocConverter.State) (block : LogseqBlock)
           (options : ExportOptions) : ExportResult * AsciiDocConverter.State :=
  match format options with
  | markdown => (MarkdownConverter.convertBlock block options, st)
  | asciidoc => AsciiDocConverter.convertBlock block options st
  | html => (HtmlConverter.convertBlock block options, st)
  end.

(** The loop of [exportCurrentPage]: the contents pushed so far, the running
    total and the static field. *)
Definition pageLoop (options : ExportOptions) (pageBlocks : list LogseqBlock)
           (st : AsciiDocConverter.State)
  : list jsstring * Z * AsciiDocConverter.State :=
  fold_left
    (fun acc block =>
       let result := convertBlock (snd acc) block options in
       (fst (fst acc) ++ [result_content (fst result)],
        snd (fst acc) + blockCount (fst result),
        snd result))
    pageBlocks ([], 0, st).

(** [exportCurrentPage] once the host has answered; [None] is the error thrown
    for a page without blocks. *)
Definition exportCurrentPage (st : AsciiDocConverter.State)
           (tree : option (list RawBlock)) (options : ExportOptions)
  : option ExportResult :=
  let pageBlocks := LogseqAPI.getCurrentPageBlocks tree in
  if nonempty_list pageBlocks then
    let done := pageLoop options pageBlocks st in
    Some (mkResult (join [nl; nl] (fst (fst done))) (format options) (snd (fst done)))
  else None.

End ExportService.

(* ================================================================== *)
(** * Definitions used to state the properties *)
(* ================================================================== *)

(** ** Patterns *)

(** [nonnull r]: a match of [r] is never empty. *)
Fixpoint nonnull (r : regex) : bool :=
  match r with
  | RLit l => nonempty l
  | RClass _ => true
  | RSeq a b => nonnull a || nonnull b
  | RAlt a b => nonnull a && nonnull b
  | ROpt _ => false
  | RRep _ n _ => negb (Nat.eqb n 0)
  | RGroup _ a => nonnull a
  | REnd => false
  end.

(** A declarative reading of the patterns: [matches r pre rest] says that
    [r] can match [pre] when [rest] follows ([rest] matters for [$] only).
    Greedy and lazy repetitions match the same strings; they differ in which
    match the matcher tries first. *)
Inductive matches : regex -> jsstring -> jsstring -> Prop :=
| m_lit l rest : matches (RLit l) l rest
| m_class (p : char -> bool) x rest : p x = true -> matches (RClass p) [x] rest
| m_seq a b p1 p2 rest :
    matches a p1 (p2 ++ rest) -> matches b p2 rest -> matches (RSeq a b) (p1 ++ p2) rest
| m_alt_l a b pre rest : matches a pre rest -> matches (RAlt a b) pre rest
| m_alt_r a b pre rest : matches b pre rest -> matches (RAlt a b) pre rest
| m_opt_some a pre rest : matches a pre rest -> matches (ROpt a) pre rest
| m_opt_none a rest : matches (ROpt a) [] rest
| m_rep g n (p : char -> bool) pre rest :
    forallb p pre = true -> (n <= List.length pre)%nat -> matches (RRep g n p) pre rest
| m_group i a pre rest : matches a pre rest -> matches (RGroup i a) pre rest
| m_end : matches REnd [] [].

(** ** Tokens that cover a content *)

(** A token lies within what is left of the content and is not empty. *)
Definition in_bounds (content : jsstring) (pos : Z) (t : Token) : Prop :=
  1 <= length t <= len content - pos.

(** [tiles content pos tokens]: [tokens] are the tokens scanned one after the
    other from [pos] to the end of [content]; each one starts where the one
    before it ended, is at least one character long and stays inside
    [content]. *)
Inductive tiles (content : jsstring) : Z -> list Token -> Prop :=
| tiles_end : tiles content (len content) []
| tiles_token (pos : Z) (t : Token) (ts : list Token) :
    0 <= pos ->
    1 <= length t ->
    pos + length t <= len content ->
    t = LogseqParser.nextToken content pos ->
    tiles content (pos + length t) ts ->
    tiles content pos (t :: ts).

(** The sum of the [length] fields. *)
Definition total_length (tokens : list Token) : Z :=
  fold_right (fun t acc => length t + acc) 0 tokens.

(** The source span of each token: where it starts and where it ends, the
    first one starting at [pos]. *)
Fixpoint spans (pos : Z) (tokens : list Token) : list (Z * Z) :=
  match tokens with
  | [] => []
  | t :: ts => (pos, pos + length t) :: spans (pos + length t) ts
  end.

(** Spans that follow one another from [pos] to [stop] without gap or
    overlap, none of them empty. *)
Fixpoint contiguous (pos stop : Z) (l : list (Z * Z)) : Prop :=
  match l with
  | [] => pos = stop
  | (a, b) :: l' => a = pos /\ a < b /\ contiguous b stop l'
  end.

(** ** Block trees and tree walks *)

(** The blocks reachable from a block along [children] edges, the block
    itself first. *)
Fixpoint blocks_of (b : LogseqBlock) : list LogseqBlock :=
  match b with
  | mkBlock _ _ _ ch => b :: flat_map blocks_of ch
  end.

Definition reachable_blocks (b : LogseqBlock) : Z := Z.of_nat (List.length (blocks_of b)).

(** The three-level tree of the depth tests. *)
Definition three_levels (u0 u1 u2 : jsstring) : LogseqBlock :=
  mkBlock u0 (js "Level 0") None
    [mkBlock u1 (js "Level 1") None [mkBlock u2 (js "Level 2") None []]].

(** The lines a block adds besides those of its content: its properties
    section, when it is wanted. *)
Definition with_properties (render : Properties -> jsstring)
           (options : ExportOptions) (block : LogseqBlock) (lines : list jsstring)
  : list jsstring :=
  match wanted_properties options block with
  | Some properties => lines ++ [render properties]
  | None => lines
  end.

(** Two option records that every tree walk treats alike. *)
Definition same_walk (o o' : ExportOptions) : Prop :=
  includeChildren o = includeChildren o'
  /\ includeProperties o = includeProperties o'
  /\ forall depth, beyond_maxDepth o depth = beyond_maxDepth o' depth.

(** The nested task tree of the marker tests. *)
Definition nested_tasks (u0 u1 u2 : jsstring) : LogseqBlock :=
  mkBlock u0 (js "Root") None
    [mkBlock u1 (js "TODO child") None
       [mkBlock u2 (js "DONE grandchild") None []]].

(** A root with one whitespace-only child. *)
Definition root_with_blank_child : LogseqBlock :=
  mkBlock [] (js "Root") None [mkBlock [] (js "   ") None []].

(** ** Escaped texts and markup *)

(** The entity that stands for a character, or the character itself. *)
Definition entity (c : char) : jsstring :=
  if N.eqb c (chr "&") then js "&amp;"
  else if N.eqb c (chr "<") then js "&lt;"
  else if N.eqb c (chr ">") then js "&gt;"
  else if N.eqb c dq then js "&quot;"
  else if N.eqb c sq then js "&#039;"
  else [c].

(** Escaping as the specification words it: each of the five characters is
    replaced by its entity, every other character is kept. *)
Definition escape_spec (s : jsstring) : jsstring := flat_map entity s.

(** The characters that must not reach the output from a text. *)
Definition html_special (c : char) : bool :=
  N.eqb c (chr "<") || N.eqb c (chr ">") || N.eqb c dq || N.eqb c sq.

(** A piece of output: markup written in the generator, or a text that went
    through [escapeHtml]. *)
Inductive piece : Type :=
| Markup (s : jsstring)
| Escaped (txt : jsstring).

Definition render_piece (p : piece) : jsstring :=
  match p with
  | Markup s => s
  | Escaped txt => escapeHtml txt
  end.

Definition render (ps : list piece) : jsstring := flat_map render_piece ps.

(** The markup literals of [html-generator.ts] and of [convertProperties] in
    [html-converter.ts]. *)
Definition html_markup : list jsstring :=
  [ js "<strong>"; js "</strong>"; js "<mark>"; js "</mark>";
    js "<em>Query: "; js "</em>"; js "<blockquote>"; js "</blockquote>";
    js "<a href=" ++ [dq]; [dq] ++ js ">"; js "</a>";
    js "<img src=" ++ [dq]; [dq] ++ js " alt=" ++ [dq]; [dq] ++ js " />";
    js "<strong>[Image: "; js "]</strong> <em>(local file: "; js ")</em>";
    js "<iframe width=" ++ [dq] ++ js "560" ++ [dq] ++ js " height=" ++ [dq]
       ++ js "315" ++ [dq] ++ js " src=" ++ [dq] ++ js "https://www.youtube.com/embed/";
    [dq] ++ js " frameborder=" ++ [dq] ++ js "0" ++ [dq] ++ js " allowfullscreen></iframe>";
    js "<iframe src=" ++ [dq] ++ js "https://player.vimeo.com/video/";
    [dq] ++ js " width=" ++ [dq] ++ js "560" ++ [dq] ++ js " height=" ++ [dq] ++ js "315"
       ++ [dq] ++ js " frameborder=" ++ [dq] ++ js "0" ++ [dq]
       ++ js " allowfullscreen></iframe>";
    [dq] ++ js ">" ++ play_sign ++ js " Video</a>";
    js "</strong> <em>(" ++ arrow ++ js " ";
    js "<pre><code>"; js "<pre><code class=" ++ [dq] ++ js "language-";
    js "</code></pre>";
    js "<input type=" ++ [dq] ++ js "checkbox" ++ [dq]; js " checked";
    js " disabled /> "; emoji_doing; emoji_later; emoji_now;
    js "<div class=" ++ [dq] ++ js "properties" ++ [dq]
       ++ js "><strong>Properties:</strong><ul>";
    js "<li><strong>"; js "</strong>: "; js "</li>"; js "</ul></div>" ].

Definition is_markup (s : jsstring) : bool := existsb (str_eqb s) html_markup.

(** The texts a token carries: its value, the strings of its metadata and the
    two defaults of the generators. *)
Definition text_of (t : Token) (txt : jsstring) : Prop :=
  txt = [] \/ txt = js "no description" \/ txt = value t
  \/ meta language t = Some txt \/ meta linkTarget t = Some txt
  \/ meta linkText t = Some txt \/ meta altText t = Some txt
  \/ meta videoId t = Some txt.

(** The texts of a property list: its keys and its rendered values. *)
Definition text_of_properties (ps : Properties) (txt : jsstring) : Prop :=
  exists kv, In kv ps /\ (txt = fst kv \/ txt = toString (snd kv)).

Definition piece_ok (is_text : jsstring -> Prop) (p : piece) : Prop :=
  match p with
  | Markup s => is_markup s = true
  | Escaped txt => is_text txt
  end.

(** The pieces of each kind of token, as the specification lists them. *)
Definition html_pieces (t : Token) : list piece :=
  let wrapped opening closing := [Markup opening; Escaped (value t); Markup closing] in
  let url := str_or (meta linkTarget t) (value t) in
  let target := str_or (meta linkTarget t) [] in
  let alt := str_or (meta altText t) [] in
  let lang := str_or (meta language t) [] in
  match type t with
  | text => [Escaped (value t)]
  | blockRef | tag | bold => wrapped (js "<strong>") (js "</strong>")
  | highlight => wrapped (js "<mark>") (js "</mark>")
  | query => wrapped (js "<em>Query: ") (js "</em>")
  | blockquote => wrapped (js "<blockquote>") (js "</blockquote>")
  | nakedUrl =>
      [Markup (js "<a href=" ++ [dq]); Escaped (value t); Markup ([dq] ++ js ">");
       Escaped (value t); Markup (js "</a>")]
  | markdownLink =>
      if isExternal t then
        [Markup (js "<a href=" ++ [dq]); Escaped target; Markup ([dq] ++ js ">");
         Escaped (str_or (meta linkText t) (value t)); Markup (js "</a>")]
      else
        [Markup (js "<strong>"); Escaped (str_or (meta linkText t) (value t));
         Markup (js "</strong> <em>(" ++ arrow ++ js " "); Escaped target;
         Markup (js ")</em>")]
  | image =>
      if isExternal t then
        [Markup (js "<img src=" ++ [dq]); Escaped target;
         Markup ([dq] ++ js " alt=" ++ [dq]); Escaped alt; Markup ([dq] ++ js " />")]
      else
        [Markup (js "<strong>[Image: ");
         Escaped (str_or (Some alt) (js "no description"));
         Markup (js "]</strong> <em>(local file: "); Escaped target; Markup (js ")</em>")]
  | videoEmbed =>
      match video_of youtube t with
      | Some id =>
          [Markup (js "<iframe width=" ++ [dq] ++ js "560" ++ [dq] ++ js " height=" ++ [dq]
                      ++ js "315" ++ [dq] ++ js " src=" ++ [dq]
                      ++ js "https://www.youtube.com/embed/");
           Escaped id;
           Markup ([dq] ++ js " frameborder=" ++ [dq] ++ js "0" ++ [dq]
                      ++ js " allowfullscreen></iframe>")]
      | None =>
          match video_of vimeo t with
          | Some id =>
              [Markup (js "<iframe src=" ++ [dq] ++ js "https://player.vimeo.com/video/");
               Escaped id;
               Markup ([dq] ++ js " width=" ++ [dq] ++ js "560" ++ [dq] ++ js " height="
                          ++ [dq] ++ js "315" ++ [dq] ++ js " frameborder=" ++ [dq]
                          ++ js "0" ++ [dq] ++ js " allowfullscreen></iframe>")]
          | None =>
              [Markup (js "<a href=" ++ [dq]); Escaped url;
               Markup ([dq] ++ js ">" ++ play_sign ++ js " Video</a>")]
          end
      end
  | codeBlock =>
      (if nonempty lang
       then [Markup (js "<pre><code class=" ++ [dq] ++ js "language-"); Escaped lang;
             Markup ([dq] ++ js ">")]
       else [Markup (js "<pre><code>")])
      ++ [Escaped (value t); Markup (js "</code></pre>")]
  | taskMarker =>
      [Markup (js "<input type=" ++ [dq] ++ js "checkbox" ++ [dq])]
      ++ match meta taskType t with Some DONE => [Markup (js " checked")] | _ => [] end
      ++ [Markup (js " disabled /> ")]
      ++ match meta taskType t with
         | Some DOING => [Markup emoji_doing]
         | Some LATER => [Markup emoji_later]
         | Some NOW => [Markup emoji_now]
         | _ => []
         end
  end.

(** The pieces of a rendered properties section. *)
Definition property_pieces (ps : Properties) : list piece :=
  [Markup (js "<div class=" ++ [dq] ++ js "properties" ++ [dq]
             ++ js "><strong>Properties:</strong><ul>")]
  ++ flat_map (fun kv =>
       if is_set (snd kv)
       then [Markup (js "<li><strong>"); Escaped (fst kv); Markup (js "</strong>: ");
             Escaped (toString (snd kv)); Markup (js "</li>")]
       else []) ps
  ++ [Markup (js "</ul></div>")].

(** ** The forms of a blockquote text *)

Definition spaces (s : jsstring) : Prop := forallb is_space s = true.
Definition dots (s : jsstring) : Prop := forallb is_dot s = true.

(** What follows the quote in both patterns: optional white space, a dash,
    optional white space and the author up to the end of the text. *)
Definition dash_author (s a : jsstring) : Prop :=
  exists ws1 ws2,
    s = ws1 ++ js "-" ++ ws2 ++ a /\ spaces ws1 /\ spaces ws2 /\ a <> [] /\ dots a.

(** The text has the form quote mark, quote, quote mark, dash, author. *)
Definition quoted_with_author (Q q a : jsstring) : Prop :=
  exists s, Q = [dq] ++ q ++ [dq] ++ s /\ q <> [] /\ dots q /\ dash_author s a.

(** The text has the form left part, dash, right part. *)
Definition dashed (Q l r : jsstring) : Prop :=
  exists s, Q = l ++ s /\ l <> [] /\ dots l /\ dash_author s r.

(** [\s*-\s*(.+)$], the common tail of the two patterns. *)
Definition re_dashAuthor : regex :=
  RSeq (RRep true 0 is_space)
    (RSeq (RLit (js "-"))
       (RSeq (RRep true 0 is_space)
          (RSeq (RGroup 2 (RRep true 1 is_dot)) REnd))).

(** The quote of the blockquote tests. *)
Definition quote_token : Token :=
  mkToken blockquote ([dq] ++ js "Quote." ++ [dq] ++ js " - Author") None 19.

(** ** Trees and their depth *)

(** The number of levels below a block. *)
Fixpoint height (b : LogseqBlock) : Z :=
  match b with
  | mkBlock _ _ _ ch => fold_right (fun child acc => Z.max (1 + height child) acc) 0 ch
  end.

(** The options with [maxDepth] left out. *)
Definition without_maxDepth (o : ExportOptions) : ExportOptions :=
  mkOptions (format o) (includeChildren o) (includeProperties o) None.

(** The tree with every [properties] field left out. *)
Fixpoint without_properties (b : LogseqBlock) : LogseqBlock :=
  match b with
  | mkBlock u c _ ch => mkBlock u c None (List.map without_properties ch)
  end.

(** Two option records that treat alike every depth a tree reaches. *)
Definition same_walk_within (o o' : ExportOptions) (lo hi : Z) : Prop :=
  includeChildren o = includeChildren o'
  /\ includeProperties o = includeProperties o'
  /\ forall depth, lo <= depth <= hi -> beyond_maxDepth o depth = beyond_maxDepth o' depth.

(** ** List markers *)

(** The offset that the AsciiDoc converter works with at [depth]: the stored
    one, or [depth - 1] when none is stored. *)
Definition offset_at (st : AsciiDocConverter.State) (depth : Z) : Z :=
  match st with
  | Some o => o
  | None => depth - 1
  end.

(** The stored offset of a walk that runs [k] levels deeper. *)
Definition deeper (k : Z) (st : AsciiDocConverter.State) : AsciiDocConverter.State :=
  match st with
  | Some o => Some (o + k)
  | None => None
  end.

(** The list marker of an AsciiDoc item. *)
Definition stars (n : Z) : jsstring := repeat (js "*") n.

(** ** Lines of a nested Markdown block *)

(** A text without a line feed. *)
Definition single_line (s : jsstring) : bool := forallb (fun x => negb (N.eqb x nl)) s.

(** [out] is [line] behind the indentation, with or without a bullet or two
    more spaces in front, with or without a backslash at its end. *)
Definition indented (indent out line : jsstring) : Prop :=
  exists pre suf,
    (pre = [] \/ pre = js "- " \/ pre = js "  ")
    /\ (suf = [] \/ suf = [bslash])
    /\ out = indent ++ pre ++ line ++ suf.

(** ** Tokens between delimiters *)

(** The kinds of token that are written between two fixed delimiters (a tag
    has no closing one), what the delimiters are and which characters the
    text between them is made of. *)
Definition delimited (ty : TokenType) : bool :=
  match ty with
  | blockRef | highlight | bold | tag => true
  | _ => false
  end.

Definition opening (ty : TokenType) : jsstring :=
  match ty with
  | blockRef => js "[["
  | highlight => js "=="
  | bold => js "**"
  | tag => js "#"
  | _ => []
  end.

Definition closing (ty : TokenType) : jsstring :=
  match ty with
  | blockRef => js "]]"
  | highlight => js "=="
  | bold => js "**"
  | _ => []
  end.

Definition allowed (ty : TokenType) (c : char) : bool :=
  match ty with
  | blockRef => is_not (chr "]") c
  | highlight => is_not (chr "=") c
  | bold => is_not (chr "*") c
  | tag => is_word c || N.eqb c (chr "-")
  | _ => true
  end.

(** ** Lines and runs of characters *)

(** [s] does not go on with a character of the class [p]. *)
Definition stops (p : char -> bool) (s : jsstring) : Prop :=
  match s with
  | x :: _ => p x = false
  | [] => True
  end.

(** The author of a blockquote begins where the white space after the dash
    ends: it does not begin with white space, unless white space is all
    there is after the dash, and then the author is its last character. *)
Definition tight (a : jsstring) : Prop := stops is_space a \/ List.length a = 1%nat.

(** ** Task keywords *)

Definition keyword (k : TaskType) : jsstring :=
  match k with
  | TODO => js "TODO"
  | DONE => js "DONE"
  | DOING => js "DOING"
  | LATER => js "LATER"
  | NOW => js "NOW"
  end.

(** ** Video tokens *)

Definition youtube_url (id : jsstring) : jsstring :=
  js "https://www.youtube.com/watch?v=" ++ id.

(** The token of a YouTube video with the given id. *)
Definition youtube_token (id : jsstring) (length : Z) : Token :=
  mkToken videoEmbed (youtube_url id)
    (Some (mkMeta None None (Some (youtube_url id)) None None (Some youtube) (Some id) None))
    length.

(** ** Sums *)

Definition sum (l : list Z) : Z := fold_right Z.add 0 l.

(** ** Test summaries *)

(** What the tests of [logseq-parser.test.ts] look at: type, value, length. *)
Definition summary (t : Token) : TokenType * jsstring * Z := (type t, value t, length t).

(* ================================================================== *)
(** * Properties *)
(* ================================================================== *)

(** ** Strings *)

Lemma len_nonneg (s : jsstring) : 0 <= len s.
Proof. unfold len. lia. Qed.

Lemma len_app (a b : jsstring) : len (a ++ b) = len a + len b.
Proof. unfold len. rewrite List.length_app. lia. Qed.

Lemma len_cons (x : char) (s : jsstring) : len (x :: s) = 1 + len s.
Proof. unfold len. simpl List.length. lia. Qed.

Lemma strip_prefix_app (p s s' : jsstring) :
  strip_prefix p s = Some s' -> s = p ++ s'.
Proof.
  revert s. induction p as [|x p IH]; intros s H; simpl in H.
  - now inversion H.
  - destruct s as [|y s]; [discriminate|].
    destruct (N.eqb x y) eqn:E; [|discriminate].
    apply N.eqb_eq in E. subst y. simpl. f_equal. now apply IH.
Qed.

Lemma strip_prefix_complete (p s' : jsstring) :
  strip_prefix p (p ++ s') = Some s'.
Proof.
  induction p as [|x p IH]; simpl; [reflexivity|].
  now rewrite N.eqb_refl.
Qed.

Lemma firstn_prefix {A : Type} (pre rest : list A) :
  firstn (List.length (pre ++ rest) - List.length rest) (pre ++ rest) = pre.
Proof.
  rewrite List.length_app.
  replace (List.length pre + List.length rest - List.length rest)%nat
    with (List.length pre + 0)%nat by lia.
  rewrite firstn_app_2. simpl. now rewrite app_nil_r.
Qed.

(** ** The matcher consumes a prefix of its input *)

Section MatcherFacts.
Context {R : Type}.

Lemma rep_greedy_inv (p : char -> bool) (k : jsstring -> option R) :
  forall s n r,
    rep_greedy p k n s = Some r ->
    exists pre s', s = pre ++ s' /\ (n <= List.length pre)%nat
                   /\ forallb p pre = true /\ k s' = Some r.
Proof.
  induction s as [|x s IH]; intros n r H; simpl in H.
  - destruct n; [|discriminate]. exists [], []. auto.
  - assert (Hstop : match n with O => k (x :: s) | S _ => None end = Some r ->
                    exists pre s', x :: s = pre ++ s' /\ (n <= List.length pre)%nat
                                   /\ forallb p pre = true /\ k s' = Some r).
    { destruct n; [|discriminate]. intros Hk. exists [], (x :: s). auto. }
    destruct (p x) eqn:Px; [|auto].
    destruct (rep_greedy p k (Nat.pred n) s) as [r'|] eqn:Hrec; [|auto].
    inversion H; subst r'.
    destruct (IH _ _ Hrec) as (pre & s' & -> & Hn & Hall & Hk).
    exists (x :: pre), s'. simpl. rewrite Px, Hall. repeat split; auto. lia.
Qed.

Lemma rep_lazy_inv (p : char -> bool) (k : jsstring -> option R) :
  forall s n r,
    rep_lazy p k n s = Some r ->
    exists pre s', s = pre ++ s' /\ (n <= List.length pre)%nat
                   /\ forallb p pre = true /\ k s' = Some r.
Proof.
  induction s as [|x s IH]; intros n r H.
  - destruct n; simpl in H; [|discriminate].
    destruct (k []) eqn:Hk; [|discriminate].
    exists [], []. inversion H; subst. auto.
  - assert (Hmore : (if p x then rep_lazy p k (Nat.pred n) s else None) = Some r ->
                    exists pre s', x :: s = pre ++ s' /\ (n <= List.length pre)%nat
                                   /\ forallb p pre = true /\ k s' = Some r).
    { destruct (p x) eqn:Px; [|discriminate]. intros Hrec.
      destruct (IH _ _ Hrec) as (pre & s' & -> & Hn & Hall & Hk).
      exists (x :: pre), s'. simpl. rewrite Px, Hall. repeat split; auto. lia. }
    destruct n; simpl in H.
    + destruct (k (x :: s)) eqn:Hk.
      * inversion H; subst. exists [], (x :: s). auto.
      * apply Hmore. exact H.
    + apply Hmore. exact H.
Qed.

Lemma rmatch_inv :
  forall (r : regex) (k : jsstring -> caps -> option R) s c res,
    rmatch r k s c = Some res ->
    exists pre s' c', s = pre ++ s' /\ k s' c' = Some res
                      /\ (nonnull r = true -> pre <> []).
Proof.
  induction r as [l|p|a IHa b IHb|a IHa b IHb|a IHa|g n p|i a IHa|];
    intros k s c res H; simpl in H.
  - destruct (strip_prefix l s) as [s'|] eqn:E; [|discriminate].
    apply strip_prefix_app in E. exists l, s', c. repeat split; auto.
    simpl. destruct l; [discriminate|]. discriminate.
  - destruct s as [|x s]; [discriminate|]. destruct (p x); [|discriminate].
    exists [x], s, c. repeat split; auto. discriminate.
  - destruct (IHa _ _ _ _ H) as (pre1 & s1 & c1 & -> & Hb & Hn1).
    destruct (IHb _ _ _ _ Hb) as (pre2 & s2 & c2 & -> & Hk & Hn2).
    exists (pre1 ++ pre2), s2, c2. rewrite app_assoc. repeat split; auto.
    simpl. intros Hnn Hnil. apply app_eq_nil in Hnil as [-> ->].
    apply orb_true_iff in Hnn as [Hnn|Hnn]; [now apply Hn1|now apply Hn2].
  - destruct (rmatch a k s c) as [r'|] eqn:Ha.
    + inversion H; subst r'.
      destruct (IHa _ _ _ _ Ha) as (pre & s' & c' & -> & Hk & Hn).
      exists pre, s', c'. repeat split; auto.
      simpl. intros Hnn. apply andb_true_iff in Hnn as [Hnn _]. auto.
    + destruct (IHb _ _ _ _ H) as (pre & s' & c' & -> & Hk & Hn).
      exists pre, s', c'. repeat split; auto.
      simpl. intros Hnn. apply andb_true_iff in Hnn as [_ Hnn]. auto.
  - destruct (rmatch a k s c) as [r'|] eqn:Ha.
    + inversion H; subst r'.
      destruct (IHa _ _ _ _ Ha) as (pre & s' & c' & -> & Hk & _).
      exists pre, s', c'. repeat split; auto. discriminate.
    + exists [], s, c. repeat split; auto. discriminate.
  - assert (exists pre s', s = pre ++ s' /\ (n <= List.length pre)%nat
                           /\ forallb p pre = true /\ k s' c = Some res)
      as (pre & s' & -> & Hn & _ & Hk).
    { destruct g; [eapply rep_greedy_inv | eapply rep_lazy_inv]; exact H. }
    exists pre, s', c. repeat split; auto.
    simpl. intros Hnn ->. simpl in Hn. destruct n; [discriminate|lia].
  - destruct (IHa _ _ _ _ H) as (pre & s' & c' & -> & Hk & Hn).
    eexists pre, s', _. repeat split; eauto.
  - destruct s; [|discriminate]. exists [], [], c. repeat split; auto. discriminate.
Qed.

End MatcherFacts.

(** ** Repetitions: what the matcher finds, and that it finds it *)

Section RepetitionFacts.
Context {R : Type}.
Variable p : char -> bool.
Variable k : jsstring -> option R.

Lemma rep_greedy_complete :
  forall pre s' n,
    forallb p pre = true -> (n <= List.length pre)%nat -> k s' <> None ->
    rep_greedy p k n (pre ++ s') <> None.
Proof.
  induction pre as [|x pre IH]; intros s' n Hall Hn Hk.
  - assert (n = 0%nat) by (simpl in Hn; lia). subst n. simpl.
    destruct s' as [|y s']; simpl; [exact Hk|].
    destruct (p y); [|exact Hk].
    destruct (rep_greedy p k 0 s'); [discriminate|exact Hk].
  - simpl in Hall. apply andb_true_iff in Hall as [Px Hall].
    cbn [app rep_greedy]. rewrite Px.
    assert (Hrec : rep_greedy p k (Nat.pred n) (pre ++ s') <> None).
    { apply IH; auto. simpl in Hn. lia. }
    destruct (rep_greedy p k (Nat.pred n) (pre ++ s')); [discriminate|contradiction].
Qed.

Lemma rep_lazy_complete :
  forall pre s' n,
    forallb p pre = true -> (n <= List.length pre)%nat -> k s' <> None ->
    rep_lazy p k n (pre ++ s') <> None.
Proof.
  induction pre as [|x pre IH]; intros s' n Hall Hn Hk.
  - assert (n = 0%nat) by (simpl in Hn; lia). subst n.
    destruct s' as [|y s']; simpl; destruct (k _); congruence.
  - simpl in Hall. apply andb_true_iff in Hall as [Px Hall].
    assert (Hrec : rep_lazy p k (Nat.pred n) (pre ++ s') <> None).
    { apply IH; auto. simpl in Hn. lia. }
    destruct n; cbn [app rep_lazy]; rewrite Px.
    + destruct (k (x :: pre ++ s')); [discriminate|exact Hrec].
    + exact Hrec.
Qed.

(** A lazy repetition stops at the first length that lets the rest match. *)
Lemma rep_lazy_first :
  forall s n r,
    rep_lazy p k n s = Some r ->
    exists pre s',
      s = pre ++ s' /\ (n <= List.length pre)%nat /\ forallb p pre = true
      /\ k s' = Some r
      /\ (forall pre' s'',
             s = pre' ++ s'' -> (n <= List.length pre')%nat ->
             (List.length pre' < List.length pre)%nat -> k s'' = None).
Proof.
  induction s as [|x s IH]; intros n r H.
  - destruct n; simpl in H; [|discriminate].
    destruct (k []) eqn:Hk; [|discriminate]. inversion H; subst.
    exists [], []. repeat split; auto. intros pre' s'' _ _ Hlt. simpl in Hlt. lia.
  - assert (Hmore : (if p x then rep_lazy p k (Nat.pred n) s else None) = Some r ->
                    k (x :: s) = None \/ (0 < n)%nat ->
                    exists pre s',
                      x :: s = pre ++ s' /\ (n <= List.length pre)%nat
                      /\ forallb p pre = true /\ k s' = Some r
                      /\ (forall pre' s'',
                             x :: s = pre' ++ s'' -> (n <= List.length pre')%nat ->
                             (List.length pre' < List.length pre)%nat -> k s'' = None)).
    { destruct (p x) eqn:Px; [|discriminate]. intros Hrec Hhere.
      destruct (IH _ _ Hrec) as (pre & s' & -> & Hn & Hall & Hk & Hfirst).
      exists (x :: pre), s'. simpl. rewrite Px, Hall. repeat split; auto; [lia|].
      intros pre' s'' Heq Hn' Hlt. destruct pre' as [|y pre'].
      - simpl in Heq. subst s''. destruct Hhere as [Hnone|Hpos]; [exact Hnone|].
        simpl in Hn'. lia.
      - simpl in Heq. inversion Heq; subst y. apply (Hfirst pre' s''); auto.
        + simpl in Hn'. lia.
        + simpl in Hlt. lia. }
    destruct n; simpl in H.
    + destruct (k (x :: s)) eqn:Hk.
      * inversion H; subst. exists [], (x :: s). repeat split; auto.
        intros pre' s'' _ _ Hlt. simpl in Hlt. lia.
      * apply Hmore; auto.
    + apply Hmore; auto. right. lia.
Qed.

End RepetitionFacts.

(** ** The matcher against a declarative reading of the patterns *)

Lemma rmatch_sound {R : Type} :
  forall (r : regex) (k : jsstring -> caps -> option R) s c res,
    rmatch r k s c = Some res ->
    exists pre rest c', s = pre ++ rest /\ matches r pre rest /\ k rest c' = Some res.
Proof.
  induction r as [l|p|a IHa b IHb|a IHa b IHb|a IHa|g n p|i a IHa|];
    intros k s c res H; simpl in H.
  - destruct (strip_prefix l s) as [s'|] eqn:E; [|discriminate].
    apply strip_prefix_app in E. exists l, s', c. repeat split; auto. constructor.
  - destruct s as [|x s]; [discriminate|]. destruct (p x) eqn:Px; [|discriminate].
    exists [x], s, c. repeat split; auto. now constructor.
  - destruct (IHa _ _ _ _ H) as (pre1 & s1 & c1 & -> & Ha & Hb).
    destruct (IHb _ _ _ _ Hb) as (pre2 & s2 & c2 & -> & Hb' & Hk).
    exists (pre1 ++ pre2), s2, c2. rewrite app_assoc. repeat split; auto.
    now constructor.
  - destruct (rmatch a k s c) as [r'|] eqn:Ha.
    + inversion H; subst r'.
      destruct (IHa _ _ _ _ Ha) as (pre & s' & c' & -> & Hm & Hk).
      exists pre, s', c'. repeat split; auto. now apply m_alt_l.
    + destruct (IHb _ _ _ _ H) as (pre & s' & c' & -> & Hm & Hk).
      exists pre, s', c'. repeat split; auto. now apply m_alt_r.
  - destruct (rmatch a k s c) as [r'|] eqn:Ha.
    + inversion H; subst r'.
      destruct (IHa _ _ _ _ Ha) as (pre & s' & c' & -> & Hm & Hk).
      exists pre, s', c'. repeat split; auto. now apply m_opt_some.
    + exists [], s, c. repeat split; auto. apply m_opt_none.
  - assert (exists pre s', s = pre ++ s' /\ (n <= List.length pre)%nat
                           /\ forallb p pre = true /\ k s' c = Some res)
      as (pre & s' & -> & Hn & Hall & Hk).
    { destruct g; [eapply rep_greedy_inv | eapply rep_lazy_inv]; exact H. }
    exists pre, s', c. repeat split; auto. now constructor.
  - destruct (IHa _ _ _ _ H) as (pre & s' & c' & -> & Hm & Hk).
    eexists pre, s', _. repeat split; eauto. now constructor.
  - destruct s; [|discriminate]. exists [], [], c. repeat split; auto. constructor.
Qed.

Lemma rmatch_complete {R : Type} (r : regex) (pre rest : jsstring) :
  matches r pre rest ->
  forall (k : jsstring -> caps -> option R) c,
    (forall c', k rest c' <> None) ->
    rmatch r k (pre ++ rest) c <> None.
Proof.
  induction 1 as [l rest|p x rest Px|a b p1 p2 rest _ IHa _ IHb|a b pre rest _ IH
                  |a b pre rest _ IH|a pre rest _ IH|a rest|g n p pre rest Hall Hn
                  |i a pre rest _ IH|];
    intros k c Hk; cbn [rmatch].
  - rewrite strip_prefix_complete. apply Hk.
  - cbn [app]. rewrite Px. apply Hk.
  - rewrite <- app_assoc. apply IHa. intros c'. now apply IHb.
  - specialize (IH k c Hk). destruct (rmatch a k (pre ++ rest) c); congruence.
  - specialize (IH k c Hk). destruct (rmatch a k (pre ++ rest) c); [discriminate|exact IH].
  - specialize (IH k c Hk). destruct (rmatch a k (pre ++ rest) c); congruence.
  - cbn [app]. destruct (rmatch a k rest c); [discriminate|apply Hk].
  - destruct g; [apply rep_greedy_complete|apply rep_lazy_complete]; auto.
  - apply IH. intros c'. apply Hk.
  - apply Hk.
Qed.

(** [s.match(/^r/)] succeeds exactly when some prefix of [s] matches [r]. *)
Lemma re_match_iff (r : regex) (s : jsstring) :
  re_match r s <> None <-> exists pre rest, s = pre ++ rest /\ matches r pre rest.
Proof.
  unfold re_match. split.
  - destruct (rmatch r (fun s' c' => Some (s', c')) s no_caps) as [[rest c]|] eqn:E;
      [|congruence].
    intros _. destruct (rmatch_sound _ _ _ _ _ E) as (pre & rest' & c' & -> & Hm & _).
    eauto.
  - intros (pre & rest & -> & Hm).
    pose proof (rmatch_complete r pre rest Hm (fun s' c' => Some (s', c')) no_caps) as H.
    destruct (rmatch r _ (pre ++ rest) no_caps) as [[? ?]|]; [discriminate|].
    exfalso. apply H; [|reflexivity]. discriminate.
Qed.

(** [match[0]] is a prefix of the subject, and is not empty when the pattern
    cannot match the empty string. *)
Lemma re_match_prefix (r : regex) (s : jsstring) (m : MatchResult) :
  re_match r s = Some m ->
  exists rest, s = m0 m ++ rest /\ (nonnull r = true -> m0 m <> []).
Proof.
  unfold re_match. intros H.
  destruct (rmatch r (fun s' c' => Some (s', c')) s no_caps) as [[rest c]|] eqn:E;
    [|discriminate].
  destruct (rmatch_inv _ _ _ _ _ E) as (pre & s' & c' & -> & Hk & Hn).
  inversion Hk; subst s' c'. inversion H; subst m. simpl.
  rewrite firstn_prefix. eauto.
Qed.

Lemma re_match_len (r : regex) (s : jsstring) (m : MatchResult) :
  nonnull r = true ->
  re_match r s = Some m ->
  1 <= len (m0 m) <= len s.
Proof.
  intros Hnn H. destruct (re_match_prefix _ _ _ H) as (rest & Hs & Hne).
  specialize (Hne Hnn).
  assert (Hl : len s = len (m0 m) + len rest) by (rewrite Hs at 1; apply len_app).
  pose proof (len_nonneg rest). destruct (m0 m) as [|x pre]; [congruence|].
  rewrite len_cons in *. pose proof (len_nonneg pre). lia.
Qed.

(** [s.search(r)] is -1 or the index of a character of [s]. *)
Lemma re_search_from_range (r : regex) :
  nonnull r = true ->
  forall s i, re_search_from r s i = -1
              \/ i <= re_search_from r s i < i + len s.
Proof.
  intros Hnn. induction s as [|x s IH]; intros i; simpl.
  - destruct (re_match r []) as [m|] eqn:E; [|auto].
    apply re_match_len in E; auto. unfold len in E. simpl in E. lia.
  - destruct (re_match r (x :: s)) as [m|] eqn:E.
    + right. rewrite len_cons. pose proof (len_nonneg s). lia.
    + destruct (IH (i + 1)) as [H|H]; [auto|].
      right. rewrite len_cons. lia.
Qed.

Lemma re_search_range (r : regex) (s : jsstring) :
  nonnull r = true ->
  re_search r s = -1 \/ 0 <= re_search r s < len s.
Proof. intros H. apply (re_search_from_range r H s 0). Qed.

Lemma re_search_from_lower (r : regex) :
  forall s i, re_search_from r s i = -1 \/ i <= re_search_from r s i.
Proof.
  induction s as [|x s IH]; intros i; simpl.
  - destruct (re_match r []); auto. right. lia.
  - destruct (re_match r (x :: s)); [right; lia|].
    destruct (IH (i + 1)); auto. right. lia.
Qed.

(** The index that [search] returns is one at which the pattern matches. *)
Lemma re_search_from_found (r : regex) :
  forall s i,
    re_search_from r s i <> -1 ->
    exists m, re_match r (substring_from s (re_search_from r s i - i)) = Some m.
Proof.
  induction s as [|x s IH]; intros i Hf; simpl in *.
  - destruct (re_match r []) as [m|] eqn:E; [|contradiction].
    exists m. rewrite Z.sub_diag. exact E.
  - destruct (re_match r (x :: s)) as [m|] eqn:E.
    + exists m. rewrite Z.sub_diag. exact E.
    + destruct (IH (i + 1) Hf) as (m & Hm). exists m.
      destruct (re_search_from_lower r s (i + 1)) as [H|H]; [contradiction|].
      unfold substring_from in *.
      replace (Z.to_nat (re_search_from r s (i + 1) - i))
        with (S (Z.to_nat (re_search_from r s (i + 1) - (i + 1)))) by lia.
      exact Hm.
Qed.

(** ** The tokenizer *)

Lemma rep_greedy_total {R : Type} (p : char -> bool) (k : jsstring -> option R) :
  (forall s, k s <> None) -> forall s, rep_greedy p k 0 s <> None.
Proof.
  intros Hk. induction s as [|x s IH]; simpl; [apply Hk|].
  destruct (p x); [|apply Hk].
  destruct (rep_greedy p k 0 s); [discriminate|contradiction].
Qed.

Lemma len_substring_from (content : jsstring) (pos : Z) :
  0 <= pos <= len content ->
  len (substring_from content pos) = len content - pos.
Proof.
  intros H. unfold substring_from, len in *. rewrite List.length_skipn. lia.
Qed.

Module ParserFacts.
Import LogseqParser.

(** Each pattern of the cascade starts with a literal character. *)
Lemma patterns_nonnull :
  Forall (fun r => nonnull r = true)
    [re_codeBlock; re_video; re_youtube; re_vimeo; re_query; re_taskMarker;
     re_blockquote; re_image; re_markdownLink; re_blockRef; re_nakedUrl;
     re_highlight; re_bold; re_tag; re_specialChars; re_scheme;
     re_newlineBlockquote].
Proof. repeat constructor. Qed.

Ltac nonnull_of r :=
  let H := fresh "Hnn" in
  assert (H : nonnull r = true) by reflexivity.

(** The common shape of a matcher: a token whose [length] is that of
    [match[0]]. *)
Ltac matcher_bounds r :=
  let m := fresh "m" in
  let E := fresh "E" in
  let Hb := fresh "Hb" in
  match goal with
  | H : context [re_match r ?s] |- _ =>
      destruct (re_match r s) as [m|] eqn:E; [|try discriminate];
      [ pose proof (re_match_len r s m eq_refl E) as Hb;
        try (inversion H; subst; unfold in_bounds; simpl;
             rewrite len_substring_from in Hb by lia; lia) | .. ]
  end.

Section Bounds.
Variable content : jsstring.
Variable pos : Z.
Hypothesis Hpos : 0 <= pos <= len content.

Lemma tryMatchCodeBlock_bounds t :
  tryMatchCodeBlock content pos = Some t -> in_bounds content pos t.
Proof. unfold tryMatchCodeBlock. intros H. matcher_bounds re_codeBlock. Qed.

Lemma tryMatchVideoEmbed_bounds t :
  tryMatchVideoEmbed (substring_from content pos) = Some t -> in_bounds content pos t.
Proof.
  unfold tryMatchVideoEmbed. intros H.
  matcher_bounds re_video. matcher_bounds re_youtube. matcher_bounds re_vimeo.
Qed.

Lemma tryMatchQuery_bounds t :
  tryMatchQuery content pos = Some t -> in_bounds content pos t.
Proof.
  unfold tryMatchQuery. intros H.
  destruct (tryMatchVideoEmbed (substring_from content pos)) as [v|] eqn:Ev.
  - inversion H; subst. now apply tryMatchVideoEmbed_bounds.
  - matcher_bounds re_query.
Qed.

Lemma tryMatchTaskMarker_bounds t :
  tryMatchTaskMarker content pos = Some t -> in_bounds content pos t.
Proof.
  unfold tryMatchTaskMarker. intros H.
  destruct (not_at_line_start content pos); [discriminate|].
  matcher_bounds re_taskMarker.
Qed.

Lemma tryMatchBlockquote_bounds t :
  tryMatchBlockquote content pos = Some t -> in_bounds content pos t.
Proof.
  unfold tryMatchBlockquote. intros H.
  destruct (not_at_line_start content pos); [discriminate|].
  matcher_bounds re_blockquote.
Qed.

Lemma tryMatchImage_bounds t :
  tryMatchImage content pos = Some t -> in_bounds content pos t.
Proof. unfold tryMatchImage. intros H. matcher_bounds re_image. Qed.

Lemma tryMatchMarkdownLink_bounds t :
  tryMatchMarkdownLink content pos = Some t -> in_bounds content pos t.
Proof. unfold tryMatchMarkdownLink. intros H. matcher_bounds re_markdownLink. Qed.

Lemma tryMatchBlockRef_bounds t :
  tryMatchBlockRef content pos = Some t -> in_bounds content pos t.
Proof. unfold tryMatchBlockRef. intros H. matcher_bounds re_blockRef. Qed.

Lemma tryMatchNakedUrl_bounds t :
  tryMatchNakedUrl content pos = Some t -> in_bounds content pos t.
Proof. unfold tryMatchNakedUrl. intros H. matcher_bounds re_nakedUrl. Qed.

Lemma tryMatchHighlight_bounds t :
  tryMatchHighlight content pos = Some t -> in_bounds content pos t.
Proof. unfold tryMatchHighlight. intros H. matcher_bounds re_highlight. Qed.

Lemma tryMatchBold_bounds t :
  tryMatchBold content pos = Some t -> in_bounds content pos t.
Proof. unfold tryMatchBold. intros H. matcher_bounds re_bold. Qed.

Lemma tryMatchTag_bounds t :
  tryMatchTag content pos = Some t -> in_bounds content pos t.
Proof. unfold tryMatchTag. intros H. matcher_bounds re_tag. Qed.

End Bounds.

(** The blockquote pattern matches every string that starts with [>]. *)
Lemma re_blockquote_complete (s : jsstring) :
  startsWith s (js ">") = true -> re_match re_blockquote s <> None.
Proof.
  unfold startsWith. destruct (strip_prefix (js ">") s) as [s'|] eqn:E; [|discriminate].
  intros _. unfold re_match, re_blockquote. cbn [rmatch]. rewrite E.
  match goal with
  | |- context [rep_greedy ?p ?k 0 s'] =>
      pose proof (rep_greedy_total p k (fun _ => ltac:(discriminate)) s') as Hs'
  end.
  match goal with
  | |- match match ?a with Some r => Some r | None => ?b end with _ => _ end <> None =>
      destruct a as [[? ?]|]; [discriminate|];
      destruct b as [[? ?]|]; [discriminate|contradiction]
  end.
Qed.

(** So when the blockquote matcher has failed, [matchText] is not looking at
    a [>] at the start of a line. *)
Lemma blockquoteAtStart_unreachable (content : jsstring) (pos : Z) :
  0 <= pos ->
  tryMatchBlockquote content pos = None ->
  ((pos =? 0) || negb (char_neq (charAt content (pos - 1)) nl))
  && startsWith (substring_from content pos) (js ">") = false.
Proof.
  intros Hpos. unfold tryMatchBlockquote, not_at_line_start.
  destruct (startsWith (substring_from content pos) (js ">")) eqn:Es;
    [|now rewrite andb_false_r].
  pose proof (re_blockquote_complete _ Es) as Hc.
  destruct (pos =? 0) eqn:E0.
  - apply Z.eqb_eq in E0. subst pos. simpl.
    destruct (re_match re_blockquote (substring_from content 0)); [discriminate|contradiction].
  - assert (Hlt : (0 <? pos) = true) by (apply Z.ltb_lt; apply Z.eqb_neq in E0; lia).
    rewrite Hlt. simpl. destruct (char_neq (charAt content (pos - 1)) nl); [reflexivity|].
    destruct (re_match re_blockquote (substring_from content pos)); [discriminate|contradiction].
Qed.

Lemma text_length_bounds (s : jsstring) (nextSpecial : Z) :
  1 <= len s ->
  nextSpecial = -1 \/ 0 <= nextSpecial < len s ->
  1 <= (if nextSpecial =? -1 then len s else Z.max 1 nextSpecial) <= len s.
Proof.
  intros Hs [->|H]; [simpl; lia|].
  destruct (nextSpecial =? -1); lia.
Qed.

Lemma pick_range (c : bool) (a b L : Z) :
  (c = true -> 0 <= a < L) ->
  b = -1 \/ 0 <= b < L ->
  (if c then a else b) = -1 \/ 0 <= (if c then a else b) < L.
Proof. destruct c; auto. Qed.

Lemma found_not_minus_one (a : Z) (c : bool) :
  negb (a =? -1) && c = true -> a <> -1.
Proof.
  intros H. apply andb_true_iff in H as [H _].
  apply negb_true_iff in H. now apply Z.eqb_neq in H.
Qed.

(** A newline followed by [>] found at index [i] leaves room for the [>]. *)
Lemma newlineBlockquote_room (s : jsstring) :
  re_search re_newlineBlockquote s <> -1 ->
  0 <= re_search re_newlineBlockquote s /\ re_search re_newlineBlockquote s + 2 <= len s.
Proof.
  intros Hf.
  destruct (re_search_from_found re_newlineBlockquote s 0 Hf) as (m & Hm).
  pose proof (re_search_range re_newlineBlockquote s eq_refl) as [H|H]; [contradiction|].
  fold (re_search re_newlineBlockquote s) in Hm. rewrite Z.sub_0_r in Hm.
  pose proof (re_match_len re_newlineBlockquote _ _ eq_refl Hm) as Hl.
  rewrite len_substring_from in Hl by lia.
  assert (m0 m = nl :: js ">") as Hm0.
  { unfold re_match, re_newlineBlockquote in Hm. cbn [rmatch] in Hm.
    destruct (strip_prefix (nl :: js ">") _) as [rest|] eqn:E; [|discriminate].
    apply strip_prefix_app in E. inversion Hm; subst m. cbn [m0].
    rewrite E. apply firstn_prefix. }
  rewrite Hm0 in Hl. change (len (nl :: js ">")) with 2 in Hl. lia.
Qed.

Lemma matchText_bounds (content : jsstring) (pos : Z) :
  0 <= pos < len content ->
  tryMatchBlockquote content pos = None ->
  in_bounds content pos (matchText content pos).
Proof.
  intros Hpos Hbq. unfold in_bounds.
  assert (Hrem : len (substring_from content pos) = len content - pos)
    by (apply len_substring_from; lia).
  rewrite <- Hrem.
  assert (Hone : 1 <= len (substring_from content pos)) by lia.
  pose proof (re_search_range re_specialChars (substring_from content pos) eq_refl) as Hsp.
  pose proof (re_search_range re_scheme (substring_from content pos) eq_refl) as Hurl.
  unfold matchText.
  rewrite (blockquoteAtStart_unreachable content pos) by (auto; lia).
  match goal with
  | |- context [if ?c then _ else _] => destruct c
  end; cbn [length]; apply text_length_bounds; try assumption.
  apply pick_range.
  - intros Hc. apply found_not_minus_one in Hc.
    apply newlineBlockquote_room in Hc. lia.
  - apply pick_range; [|assumption].
    intros Hc. apply found_not_minus_one in Hc. lia.
Qed.

(** Every step of the scan loop yields a token of length at least 1 that does
    not run past the end of the content. *)
Lemma nextToken_bounds (content : jsstring) (pos : Z) :
  0 <= pos < len content ->
  in_bounds content pos (nextToken content pos).
Proof.
  intros Hpos. assert (Hpos' : 0 <= pos <= len content) by lia.
  unfold nextToken, orElse.
  destruct (tryMatchCodeBlock content pos) eqn:E1;
    [now apply tryMatchCodeBlock_bounds|].
  destruct (tryMatchQuery content pos) eqn:E2;
    [now apply tryMatchQuery_bounds|].
  destruct (tryMatchTaskMarker content pos) eqn:E3;
    [now apply tryMatchTaskMarker_bounds|].
  destruct (tryMatchBlockquote content pos) eqn:E4;
    [now apply tryMatchBlockquote_bounds|].
  destruct (tryMatchImage content pos) eqn:E5;
    [now apply tryMatchImage_bounds|].
  destruct (tryMatchMarkdownLink content pos) eqn:E6;
    [now apply tryMatchMarkdownLink_bounds|].
  destruct (tryMatchBlockRef content pos) eqn:E7;
    [now apply tryMatchBlockRef_bounds|].
  destruct (tryMatchNakedUrl content pos) eqn:E8;
    [now apply tryMatchNakedUrl_bounds|].
  destruct (tryMatchHighlight content pos) eqn:E9;
    [now apply tryMatchHighlight_bounds|].
  destruct (tryMatchBold content pos) eqn:E10;
    [now apply tryMatchBold_bounds|].
  destruct (tryMatchTag content pos) eqn:E11;
    [now apply tryMatchTag_bounds|].
  now apply matchText_bounds.
Qed.

End ParserFacts.

(** ** Coverage of the content by the tokens *)

Lemma tiles_total_length (content : jsstring) (pos : Z) (ts : list Token) :
  tiles content pos ts -> total_length ts = len content - pos.
Proof.
  induction 1 as [|pos t ts _ _ _ _ _ IH]; simpl; lia.
Qed.

Lemma tiles_contiguous (content : jsstring) (pos : Z) (ts : list Token) :
  tiles content pos ts -> contiguous pos (len content) (spans pos ts).
Proof.
  induction 1 as [|pos t ts _ Hl _ _ _ IH]; simpl; [reflexivity|].
  repeat split; [lia|assumption].
Qed.

Lemma tiles_lengths (content : jsstring) (pos : Z) (ts : list Token) :
  tiles content pos ts -> Forall (fun t => 1 <= length t) ts.
Proof. induction 1; constructor; auto. Qed.

(** The scan loop, given at least as much fuel as there are characters left,
    ends and appends a tiling of the rest of the content. *)
Lemma parse_loop_tiles (content : jsstring) :
  forall fuel pos acc,
    0 <= pos <= len content ->
    len content - pos <= Z.of_nat fuel ->
    exists ts, LogseqParser.parse_loop fuel content pos acc = Some (acc ++ ts)
               /\ tiles content pos ts.
Proof.
  induction fuel as [|fuel IH]; intros pos acc Hpos Hfuel.
  - assert (pos = len content) by lia. subst pos.
    exists []. simpl. rewrite Z.ltb_irrefl, app_nil_r. split; [reflexivity|constructor].
  - simpl. destruct (pos <? len content) eqn:E.
    + apply Z.ltb_lt in E.
      pose proof (ParserFacts.nextToken_bounds content pos (conj (proj1 Hpos) E)) as Hb.
      unfold in_bounds in Hb.
      destruct (IH (pos + length (LogseqParser.nextToken content pos))
                  (acc ++ [LogseqParser.nextToken content pos])) as (ts & Hts & Ht);
        [lia|lia|].
      exists (LogseqParser.nextToken content pos :: ts). split.
      * rewrite Hts, <- app_assoc. reflexivity.
      * constructor; auto; lia.
    + apply Z.ltb_ge in E. assert (pos = len content) by lia. subst pos.
      exists []. rewrite app_nil_r. split; [reflexivity|constructor].
Qed.

Lemma parse_fuel_tiles (content : jsstring) (fuel : nat) :
  (List.length content <= fuel)%nat ->
  exists ts, LogseqParser.parse_fuel fuel content = Some ts /\ tiles content 0 ts.
Proof.
  intros Hf. unfold LogseqParser.parse_fuel.
  destruct (parse_loop_tiles content fuel 0 []) as (ts & H & Ht).
  - pose proof (len_nonneg content). lia.
  - unfold len. lia.
  - exists ts. auto.
Qed.

Lemma parse_tiles (content : jsstring) : tiles content 0 (LogseqParser.parse content).
Proof.
  unfold LogseqParser.parse.
  destruct (parse_fuel_tiles content (List.length content) (le_n _)) as (ts & -> & Ht).
  exact Ht.
Qed.

(** C3.  For every content string, the tokens of [parse] cover it exactly:
    each token is the one scanned at the position where the previous token
    ended, the spans follow one another from 0 to the length of the content
    without gap or overlap, and the [length] fields add up to the length of
    the content. *)
Theorem tokens_cover_content (content : jsstring) :
  tiles content 0 (LogseqParser.parse content)
  /\ contiguous 0 (len content) (spans 0 (LogseqParser.parse content))
  /\ total_length (LogseqParser.parse content) = len content.
Proof.
  pose proof (parse_tiles content) as Ht.
  split; [exact Ht|]. split.
  - now apply tiles_contiguous.
  - rewrite (tiles_total_length _ _ _ Ht). lia.
Qed.

(** C4.  [parse] is total: with one unit of fuel per character the scan loop
    ends with a token list, more fuel changes nothing, every token has length
    at least 1, and every step of the loop, at any position inside the
    content, advances by at least one character (so the zero-length token of
    [matchText] is never the one the loop gets). *)
Theorem parse_terminates (content : jsstring) :
  (exists ts, LogseqParser.parse_fuel (List.length content) content = Some ts
              /\ LogseqParser.parse content = ts
              /\ Forall (fun t => 1 <= length t) ts)
  /\ (forall fuel, (List.length content <= fuel)%nat ->
        LogseqParser.parse_fuel fuel content
        = LogseqParser.parse_fuel (List.length content) content)
  /\ (forall pos, 0 <= pos < len content ->
        1 <= length (LogseqParser.nextToken content pos)).
Proof.
  destruct (parse_fuel_tiles content (List.length content) (le_n _)) as (ts & Hts & Ht).
  split; [|split].
  - exists ts. split; [exact Hts|]. split.
    + unfold LogseqParser.parse. now rewrite Hts.
    + now apply tiles_lengths with (content := content) (pos := 0).
  - intros fuel Hf. rewrite Hts.
    destruct (parse_fuel_tiles content fuel Hf) as (ts' & Hts' & Ht').
    rewrite Hts'. f_equal.
    clear - Ht Ht'. revert ts' Ht'.
    induction Ht as [|pos t ts H0 H1 H2 H3 Hrest IH]; intros ts' Ht'.
    + inversion Ht' as [|pos' t' ts'' H0' H1' H2' H3' Hrest']; [reflexivity|lia].
    + inversion Ht' as [Hend|pos' t' ts'' H0' H1' H2' H3' Hrest']; subst.
      * lia.
      * f_equal. apply IH. exact Hrest'.
  - intros pos Hpos. apply (ParserFacts.nextToken_bounds content pos Hpos).
Qed.

Lemma parse_terminates_witness :
  LogseqParser.parse_fuel 40 (js "TODO > a [[b") = LogseqParser.parse_fuel 12 (js "TODO > a [[b")
  /\ 1 <= length (LogseqParser.nextToken (js "TODO > a [[b") 5).
Proof.
  destruct (parse_terminates (js "TODO > a [[b")) as (_ & Hfuel & Hstep).
  split.
  - apply (Hfuel 40%nat). simpl. lia.
  - apply (Hstep 5). vm_compute. split; [discriminate|reflexivity].
Defined.

(** ** Block trees *)

(** Induction on block trees: the property may be assumed of every child. *)
Lemma LogseqBlock_tree_ind (P : LogseqBlock -> Prop) :
  (forall u c p ch, Forall P ch -> P (mkBlock u c p ch)) ->
  forall b, P b.
Proof.
  intros step. fix IH 1. intros [u c p ch]. apply step.
  induction ch as [|child ch IHch]; constructor; [apply IH|exact IHch].
Qed.

Lemma fold_left_count (f : LogseqBlock -> Z) (l : list LogseqBlock) (a : Z) :
  fold_left (fun count child => count + f child) l a
  = a + fold_right (fun child acc => f child + acc) 0 l.
Proof.
  revert a. induction l as [|x l IH]; intros a; simpl; [lia|].
  rewrite IH. lia.
Qed.

Lemma countBlocks_without_children (b : LogseqBlock) (options : ExportOptions) :
  includeChildren options = false -> countBlocks b options = 1.
Proof. intros H. destruct b. simpl. now rewrite H. Qed.

Lemma countBlocks_reachable (options : ExportOptions) :
  includeChildren options = true ->
  forall b, countBlocks b options = reachable_blocks b.
Proof.
  intros Hic. induction b as [u c p ch IH] using LogseqBlock_tree_ind.
  unfold reachable_blocks. cbn [countBlocks blocks_of List.length]. rewrite Hic.
  rewrite fold_left_count.
  assert (Hsum : fold_right (fun child acc => countBlocks child options + acc) 0 ch
                 = Z.of_nat (List.length (flat_map blocks_of ch))).
  { induction IH as [|child ch Hc _ IHch]; [reflexivity|].
    cbn [fold_right flat_map]. rewrite List.length_app, IHch, Hc.
    unfold reachable_blocks. lia. }
  rewrite Hsum. lia.
Qed.

Lemma blockCount_convert_from (st : AsciiDocConverter.State) (b : LogseqBlock)
      (options : ExportOptions) :
  blockCount (convert_from st b options) = countBlocks b options.
Proof. unfold convert_from. destruct (format options); reflexivity. Qed.

(** [countBlocks] never reads [maxDepth]. *)
Lemma countBlocks_maxDepth (f f' : Format) (ic ip : bool) (md md' : option Z) :
  forall b, countBlocks b (mkOptions f ic ip md) = countBlocks b (mkOptions f' ic ip md').
Proof.
  induction b as [u c p ch IH] using LogseqBlock_tree_ind.
  cbn [countBlocks includeChildren]. destruct ic; [|reflexivity].
  rewrite !fold_left_count. f_equal.
  induction IH as [|child ch Hc _ IHch]; [reflexivity|].
  cbn [fold_right]. now rewrite Hc, IHch.
Qed.

(** C8.  In every format, [blockCount] is the number of blocks reachable from
    the root when [includeChildren] is set and 1 when it is not, whatever
    [maxDepth] is; with [maxDepth = 1] on the three-level tree, [blockCount] is
    3 although only two blocks are rendered. *)
Theorem blockCount_ignores_maxDepth :
  (forall st b options,
      blockCount (convert_from st b options)
      = if includeChildren options then reachable_blocks b else 1)
  /\ (forall st st' b f ic ip md md',
         blockCount (convert_from st b (mkOptions f ic ip md))
         = blockCount (convert_from st' b (mkOptions f ic ip md')))
  /\ (let r := convert (three_levels [] [] []) (mkOptions markdown true false (Some 1)) in
      blockCount r = 3
      /\ split_on nl (result_content r) = [js "Level 0"; js "  - Level 1"]
      /\ includes (result_content r) (js "Level 2") = false).
Proof.
  split; [|split].
  - intros st b options. rewrite blockCount_convert_from.
    destruct (includeChildren options) eqn:Hic.
    + now apply countBlocks_reachable.
    + now apply countBlocks_without_children.
  - intros. rewrite !blockCount_convert_from. apply countBlocks_maxDepth.
  - vm_compute. repeat split.
Qed.

(** ** One step of each tree walk *)

Lemma fold_left_ext_Forall {A B : Type} (f g : A -> B -> A) (l : list B) :
  Forall (fun x => forall a, f a x = g a x) l ->
  forall a, fold_left f l a = fold_left g l a.
Proof.
  induction 1 as [|x l Hx _ IH]; intros a; simpl; [reflexivity|].
  now rewrite Hx, IH.
Qed.

Lemma markdown_processBlock_eq u c p ch lines depth options :
  MarkdownConverter.processBlock (mkBlock u c p ch) lines depth options
  = if beyond_maxDepth options depth then lines
    else
      let rendered := MarkdownConverter.convertBlockContent c depth in
      let lines := if nonempty (trim rendered) then lines ++ [rendered] else lines in
      let lines :=
        with_properties MarkdownConverter.convertProperties options
          (mkBlock u c p ch) lines in
      fold_left
        (fun lines child => MarkdownConverter.processBlock child lines (depth + 1) options)
        (wanted_children options (mkBlock u c p ch)) lines.
Proof.
  cbn [MarkdownConverter.processBlock content]. unfold wanted_children, with_properties.
  cbn [children]. destruct (beyond_maxDepth options depth); [reflexivity|].
  destruct (includeChildren options); reflexivity.
Qed.

Lemma asciidoc_processBlock_eq u c p ch lines depth options st :
  AsciiDocConverter.processBlock (mkBlock u c p ch) lines depth options st
  = if beyond_maxDepth options depth then (lines, st)
    else
      let rendered := AsciiDocConverter.convertBlockContent c depth st in
      let lines :=
        if nonempty (trim (fst rendered)) then lines ++ [fst rendered] else lines in
      let lines :=
        with_properties AsciiDocConverter.convertProperties options
          (mkBlock u c p ch) lines in
      fold_left
        (fun acc child =>
           AsciiDocConverter.processBlock child (fst acc) (depth + 1) options (snd acc))
        (wanted_children options (mkBlock u c p ch)) (lines, snd rendered).
Proof.
  cbn [AsciiDocConverter.processBlock content]. unfold wanted_children, with_properties.
  cbn [children]. destruct (beyond_maxDepth options depth); [reflexivity|].
  destruct (AsciiDocConverter.convertBlockContent c depth st) as [rendered st'].
  cbn [fst snd]. destruct (includeChildren options); reflexivity.
Qed.

Lemma blank_trim_nil (s : jsstring) : blank s = true -> nonempty (trim s) = false.
Proof. unfold blank. now destruct (nonempty (trim s)). Qed.

Lemma markdown_blank_content (c : jsstring) (depth : Z) :
  blank c = true -> MarkdownConverter.convertBlockContent c depth = [].
Proof. intros H. unfold MarkdownConverter.convertBlockContent. now rewrite H. Qed.

Lemma asciidoc_blank_content (c : jsstring) (depth : Z) (st : AsciiDocConverter.State) :
  blank c = true -> AsciiDocConverter.convertBlockContent c depth st = ([], st).
Proof. intros H. unfold AsciiDocConverter.convertBlockContent. now rewrite H. Qed.

(** ** Depth limits *)

(** Below the root the HTML converter does not read [maxDepth] at all. *)
Lemma html_generateListItem_ignores_maxDepth (f f' : Format) (ic ip : bool)
      (md md' : option Z) :
  forall b,
    HtmlConverter.generateListItem b (mkOptions f ic ip md)
    = HtmlConverter.generateListItem b (mkOptions f' ic ip md').
Proof.
  induction b as [u c p ch IH] using LogseqBlock_tree_ind.
  cbn [HtmlConverter.generateListItem]. unfold wanted_properties.
  cbn [includeProperties includeChildren].
  assert (Hfold :
            fold_left
              (fun html child =>
                 html ++ HtmlConverter.generateListItem child (mkOptions f ic ip md)) ch []
            = fold_left
                (fun html child =>
                   html ++ HtmlConverter.generateListItem child (mkOptions f' ic ip md'))
                ch []).
  { apply fold_left_ext_Forall.
    eapply Forall_impl; [|exact IH]. intros child Hc a. now rewrite Hc. }
  now rewrite Hfold.
Qed.

(** C1.  [maxDepth = 1] on the three-level tree: the Markdown and AsciiDoc
    outputs contain "Level 0" and "Level 1" and not "Level 2"; the HTML output
    contains "Level 2" as well, because [generateListItem] never looks at
    [maxDepth]. *)
Theorem maxDepth_one_three_levels (u0 u1 u2 : jsstring) (ip : bool) :
  let content_of f :=
    result_content (convert (three_levels u0 u1 u2) (mkOptions f true ip (Some 1))) in
  (includes (content_of markdown) (js "Level 0") = true
   /\ includes (content_of markdown) (js "Level 1") = true
   /\ includes (content_of markdown) (js "Level 2") = false)
  /\ (includes (content_of asciidoc) (js "Level 0") = true
      /\ includes (content_of asciidoc) (js "Level 1") = true
      /\ includes (content_of asciidoc) (js "Level 2") = false)
  /\ (includes (content_of html) (js "Level 0") = true
      /\ includes (content_of html) (js "Level 1") = true
      /\ includes (content_of html) (js "Level 2") = true)
  /\ content_of html
     = js "Level 0<ul><li>Level 1<ul><li>Level 2</li></ul></li></ul>".
Proof. destruct ip; vm_compute; repeat split. Qed.

Lemma same_walk_properties o o' b :
  same_walk o o' -> wanted_properties o b = wanted_properties o' b.
Proof. intros (_ & Hip & _). unfold wanted_properties. now rewrite Hip. Qed.

Lemma same_walk_children o o' b :
  same_walk o o' -> wanted_children o b = wanted_children o' b.
Proof. intros (Hic & _). unfold wanted_children. now rewrite Hic. Qed.

Lemma markdown_processBlock_ext o o' :
  same_walk o o' ->
  forall b lines depth,
    MarkdownConverter.processBlock b lines depth o
    = MarkdownConverter.processBlock b lines depth o'.
Proof.
  intros Hw. induction b as [u c p ch IH] using LogseqBlock_tree_ind.
  intros lines depth. rewrite !markdown_processBlock_eq.
  destruct Hw as (Hic & Hip & Hd). rewrite Hd.
  destruct (beyond_maxDepth o' depth); [reflexivity|].
  cbv zeta. unfold with_properties.
  rewrite (same_walk_properties o o') by (repeat split; auto).
  rewrite (same_walk_children o o') by (repeat split; auto).
  apply fold_left_ext_Forall. unfold wanted_children. cbn [children].
  destruct (includeChildren o'); [|constructor].
  eapply Forall_impl; [|exact IH]. intros child Hc a. apply Hc.
Qed.

Lemma asciidoc_processBlock_ext o o' :
  same_walk o o' ->
  forall b lines depth st,
    AsciiDocConverter.processBlock b lines depth o st
    = AsciiDocConverter.processBlock b lines depth o' st.
Proof.
  intros Hw. induction b as [u c p ch IH] using LogseqBlock_tree_ind.
  intros lines depth st. rewrite !asciidoc_processBlock_eq.
  destruct Hw as (Hic & Hip & Hd). rewrite Hd.
  destruct (beyond_maxDepth o' depth); [reflexivity|].
  cbv zeta. unfold with_properties.
  rewrite (same_walk_properties o o') by (repeat split; auto).
  rewrite (same_walk_children o o') by (repeat split; auto).
  apply fold_left_ext_Forall. unfold wanted_children. cbn [children].
  destruct (includeChildren o'); [|constructor].
  eapply Forall_impl; [|exact IH]. intros child Hc a. apply Hc.
Qed.

Lemma html_generateListItem_ext o o' :
  same_walk o o' ->
  forall b, HtmlConverter.generateListItem b o = HtmlConverter.generateListItem b o'.
Proof.
  intros Hw. induction b as [u c p ch IH] using LogseqBlock_tree_ind.
  cbn [HtmlConverter.generateListItem].
  rewrite (same_walk_properties o o') by exact Hw.
  destruct Hw as (Hic & Hip & Hd). rewrite Hic.
  assert (Hfold :
            fold_left (fun html child => html ++ HtmlConverter.generateListItem child o) ch []
            = fold_left (fun html child => html ++ HtmlConverter.generateListItem child o')
                ch []).
  { apply fold_left_ext_Forall.
    eapply Forall_impl; [|exact IH]. intros child Hc a. now rewrite Hc. }
  now rewrite Hfold.
Qed.

Lemma html_generateHtml_ext o o' :
  same_walk o o' ->
  forall b depth, HtmlConverter.generateHtml b depth o = HtmlConverter.generateHtml b depth o'.
Proof.
  intros Hw b depth. unfold HtmlConverter.generateHtml.
  rewrite (same_walk_properties o o') by exact Hw.
  pose proof (html_generateListItem_ext o o' Hw) as Hli.
  destruct Hw as (Hic & Hip & Hd). rewrite Hd, Hic.
  destruct (beyond_maxDepth o' depth); [reflexivity|].
  destruct (depth =? 0); [|reflexivity].
  assert (Hfold :
            fold_left (fun html child => html ++ HtmlConverter.generateListItem child o)
              (children b) []
            = fold_left (fun html child => html ++ HtmlConverter.generateListItem child o')
                (children b) []).
  { apply fold_left_ext_Forall. apply Forall_forall. intros child _ a. now rewrite Hli. }
  now rewrite Hfold.
Qed.

Lemma countBlocks_ext o o' :
  includeChildren o = includeChildren o' ->
  forall b, countBlocks b o = countBlocks b o'.
Proof.
  intros Hic. induction b as [u c p ch IH] using LogseqBlock_tree_ind.
  cbn [countBlocks]. rewrite Hic. destruct (includeChildren o'); [|reflexivity].
  apply fold_left_ext_Forall.
  eapply Forall_impl; [|exact IH]. intros child Hc a. now rewrite Hc.
Qed.

(** A [maxDepth] of 0 is falsy: the walk is the one of an absent [maxDepth]. *)
Lemma zero_maxDepth_same_walk f ic ip :
  same_walk (mkOptions f ic ip (Some 0)) (mkOptions f ic ip None).
Proof. repeat split. Qed.

(** C2, as the code has it.  With a [maxDepth] of zero or less the conversion
    is defined in every format; zero is treated like an absent [maxDepth] (no
    limit at all); a negative [maxDepth] puts the root itself beyond the limit
    and the content is the empty string.  [blockCount] is as without
    [maxDepth]. *)
Theorem nonpositive_maxDepth (st : AsciiDocConverter.State) (b : LogseqBlock)
        (f : Format) (ic ip : bool) (m : Z) :
  m <= 0 ->
  (m = 0 ->
   convert_from st b (mkOptions f ic ip (Some m))
   = convert_from st b (mkOptions f ic ip None))
  /\ (m < 0 ->
      result_content (convert_from st b (mkOptions f ic ip (Some m))) = [])
  /\ blockCount (convert_from st b (mkOptions f ic ip (Some m)))
     = blockCount (convert_from st b (mkOptions f ic ip None)).
Proof.
  intros Hm. split; [|split].
  - intros ->. pose proof (zero_maxDepth_same_walk f ic ip) as Hw.
    unfold convert_from. cbn [format]. destruct f.
    + unfold MarkdownConverter.convertBlock.
      rewrite (markdown_processBlock_ext _ _ Hw).
      now rewrite (countBlocks_ext _ (mkOptions markdown ic ip None)).
    + unfold AsciiDocConverter.convertBlock. cbn [fst].
      rewrite (asciidoc_processBlock_ext _ _ Hw).
      now rewrite (countBlocks_ext _ (mkOptions asciidoc ic ip None)).
    + unfold HtmlConverter.convertBlock.
      rewrite (html_generateHtml_ext _ _ Hw).
      now rewrite (countBlocks_ext _ (mkOptions html ic ip None)).
  - intros Hneg.
    assert (Hb : beyond_maxDepth (mkOptions f ic ip (Some m)) 0 = true).
    { unfold beyond_maxDepth. cbn [maxDepth].
      apply andb_true_iff. split.
      - apply negb_true_iff. apply Z.eqb_neq. lia.
      - apply Z.gtb_lt. lia. }
    unfold convert_from. cbn [format]. destruct b as [u c p ch]. destruct f.
    + unfold MarkdownConverter.convertBlock. cbn [result_content].
      rewrite markdown_processBlock_eq, Hb. reflexivity.
    + unfold AsciiDocConverter.convertBlock. cbn [fst result_content].
      rewrite asciidoc_processBlock_eq, Hb. reflexivity.
    + unfold HtmlConverter.convertBlock, HtmlConverter.generateHtml.
      cbn [result_content]. rewrite Hb. reflexivity.
  - rewrite !blockCount_convert_from. now apply countBlocks_ext.
Qed.

Lemma nonpositive_maxDepth_witness :
  convert_from None (three_levels [] [] []) (mkOptions markdown true false (Some 0))
  = convert_from None (three_levels [] [] []) (mkOptions markdown true false None)
  /\ result_content
       (convert_from None (three_levels [] [] []) (mkOptions html true false (Some (-2))))
     = [].
Proof.
  split.
  - apply (nonpositive_maxDepth None (three_levels [] [] []) markdown true false 0);
      [lia|reflexivity].
  - apply (nonpositive_maxDepth None (three_levels [] [] []) html true false (-2)); lia.
Defined.

(** The claim as the specification words it (root content kept, nothing below
    the root) fails on both sides: with [maxDepth = 0] the descendants are
    rendered, with [maxDepth = -1] the root is not. *)
Lemma nonpositive_maxDepth_counterexample :
  let t := three_levels [] [] [] in
  let zero := result_content (convert t (mkOptions markdown true false (Some 0))) in
  let minus := result_content (convert t (mkOptions markdown true false (Some (-1)))) in
  ~ (includes zero (js "Level 0") = true
     /\ includes zero (js "Level 1") = false
     /\ includes zero (js "Level 2") = false)
  /\ ~ (includes minus (js "Level 0") = true
        /\ includes minus (js "Level 1") = false
        /\ includes minus (js "Level 2") = false).
Proof.
  vm_compute. split; intros (H0 & H1 & H2); discriminate.
Qed.

(** ** AsciiDoc list markers *)

Example asciidoc_root_line :
  AsciiDocConverter.convertBlockContent (js "Root") 0 None = (js "Root", None).
Proof. vm_compute. reflexivity. Qed.

Example asciidoc_child_line :
  AsciiDocConverter.convertBlockContent (js "TODO child") 1 None
  = (js "* [ ] child", Some 0).
Proof. vm_compute. reflexivity. Qed.

Example asciidoc_grandchild_line :
  AsciiDocConverter.convertBlockContent (js "DONE grandchild") 2 (Some 0)
  = (js "** [x] grandchild", Some 0).
Proof. vm_compute. reflexivity. Qed.

(** The bullet of a rendered task marker is dropped before the computed
    marker is put in front. *)
Lemma withMarker_replaces_bullet (indent rest : jsstring) :
  AsciiDocConverter.withMarker (js "* [" ++ rest) indent (js "* [" ++ rest)
  = indent ++ js " [" ++ rest.
Proof. reflexivity. Qed.

(** C5.  The AsciiDoc conversion of Root, TODO child, DONE grandchild with
    [includeChildren] set (and no depth limit above the grandchild) has
    exactly three lines: the root without marker, the child with one star,
    the grandchild with two; the bullet of the rendered task marker is
    replaced by the computed marker, so no line starts with a doubled
    marker. *)
Theorem asciidoc_nested_task_markers (u0 u1 u2 : jsstring) (ip : bool)
        (md : option Z) (st : AsciiDocConverter.State) :
  (forall depth, 0 <= depth <= 2 ->
     beyond_maxDepth (mkOptions asciidoc true ip md) depth = false) ->
  let lines :=
    split_on nl
      (result_content
         (convert_from st (nested_tasks u0 u1 u2) (mkOptions asciidoc true ip md))) in
  lines = [js "Root"; js "* [ ] child"; js "** [x] grandchild"]
  /\ Forall (fun l => startsWith l (js "** *") = false
                      /\ startsWith l (js "* *") = false) lines
  /\ (forall indent rest,
         AsciiDocConverter.withMarker (js "* [" ++ rest) indent (js "* [" ++ rest)
         = indent ++ js " [" ++ rest).
Proof.
  intros Hd.
  assert (Hlines :
            fst (AsciiDocConverter.processBlock (nested_tasks u0 u1 u2) [] 0
                   (mkOptions asciidoc true ip md) None)
            = [js "Root"; js "* [ ] child"; js "** [x] grandchild"]).
  { unfold nested_tasks.
    rewrite asciidoc_processBlock_eq, (Hd 0) by lia. cbv zeta.
    rewrite asciidoc_root_line.
    unfold with_properties, wanted_properties, wanted_children.
    cbn [properties children includeChildren includeProperties fst snd fold_left].
    change (0 + 1) with 1.
    rewrite asciidoc_processBlock_eq, (Hd 1) by lia. cbv zeta.
    rewrite asciidoc_child_line.
    unfold with_properties, wanted_properties, wanted_children.
    cbn [properties children includeChildren includeProperties fst snd fold_left].
    change (1 + 1) with 2.
    rewrite asciidoc_processBlock_eq, (Hd 2) by lia. cbv zeta.
    rewrite asciidoc_grandchild_line.
    unfold with_properties, wanted_properties, wanted_children.
    cbn [properties children includeChildren includeProperties fst snd fold_left].
    destruct ip; vm_compute; reflexivity. }
  unfold convert_from. cbn [format]. unfold AsciiDocConverter.convertBlock.
  cbn [fst result_content]. rewrite Hlines.
  split; [vm_compute; reflexivity|]. split.
  - vm_compute. repeat constructor.
  - intros indent rest. apply withMarker_replaces_bullet.
Qed.

Lemma asciidoc_nested_task_markers_witness :
  split_on nl
    (result_content
       (convert_from None (nested_tasks [] [] []) (mkOptions asciidoc true false (Some 10))))
  = [js "Root"; js "* [ ] child"; js "** [x] grandchild"].
Proof.
  apply (asciidoc_nested_task_markers [] [] [] false (Some 10) None).
  intros depth Hdepth. unfold beyond_maxDepth. cbn [maxDepth].
  apply andb_false_iff. right. rewrite Z.gtb_ltb. apply Z.ltb_ge. lia.
Defined.

(** ** The static depth offset *)

(** A conversion can leave a value in the static field. *)
Example offset_left_behind :
  snd (AsciiDocConverter.convertBlock (nested_tasks [] [] [])
         (mkOptions asciidoc true false None) None) = Some 0.
Proof. vm_compute. reflexivity. Qed.

(** And the tree walk does depend on the value it starts from. *)
Example processBlock_reads_offset :
  fst (AsciiDocConverter.processBlock (nested_tasks [] [] []) [] 0
         (mkOptions asciidoc true false None) (Some (-1)))
  <> fst (AsciiDocConverter.processBlock (nested_tasks [] [] []) [] 0
            (mkOptions asciidoc true false None) None).
Proof. vm_compute. discriminate. Qed.

(** C7.  The result of an AsciiDoc conversion does not depend on the value
    the static field [listDepthOffset] holds when the call is made: two
    successive calls on the same arguments give the same result, and so does
    a call made after any other conversion. *)
Theorem asciidoc_conversions_independent (b : LogseqBlock) (options : ExportOptions) :
  (forall st st',
      fst (AsciiDocConverter.convertBlock b options st)
      = fst (AsciiDocConverter.convertBlock b options st'))
  /\ (forall st,
         let first := AsciiDocConverter.convertBlock b options st in
         let second := AsciiDocConverter.convertBlock b options (snd first) in
         fst first = fst second)
  /\ (forall st b' options',
         let earlier := AsciiDocConverter.convertBlock b' options' st in
         fst (AsciiDocConverter.convertBlock b options (snd earlier))
         = fst (AsciiDocConverter.convertBlock b options None))
  /\ (forall st st', convert_from st b options = convert_from st' b options).
Proof.
  split; [|split; [|split]].
  - intros st st'. reflexivity.
  - intros st. reflexivity.
  - intros st b' options'. reflexivity.
  - intros st st'. unfold convert_from. destruct (format options); reflexivity.
Qed.

(** ** Blank blocks *)

(** C10, as the code has it.  In the Markdown and AsciiDoc converters a block
    whose content is empty or whitespace adds no line for its content: what
    it adds is its properties section, when that is wanted, and the lines of
    its children (the AsciiDoc depth offset is left as it was).  The block is
    counted all the same: the count does not look at the content.  A root with
    one whitespace-only child has [blockCount] 2 and the root's content as
    its whole output. *)
Theorem blank_block_adds_no_content_line (u c : jsstring) (p : option Properties)
        (ch : list LogseqBlock) (lines : list jsstring) (depth : Z)
        (options : ExportOptions) (st : AsciiDocConverter.State) :
  blank c = true ->
  let b := mkBlock u c p ch in
  MarkdownConverter.processBlock b lines depth options
  = (if beyond_maxDepth options depth then lines
     else
       fold_left
         (fun lines child => MarkdownConverter.processBlock child lines (depth + 1) options)
         (wanted_children options b)
         (with_properties MarkdownConverter.convertProperties options b lines))
  /\ AsciiDocConverter.processBlock b lines depth options st
     = (if beyond_maxDepth options depth then (lines, st)
        else
          fold_left
            (fun acc child =>
               AsciiDocConverter.processBlock child (fst acc) (depth + 1) options (snd acc))
            (wanted_children options b)
            (with_properties AsciiDocConverter.convertProperties options b lines, st))
  /\ (forall c', countBlocks b options = countBlocks (mkBlock u c' p ch) options)
  /\ 1 <= countBlocks b options
  /\ (forall f, f = markdown \/ f = asciidoc ->
        let r := convert root_with_blank_child (mkOptions f true false None) in
        blockCount r = 2 /\ result_content r = js "Root").
Proof.
  intros Hblank b. subst b. repeat split.
  - rewrite markdown_processBlock_eq. cbv zeta.
    rewrite (markdown_blank_content c depth Hblank). reflexivity.
  - rewrite asciidoc_processBlock_eq. cbv zeta.
    rewrite (asciidoc_blank_content c depth st Hblank). reflexivity.
  - cbn [countBlocks]. destruct (includeChildren options); [|lia].
    rewrite fold_left_count.
    assert (0 <= fold_right (fun child acc => countBlocks child options + acc) 0 ch); [|lia].
    induction ch as [|child ch IH]; simpl; [lia|].
    assert (1 <= countBlocks child options); [|lia].
    clear. induction child as [u c p ch IH] using LogseqBlock_tree_ind.
    cbn [countBlocks]. destruct (includeChildren options); [|lia].
    rewrite fold_left_count.
    assert (0 <= fold_right (fun child acc => countBlocks child options + acc) 0 ch); [|lia].
    induction IH as [|child ch Hc _ IHch]; simpl; lia.
  - destruct H as [->| ->]; vm_compute; reflexivity.
  - destruct H as [->| ->]; vm_compute; reflexivity.
Qed.

Lemma blank_block_adds_no_content_line_witness :
  MarkdownConverter.processBlock (mkBlock [] (js "   ") None []) [js "Root"] 1
    (mkOptions markdown true false None)
  = [js "Root"].
Proof.
  apply (blank_block_adds_no_content_line [] (js "   ") None [] [js "Root"] 1
           (mkOptions markdown true false None) None).
  vm_compute. reflexivity.
Defined.

(** A blank block is not without lines of its own when its properties are
    rendered. *)
Lemma blank_block_counterexample :
  let b := mkBlock [] (js " ") (Some [(js "k", PStr (js "v"))]) [] in
  let options := mkOptions markdown true true None in
  blank (content b) = true
  /\ MarkdownConverter.processBlock b [] 0 options
     = [js "**Properties:**" ++ [nl] ++ js "- **k**: v"]
  /\ MarkdownConverter.processBlock b [] 0 options <> []
  /\ fst (AsciiDocConverter.processBlock b [] 0 options None) <> [].
Proof. vm_compute. repeat split; discriminate. Qed.

(** ** HTML escaping *)

Lemma replace_all_app (c : char) (rep a b : jsstring) :
  replace_all c rep (a ++ b) = replace_all c rep a ++ replace_all c rep b.
Proof. unfold replace_all. apply flat_map_app. Qed.

Lemma escapeHtml_app (a b : jsstring) :
  escapeHtml (a ++ b) = escapeHtml a ++ escapeHtml b.
Proof. unfold escapeHtml. now rewrite !replace_all_app. Qed.

Lemma replace_all_char (c : char) (rep : jsstring) (x : char) :
  replace_all c rep [x] = if N.eqb x c then rep else [x].
Proof. unfold replace_all. simpl. apply app_nil_r. Qed.

Lemma escapeHtml_char (c : char) : escapeHtml [c] = entity c.
Proof.
  unfold escapeHtml, entity.
  change (chr "&") with 38%N. change (chr "<") with 60%N. change (chr ">") with 62%N.
  change dq with 34%N. change sq with 39%N.
  rewrite replace_all_char. destruct (N.eqb c 38); [reflexivity|].
  rewrite replace_all_char. destruct (N.eqb c 60); [reflexivity|].
  rewrite replace_all_char. destruct (N.eqb c 62); [reflexivity|].
  rewrite replace_all_char. destruct (N.eqb c 34); [reflexivity|].
  rewrite replace_all_char. reflexivity.
Qed.

(** The five replacements in a row amount to replacing each character by its
    entity. *)
Lemma escapeHtml_spec (s : jsstring) : escapeHtml s = escape_spec s.
Proof.
  induction s as [|c s IH]; [reflexivity|].
  change (c :: s) with ([c] ++ s).
  rewrite escapeHtml_app, escapeHtml_char, IH. reflexivity.
Qed.

Lemma entity_no_special (c : char) :
  forallb (fun x => negb (html_special x)) (entity c) = true.
Proof.
  unfold entity, html_special.
  change (chr "&") with 38%N. change (chr "<") with 60%N. change (chr ">") with 62%N.
  change dq with 34%N. change sq with 39%N.
  destruct (N.eqb c 38) eqn:E1; [reflexivity|].
  destruct (N.eqb c 60) eqn:E2; [reflexivity|].
  destruct (N.eqb c 62) eqn:E3; [reflexivity|].
  destruct (N.eqb c 34) eqn:E4; [reflexivity|].
  destruct (N.eqb c 39) eqn:E5; [reflexivity|].
  cbn [forallb]. now rewrite E2, E3, E4, E5.
Qed.

(** None of [<], [>], the double and the single quote is left in an escaped
    text. *)
Lemma escapeHtml_no_special (s : jsstring) :
  forallb (fun x => negb (html_special x)) (escapeHtml s) = true.
Proof.
  rewrite escapeHtml_spec. induction s as [|c s IH]; [reflexivity|].
  cbn [escape_spec flat_map]. rewrite forallb_app, entity_no_special. exact IH.
Qed.

Lemma render_app (a b : list piece) : render (a ++ b) = render a ++ render b.
Proof. unfold render. apply flat_map_app. Qed.

Lemma join_nil_concat (l : list jsstring) : join [] l = List.concat l.
Proof.
  induction l as [|x l IH]; [reflexivity|].
  destruct l as [|y l]; [simpl; now rewrite app_nil_r|].
  change (join [] (x :: y :: l)) with (x ++ [] ++ join [] (y :: l)).
  rewrite IH. reflexivity.
Qed.

Lemma video_of_id (ty : VideoType) (t : Token) (id : jsstring) :
  video_of ty t = Some id -> meta videoId t = Some id.
Proof.
  unfold video_of.
  destruct (meta videoType t) as [ty'|]; [|discriminate].
  destruct (meta videoId t) as [v|]; [|discriminate].
  destruct (videoType_eqb ty' ty && nonempty v); [|discriminate].
  intros H. inversion H. reflexivity.
Qed.

Lemma str_or_text (t : Token) (f : TokenMetadata -> option jsstring) (d : jsstring) :
  text_of t d ->
  (forall txt, meta f t = Some txt -> text_of t txt) ->
  text_of t (str_or (meta f t) d).
Proof.
  intros Hd Hf. unfold str_or. destruct (meta f t) as [s|]; [|exact Hd].
  destruct (nonempty s); [|exact Hd]. now apply Hf.
Qed.

Lemma text_of_default (t : Token) : text_of t [].
Proof. now left. Qed.

Lemma text_of_value (t : Token) : text_of t (value t).
Proof. right. right. now left. Qed.

Lemma text_of_target (t : Token) (d : jsstring) :
  text_of t d -> text_of t (str_or (meta linkTarget t) d).
Proof. intros Hd. apply str_or_text; [exact Hd|]. intros txt H. unfold text_of. tauto. Qed.

Lemma text_of_linkText (t : Token) : text_of t (str_or (meta linkText t) (value t)).
Proof.
  apply str_or_text; [apply text_of_value|]. intros txt H. unfold text_of. tauto.
Qed.

Lemma text_of_alt (t : Token) : text_of t (str_or (meta altText t) []).
Proof.
  apply str_or_text; [apply text_of_default|]. intros txt H. unfold text_of. tauto.
Qed.

Lemma text_of_alt_description (t : Token) :
  text_of t (str_or (Some (str_or (meta altText t) [])) (js "no description")).
Proof.
  pose proof (text_of_alt t) as H. unfold str_or at 1.
  destruct (nonempty (str_or (meta altText t) [])); [exact H|].
  right. now left.
Qed.

Lemma text_of_language (t : Token) : text_of t (str_or (meta language t) []).
Proof.
  apply str_or_text; [apply text_of_default|]. intros txt H. unfold text_of. tauto.
Qed.

Lemma text_of_video (ty : VideoType) (t : Token) (id : jsstring) :
  video_of ty t = Some id -> text_of t id.
Proof. intros H. apply video_of_id in H. unfold text_of. tauto. Qed.

(** The HTML of a token is its pieces, one after the other. *)
Lemma generateToken_pieces (t : Token) :
  HtmlGenerator.generateToken t = render (html_pieces t).
Proof.
  unfold HtmlGenerator.generateToken, html_pieces, render.
  destruct (type t); cbn [flat_map render_piece];
    rewrite ?app_nil_r, <- ?app_assoc; try reflexivity.
  - unfold HtmlGenerator.generateLink. destruct (isExternal t);
      cbn [flat_map render_piece]; rewrite ?app_nil_r, <- ?app_assoc; reflexivity.
  - unfold HtmlGenerator.generateImage. destruct (isExternal t);
      cbn [flat_map render_piece]; rewrite ?app_nil_r, <- ?app_assoc; reflexivity.
  - unfold HtmlGenerator.generateVideoEmbed.
    destruct (video_of youtube t); [|destruct (video_of vimeo t)];
      cbn [flat_map render_piece]; rewrite ?app_nil_r, <- ?app_assoc; reflexivity.
  - unfold HtmlGenerator.generateCodeBlock.
    destruct (nonempty (str_or (meta language t) []));
      cbn [flat_map render_piece app]; rewrite ?app_nil_r, <- ?app_assoc;
      simpl; rewrite <- ?app_assoc; reflexivity.
  - unfold HtmlGenerator.generateTaskMarker, HtmlGenerator.getTaskEmoji.
    destruct (meta taskType t) as [[| | | |]|];
      cbn [flat_map render_piece app]; rewrite ?app_nil_r, <- ?app_assoc; reflexivity.
Qed.

Ltac pieces_ok :=
  repeat first
    [ apply Forall_nil
    | apply Forall_cons;
      [ cbn [piece_ok]; first [reflexivity | assumption | idtac] | ]
    | apply Forall_app; split ].

(** Each piece is a markup literal of the generator or an escaped text of the
    token. *)
Lemma html_pieces_ok (t : Token) : Forall (piece_ok (text_of t)) (html_pieces t).
Proof.
  pose proof (text_of_value t) as Hv.
  pose proof (text_of_target t [] (text_of_default t)) as Ht.
  pose proof (text_of_target t (value t) Hv) as Hu.
  pose proof (text_of_linkText t) as Hl.
  pose proof (text_of_alt t) as Ha.
  pose proof (text_of_alt_description t) as Hd.
  pose proof (text_of_language t) as Hg.
  unfold html_pieces.
  destruct (type t); pieces_ok.
  - destruct (isExternal t); pieces_ok.
  - destruct (isExternal t); pieces_ok.
  - destruct (video_of youtube t) eqn:Ey; [|destruct (video_of vimeo t) eqn:Ev];
      pieces_ok; eapply text_of_video; eassumption.
  - destruct (nonempty (str_or (meta language t) [])); pieces_ok.
  - destruct (meta taskType t) as [[| | | |]|]; pieces_ok.
  - destruct (meta taskType t) as [[| | | |]|]; pieces_ok.
Qed.

Lemma generate_pieces (tokens : list Token) :
  HtmlGenerator.generate tokens = render (flat_map html_pieces tokens).
Proof.
  unfold HtmlGenerator.generate, generate_with. rewrite join_nil_concat.
  induction tokens as [|t tokens IH]; [reflexivity|].
  cbn [List.map List.concat flat_map]. rewrite render_app, IH, generateToken_pieces.
  reflexivity.
Qed.

Lemma propertyItems_pieces (ps : Properties) :
  HtmlConverter.propertyItems ps
  = render (flat_map (fun kv =>
      if is_set (snd kv)
      then [Markup (js "<li><strong>"); Escaped (fst kv); Markup (js "</strong>: ");
            Escaped (toString (snd kv)); Markup (js "</li>")]
      else []) ps).
Proof.
  unfold HtmlConverter.propertyItems.
  induction ps as [|kv ps IH]; [reflexivity|].
  cbn [flat_map]. rewrite render_app, IH. f_equal.
  destruct (is_set (snd kv)); [|reflexivity].
  unfold render. cbn [flat_map render_piece]. rewrite ?app_nil_r, <- ?app_assoc.
  reflexivity.
Qed.

Lemma convertProperties_pieces (ps : Properties) :
  HtmlConverter.convertProperties ps = render (property_pieces ps).
Proof.
  unfold HtmlConverter.convertProperties, property_pieces.
  rewrite !render_app, <- propertyItems_pieces.
  unfold render. cbn [flat_map render_piece]. rewrite ?app_nil_r, <- ?app_assoc.
  reflexivity.
Qed.

Lemma property_pieces_ok (ps : Properties) :
  Forall (piece_ok (text_of_properties ps)) (property_pieces ps).
Proof.
  unfold property_pieces. pieces_ok.
  apply Forall_forall. intros p Hp. apply in_flat_map in Hp as (kv & Hkv & Hp).
  destruct (is_set (snd kv)); [|contradiction].
  cbn [In] in Hp.
  destruct Hp as [<-|[<-|[<-|[<-|[<-|[]]]]]]; cbn [piece_ok];
    try reflexivity; exists kv; auto.
Qed.

Lemma property_pieces_present (ps : Properties) (k : jsstring) (v : PropValue) :
  In (k, v) ps -> is_set v = true ->
  In (Escaped k) (property_pieces ps)
  /\ In (Escaped (toString v)) (property_pieces ps).
Proof.
  intros Hin Hset. unfold property_pieces.
  split; apply in_or_app; right; apply in_or_app; left;
    apply in_flat_map; exists (k, v); (split; [exact Hin|]);
    cbn [fst snd]; rewrite Hset; cbn [In]; auto.
Qed.

(** C9.  In the HTML generator every text is put into the output through
    [escapeHtml], which replaces each of the ampersand, [<], [>], the double
    and the single quote by its entity: the output of [generate] is a
    sequence of markup literals and escaped texts of the tokens; the value of
    a text, blockRef, tag, highlight, bold, codeBlock, query, blockquote or
    nakedUrl token, the text and target of a link and the description and
    source of an image are among the escaped texts; and so are the key and
    the value of every rendered property. *)
Theorem html_text_is_escaped :
  (forall s,
      escapeHtml s = escape_spec s
      /\ forallb (fun c => negb (html_special c)) (escapeHtml s) = true)
  /\ (forall tokens,
         HtmlGenerator.generate tokens = render (flat_map html_pieces tokens)
         /\ Forall (fun t => Forall (piece_ok (text_of t)) (html_pieces t)) tokens)
  /\ (forall t,
         In (type t) [text; blockRef; tag; highlight; bold; codeBlock; query;
                      blockquote; nakedUrl] ->
         In (Escaped (value t)) (html_pieces t))
  /\ (forall t,
         type t = markdownLink ->
         In (Escaped (str_or (meta linkText t) (value t))) (html_pieces t)
         /\ In (Escaped (str_or (meta linkTarget t) [])) (html_pieces t))
  /\ (forall t,
         type t = image ->
         (In (Escaped (str_or (meta altText t) [])) (html_pieces t)
          \/ In (Escaped (str_or (Some (str_or (meta altText t) [])) (js "no description")))
               (html_pieces t))
         /\ In (Escaped (str_or (meta linkTarget t) [])) (html_pieces t))
  /\ (forall ps,
         HtmlConverter.convertProperties ps = render (property_pieces ps)
         /\ Forall (piece_ok (text_of_properties ps)) (property_pieces ps)
         /\ (forall k v, In (k, v) ps -> is_set v = true ->
               In (Escaped k) (property_pieces ps)
               /\ In (Escaped (toString v)) (property_pieces ps))).
Proof.
  split; [|split; [|split; [|split; [|split]]]].
  - intros s. split; [apply escapeHtml_spec|apply escapeHtml_no_special].
  - intros tokens. split; [apply generate_pieces|].
    apply Forall_forall. intros t _. apply html_pieces_ok.
  - intros t Hty. unfold html_pieces.
    destruct (type t); cbn [In] in *;
      try (cbn [In]; auto 6; fail);
      try (destruct Hty as [H|[H|[H|[H|[H|[H|[H|[H|[H|[]]]]]]]]]]; discriminate).
    destruct (nonempty (str_or (meta language t) [])); cbn [In app]; auto 6.
  - intros t Hty. unfold html_pieces. rewrite Hty.
    destruct (isExternal t); cbn [In]; auto 8.
  - intros t Hty. unfold html_pieces. rewrite Hty.
    destruct (isExternal t); cbn [In]; auto 8.
  - intros ps. split; [apply convertProperties_pieces|].
    split; [apply property_pieces_ok|]. intros k v. apply property_pieces_present.
Qed.

Lemma html_text_is_escaped_witness :
  In (Escaped (js "a<b"))
     (html_pieces (mkToken bold (js "a<b") None 7))
  /\ In (Escaped (js "k&"))
        (property_pieces [(js "k&", PStr (js "<v>"))]).
Proof.
  destruct html_text_is_escaped as (_ & _ & Hvalue & _ & _ & Hprops).
  split.
  - apply (Hvalue (mkToken bold (js "a<b") None 7)). cbn [type In]. auto 8.
  - destruct (Hprops [(js "k&", PStr (js "<v>"))]) as (_ & _ & Hkv).
    apply (Hkv (js "k&") (PStr (js "<v>"))); [cbn [In]; auto|reflexivity].
Defined.

Example html_escape_example :
  HtmlGenerator.generate (LogseqParser.parse (js "a <b> & **c'd**"))
  = js "a &lt;b&gt; &amp; <strong>c&#039;d</strong>".
Proof. vm_compute. reflexivity. Qed.

(** ** The AsciiDoc blockquote heuristic *)

Lemma length_nonempty (s : jsstring) : (1 <= List.length s)%nat -> s <> [].
Proof. destruct s; simpl; [lia|discriminate]. Qed.

Lemma nonempty_length (s : jsstring) : s <> [] -> (1 <= List.length s)%nat.
Proof. destruct s; simpl; [congruence|lia]. Qed.

Lemma dashAuthor_complete {R : Type} (k : jsstring -> caps -> option R) s c a :
  dash_author s a ->
  (forall c', k [] c' <> None) ->
  rmatch re_dashAuthor k s c <> None.
Proof.
  intros (ws1 & ws2 & -> & Hws1 & Hws2 & Hne & Ha) Hk.
  unfold re_dashAuthor. cbn [rmatch].
  apply rep_greedy_complete; [exact Hws1|simpl; lia|].
  rewrite strip_prefix_complete.
  apply rep_greedy_complete; [exact Hws2|simpl; lia|].
  rewrite <- (app_nil_r a).
  apply rep_greedy_complete; [exact Ha|now apply nonempty_length|].
  apply Hk.
Qed.

(** A greedy repetition that succeeds has taken the longest run after which
    the rest matches. *)
Lemma rep_greedy_last {R : Type} (p : char -> bool) (k : jsstring -> option R) :
  forall s n r,
    rep_greedy p k n s = Some r ->
    exists pre s',
      s = pre ++ s' /\ (n <= List.length pre)%nat /\ forallb p pre = true
      /\ k s' = Some r
      /\ (forall ext s'',
             s' = ext ++ s'' -> ext <> [] -> forallb p ext = true -> k s'' = None).
Proof.
  induction s as [|x s IH]; intros n r H; cbn [rep_greedy] in H.
  - destruct n; [|discriminate]. exists [], []. repeat split; auto.
    intros ext s'' Heq Hne _. destruct ext; [contradiction|discriminate].
  - assert (Hstop : match n with O => k (x :: s) | S _ => None end = Some r ->
                    (p x = true -> rep_greedy p k (Nat.pred n) s = None) ->
                    exists pre s',
                      x :: s = pre ++ s' /\ (n <= List.length pre)%nat
                      /\ forallb p pre = true /\ k s' = Some r
                      /\ (forall ext s'',
                             s' = ext ++ s'' -> ext <> [] -> forallb p ext = true ->
                             k s'' = None)).
    { destruct n; [|discriminate]. intros Hk Hrec. exists [], (x :: s).
      repeat split; auto.
      intros ext s'' Heq Hne Hext. destruct ext as [|y ext]; [contradiction|].
      cbn [app] in Heq. injection Heq as <- ->.
      cbn [forallb] in Hext. apply andb_true_iff in Hext as [Px Hext].
      specialize (Hrec Px). cbn [Nat.pred] in Hrec.
      destruct (k s'') eqn:Ek; [|reflexivity]. exfalso.
      apply (rep_greedy_complete p k ext s'' 0%nat Hext); [lia|congruence|exact Hrec]. }
    destruct (p x) eqn:Px.
    + destruct (rep_greedy p k (Nat.pred n) s) as [r'|] eqn:Hrec.
      * injection H as ->.
        destruct (IH _ _ Hrec) as (pre & s' & -> & Hn & Hall & Hk & Hmax).
        exists (x :: pre), s'. cbn [forallb app List.length]. rewrite Px, Hall.
        repeat split; auto. lia.
      * apply Hstop; auto.
    + apply Hstop; [exact H|discriminate].
Qed.

(** The author that the common tail of the two patterns captures. *)
Lemma dashAuthor_tight {R : Type} (k : jsstring -> caps -> option R) s c res :
  (forall c', k [] c' <> None) ->
  rmatch re_dashAuthor k s c = Some res ->
  exists a, dash_author s a /\ tight a /\ k [] (setcap 2 a c) = Some res.
Proof.
  unfold re_dashAuthor. cbn [rmatch]. intros Hk H.
  apply rep_greedy_inv in H as (ws1 & s1 & -> & _ & Hws1 & H).
  destruct (strip_prefix (js "-") s1) as [s2|] eqn:E; [|discriminate].
  apply strip_prefix_app in E. subst s1.
  apply rep_greedy_last in H as (ws2 & s3 & -> & _ & Hws2 & H & Hmax).
  pose proof H as H'.
  apply rep_greedy_inv in H' as (a & s4 & -> & Hn & Ha & H').
  destruct s4 as [|x s4]; [|discriminate].
  rewrite firstn_prefix in H'. rewrite app_nil_r in *.
  exists a. split; [|split; [|exact H']].
  - exists ws1, ws2. repeat split; auto. now apply length_nonempty.
  - destruct a as [|y a]; [simpl in Hn; lia|].
    destruct (is_space y) eqn:Ey; [|now left].
    destruct a as [|z a]; [now right|]. exfalso.
    specialize (Hmax [y] (z :: a) eq_refl ltac:(discriminate)
                  ltac:(cbn [forallb]; now rewrite Ey)).
    revert Hmax. cbn [forallb] in Ha. apply andb_true_iff in Ha as [_ Ha].
    rewrite <- (app_nil_r (z :: a)).
    apply rep_greedy_complete; [exact Ha|simpl; lia|apply Hk].
Qed.

(** ** The parts of a blockquote text are determined by the text *)

Lemma run_unique (p : char -> bool) (u u' r r' : jsstring) :
  forallb p u = true -> forallb p u' = true -> stops p r -> stops p r' ->
  u ++ r = u' ++ r' -> u = u' /\ r = r'.
Proof.
  revert u'. induction u as [|x u IH]; intros [|x' u'] Hu Hu' Hr Hr' Heq;
    cbn [app forallb] in *.
  - auto.
  - subst r. apply andb_true_iff in Hu' as [Px _]. cbn in Hr. congruence.
  - subst r'. apply andb_true_iff in Hu as [Px _]. cbn in Hr'. congruence.
  - injection Heq as <- Heq.
    apply andb_true_iff in Hu as [_ Hu]. apply andb_true_iff in Hu' as [_ Hu'].
    destruct (IH u' Hu Hu' Hr Hr' Heq) as [-> ->]. auto.
Qed.

Lemma tight_author_unique (ws ws' a a' : jsstring) :
  spaces ws -> spaces ws' -> a <> [] -> a' <> [] -> tight a -> tight a' ->
  ws ++ a = ws' ++ a' -> a = a'.
Proof.
  intros Hws Hws' Hne Hne' Ht Ht' Heq.
  assert (Hlong : forall w w' b b' : jsstring,
             spaces w' -> b' <> [] -> tight b ->
             forall e, e <> [] -> w' = w ++ e -> b = e ++ b' -> False).
  { intros w w' b b' Hw' Hb' Hb e He -> ->.
    unfold spaces in Hw'. rewrite forallb_app in Hw'.
    apply andb_true_iff in Hw' as [_ Hsp].
    destruct e as [|y e]; [contradiction|]. cbn [forallb] in Hsp.
    apply andb_true_iff in Hsp as [Hy _].
    destruct Hb as [Hb|Hb].
    - cbn in Hb. congruence.
    - cbn [app List.length] in Hb. rewrite length_app in Hb.
      destruct b'; [contradiction|]. simpl in Hb. lia. }
  apply app_eq_app in Heq as (e & [[-> ->]|[-> ->]]).
  - destruct e as [|y e]; [now rewrite app_nil_l|]. exfalso.
    apply (Hlong ws' (ws' ++ y :: e) ((y :: e) ++ a) a Hws Hne Ht' (y :: e));
      [discriminate|reflexivity|reflexivity].
  - destruct e as [|y e]; [now rewrite app_nil_l|]. exfalso.
    apply (Hlong ws (ws ++ y :: e) ((y :: e) ++ a') a' Hws' Hne' Ht (y :: e));
      [discriminate|reflexivity|reflexivity].
Qed.

Lemma dash_is_no_space (s : jsstring) : stops is_space (js "-" ++ s).
Proof. reflexivity. Qed.

Lemma dash_author_unique (s a a' : jsstring) :
  dash_author s a -> tight a -> dash_author s a' -> tight a' -> a = a'.
Proof.
  intros (ws1 & ws2 & -> & Hws1 & Hws2 & Hne & _) Ht
         (ws1' & ws2' & Heq & Hws1' & Hws2' & Hne' & _) Ht'.
  destruct (run_unique is_space ws1 ws1' _ _ Hws1 Hws1'
              (dash_is_no_space _) (dash_is_no_space _) Heq) as [_ Htail].
  injection Htail as Htail.
  exact (tight_author_unique ws2 ws2' a a' Hws2 Hws2' Hne Hne' Ht Ht' Htail).
Qed.

Module BlockquoteFacts.
Import AsciiDocGenerator.

Lemma re_simple_unfold {R : Type} (k : jsstring -> caps -> option R) Q c :
  rmatch re_simpleQuoteWithAuthor k Q c
  = rep_lazy is_dot
      (fun s' =>
         rmatch re_dashAuthor k s'
           (setcap 1 (firstn (List.length Q - List.length s') Q) c))
      1 Q.
Proof. reflexivity. Qed.

Lemma re_quoted_unfold {R : Type} (k : jsstring -> caps -> option R) Q c :
  rmatch re_quoteWithAuthor k Q c
  = match strip_prefix [dq] Q with
    | Some s0 =>
        rep_lazy is_dot
          (fun s' =>
             match strip_prefix [dq] s' with
             | Some s'' =>
                 rmatch re_dashAuthor k s''
                   (setcap 1 (firstn (List.length s0 - List.length s') s0) c)
             | None => None
             end)
          1 s0
    | None => None
    end.
Proof. reflexivity. Qed.

(** The looser pattern: what a match captures, and that it is the match with
    the shortest left part. *)
Lemma simple_sound (Q : jsstring) (m : MatchResult) :
  re_match re_simpleQuoteWithAuthor Q = Some m ->
  exists l r,
    g1 m = Some l /\ g2 m = Some r /\ dashed Q l r /\ tight r
    /\ (forall l' r', dashed Q l' r' -> (List.length l <= List.length l')%nat).
Proof.
  unfold re_match. rewrite re_simple_unfold. intros H.
  destruct (rep_lazy _ _ _ _) as [[rest c]|] eqn:E; [|discriminate].
  apply rep_lazy_first in E as (l & s & -> & Hn & Hl & Hk & Hfirst).
  rewrite firstn_prefix in Hk.
  apply dashAuthor_tight in Hk as (r & Hr & Ht & Hfin); [|discriminate].
  inversion Hfin; subst rest c. inversion H; subst m. cbn [g1 g2 fst snd setcap].
  exists l, r. repeat split; auto.
  - exists s. repeat split; auto. now apply length_nonempty.
  - intros l' r' (s' & Heq & Hne' & Hl' & Hr').
    destruct (Nat.le_gt_cases (List.length l) (List.length l')) as [Hle|Hlt]; [exact Hle|].
    exfalso. specialize (Hfirst l' s' Heq (nonempty_length _ Hne') Hlt).
    revert Hfirst. eapply dashAuthor_complete; [exact Hr'|]. discriminate.
Qed.

Lemma simple_complete (Q l r : jsstring) :
  dashed Q l r -> re_match re_simpleQuoteWithAuthor Q <> None.
Proof.
  intros (s & -> & Hne & Hl & Hr). unfold re_match. rewrite re_simple_unfold.
  match goal with
  | |- match ?x with _ => _ end <> None =>
      assert (Hx : x <> None); [|destruct x as [[? ?]|]; [discriminate|contradiction]]
  end.
  apply rep_lazy_complete; [exact Hl|now apply nonempty_length|].
  eapply dashAuthor_complete; [exact Hr|]. discriminate.
Qed.

(** The pattern with the quote in quote marks. *)
Lemma quoted_sound (Q : jsstring) (m : MatchResult) :
  re_match re_quoteWithAuthor Q = Some m ->
  exists q a,
    g1 m = Some q /\ g2 m = Some a /\ quoted_with_author Q q a /\ tight a
    /\ (forall q' a', quoted_with_author Q q' a' ->
          (List.length q <= List.length q')%nat).
Proof.
  unfold re_match. rewrite re_quoted_unfold. intros H.
  destruct (strip_prefix [dq] Q) as [s0|] eqn:E0; [|discriminate].
  apply strip_prefix_app in E0. subst Q.
  destruct (rep_lazy _ _ _ _) as [[rest c]|] eqn:E; [|discriminate].
  apply rep_lazy_first in E as (q & s & -> & Hn & Hq & Hk & Hfirst).
  destruct (strip_prefix [dq] s) as [s1|] eqn:E1; [|discriminate].
  apply strip_prefix_app in E1. subst s.
  rewrite firstn_prefix in Hk.
  apply dashAuthor_tight in Hk as (a & Ha & Ht & Hfin); [|discriminate].
  inversion Hfin; subst rest c. inversion H; subst m. cbn [g1 g2 fst snd setcap].
  exists q, a. repeat split; auto.
  - exists s1. repeat split; auto. now apply length_nonempty.
  - intros q' a' (s' & Heq & Hne' & Hq' & Ha').
    destruct (Nat.le_gt_cases (List.length q) (List.length q')) as [Hle|Hlt]; [exact Hle|].
    exfalso. cbn [app] in Heq. inversion Heq as [Heq'].
    specialize (Hfirst q' ([dq] ++ s') Heq' (nonempty_length _ Hne') Hlt).
    revert Hfirst. rewrite strip_prefix_complete.
    eapply dashAuthor_complete; [exact Ha'|]. discriminate.
Qed.

Lemma quoted_complete (Q q a : jsstring) :
  quoted_with_author Q q a -> re_match re_quoteWithAuthor Q <> None.
Proof.
  intros (s & -> & Hne & Hq & Ha). unfold re_match. rewrite re_quoted_unfold.
  rewrite strip_prefix_complete.
  match goal with
  | |- match ?x with _ => _ end <> None =>
      assert (Hx : x <> None); [|destruct x as [[? ?]|]; [discriminate|contradiction]]
  end.
  apply rep_lazy_complete; [exact Hq|now apply nonempty_length|].
  rewrite strip_prefix_complete.
  eapply dashAuthor_complete; [exact Ha|]. discriminate.
Qed.

(** Two prefixes of the same length of one text are the same. *)
Lemma same_length_prefix (a b s s' : jsstring) :
  a ++ s = b ++ s' -> List.length a = List.length b -> a = b /\ s = s'.
Proof.
  revert b. induction a as [|x a IH]; intros [|y b] Heq Hl; simpl in Hl;
    try discriminate.
  - auto.
  - cbn [app] in Heq. injection Heq as <- Heq.
    destruct (IH b Heq) as [-> ->]; [lia|auto].
Qed.

(** The shortest quote and the author behind it are determined by the
    text. *)
Lemma quoted_unique (Q q a q' a' : jsstring) :
  quoted_with_author Q q a -> tight a ->
  (forall q0 a0, quoted_with_author Q q0 a0 -> (List.length q <= List.length q0)%nat) ->
  quoted_with_author Q q' a' -> tight a' ->
  (forall q0 a0, quoted_with_author Q q0 a0 -> (List.length q' <= List.length q0)%nat) ->
  q' = q /\ a' = a.
Proof.
  intros Hq Ht Hmin Hq' Ht' Hmin'.
  pose proof (Hmin _ _ Hq') as H1. pose proof (Hmin' _ _ Hq) as H2.
  destruct Hq as (s & HQ & _ & _ & Ha). destruct Hq' as (s' & HQ' & _ & _ & Ha').
  rewrite HQ in HQ'. cbn [app] in HQ'. injection HQ' as HQ'.
  destruct (same_length_prefix q q' _ _ HQ') as [<- Htail]; [lia|].
  injection Htail as <-. split; [reflexivity|].
  exact (dash_author_unique s a' a Ha' Ht' Ha Ht).
Qed.

Lemma dashed_unique (Q l r l' r' : jsstring) :
  dashed Q l r -> tight r ->
  (forall l0 r0, dashed Q l0 r0 -> (List.length l <= List.length l0)%nat) ->
  dashed Q l' r' -> tight r' ->
  (forall l0 r0, dashed Q l0 r0 -> (List.length l' <= List.length l0)%nat) ->
  l' = l /\ r' = r.
Proof.
  intros Hd Ht Hmin Hd' Ht' Hmin'.
  pose proof (Hmin _ _ Hd') as H1. pose proof (Hmin' _ _ Hd) as H2.
  destruct Hd as (s & HQ & _ & _ & Hr). destruct Hd' as (s' & HQ' & _ & _ & Hr').
  rewrite HQ in HQ'.
  destruct (same_length_prefix l l' _ _ HQ') as [<- <-]; [lia|].
  split; [reflexivity|].
  exact (dash_author_unique s r' r Hr' Ht' Hr Ht).
Qed.

End BlockquoteFacts.

(** C6.  The AsciiDoc rendering of a blockquote token with text [Q].
    When [Q] has the form quote mark, quote, quote mark, dash, author, the
    output is the attributed form: a line feed, the quote between straight
    quotes, a line feed, two dashes, a space and the author, a line feed.
    The quote is the shortest one that fits the form and the author begins
    after the white space behind the dash; the two are determined by [Q].
    Otherwise, when [Q] has the form left, dash, right (with the shortest
    such left and the right part after the white space, again determined by
    [Q]), the output is the attributed form of the trimmed parts if the
    trimmed right part is shorter than 50 characters and shorter than the
    trimmed left part, and [Q] between straight quotes if not.  Otherwise
    it is [Q] between straight quotes. *)
Theorem asciidoc_blockquote_heuristic (t : Token) :
  type t = blockquote ->
  let Q := value t in
  let out := AsciiDocGenerator.generateToken t in
  ((exists q a, quoted_with_author Q q a) ->
   exists q a,
     quoted_with_author Q q a /\ tight a
     /\ (forall q' a', quoted_with_author Q q' a' ->
           (List.length q <= List.length q')%nat)
     /\ out = [nl] ++ [dq] ++ q ++ [dq] ++ [nl] ++ js "-- " ++ a ++ [nl]
     /\ (forall q' a',
           quoted_with_author Q q' a' -> tight a' ->
           (forall q0 a0, quoted_with_author Q q0 a0 ->
              (List.length q' <= List.length q0)%nat) ->
           q' = q /\ a' = a))
  /\ (~ (exists q a, quoted_with_author Q q a) ->
      (exists l r, dashed Q l r) ->
      exists l r,
        dashed Q l r /\ tight r
        /\ (forall l' r', dashed Q l' r' -> (List.length l <= List.length l')%nat)
        /\ out = (if (len (trim r) <? 50) && (len (trim r) <? len (trim l))
                  then [nl] ++ [dq] ++ trim l ++ [dq] ++ [nl] ++ js "-- " ++ trim r ++ [nl]
                  else [dq] ++ Q ++ [dq])
        /\ (forall l' r',
              dashed Q l' r' -> tight r' ->
              (forall l0 r0, dashed Q l0 r0 -> (List.length l' <= List.length l0)%nat) ->
              l' = l /\ r' = r))
  /\ (~ (exists q a, quoted_with_author Q q a) ->
      ~ (exists l r, dashed Q l r) ->
      out = [dq] ++ Q ++ [dq]).
Proof.
  intros Hty Q out. subst Q out.
  unfold AsciiDocGenerator.generateToken. rewrite Hty.
  unfold AsciiDocGenerator.generateBlockquote.
  destruct (re_match AsciiDocGenerator.re_quoteWithAuthor (value t)) as [m1|] eqn:E1.
  - destruct (BlockquoteFacts.quoted_sound _ _ E1)
      as (q & a & Hg1 & Hg2 & Hq & Ht & Hmin).
    rewrite Hg1, Hg2. cbn [group]. split; [|split].
    + intros _. exists q, a.
      split; [exact Hq|]. split; [exact Ht|]. split; [exact Hmin|].
      split; [reflexivity|].
      intros q' a' Hq' Ht' Hmin'.
      exact (BlockquoteFacts.quoted_unique _ q a q' a' Hq Ht Hmin Hq' Ht' Hmin').
    + intros Hno. exfalso. apply Hno. eauto.
    + intros Hno. exfalso. apply Hno. eauto.
  - assert (Hno1 : ~ (exists q a, quoted_with_author (value t) q a)).
    { intros (q & a & Hq). now apply (BlockquoteFacts.quoted_complete _ _ _ Hq). }
    destruct (re_match AsciiDocGenerator.re_simpleQuoteWithAuthor (value t))
      as [m2|] eqn:E2.
    + destruct (BlockquoteFacts.simple_sound _ _ E2)
        as (l & r & Hg1 & Hg2 & Hd & Ht & Hmin).
      rewrite Hg1, Hg2. cbn [group]. rewrite Z.gtb_ltb. split; [|split].
      * intros Hyes. contradiction.
      * intros _ _. exists l, r.
        split; [exact Hd|]. split; [exact Ht|]. split; [exact Hmin|].
        split; [reflexivity|].
        intros l' r' Hd' Ht' Hmin'.
        exact (BlockquoteFacts.dashed_unique _ l r l' r' Hd Ht Hmin Hd' Ht' Hmin').
      * intros _ Hno. exfalso. apply Hno. eauto.
    + split; [|split].
      * intros Hyes. contradiction.
      * intros _ (l & r & Hd). exfalso.
        now apply (BlockquoteFacts.simple_complete _ _ _ Hd).
      * intros _ _. reflexivity.
Qed.

(** The quote of the tests: the theorem gives its output, since the quote
    and the author that fit the form are [Quote.] and [Author] and no
    others. *)
Lemma asciidoc_blockquote_heuristic_witness :
  AsciiDocGenerator.generateToken quote_token
  = [nl] ++ [dq] ++ js "Quote." ++ [dq] ++ [nl] ++ js "-- " ++ js "Author" ++ [nl].
Proof.
  destruct (asciidoc_blockquote_heuristic quote_token eq_refl) as (Hquoted & _ & _).
  assert (Hform : quoted_with_author (value quote_token) (js "Quote.") (js "Author")).
  { exists (js " - Author"). repeat split; try discriminate.
    exists (js " "), (js " "). repeat split; discriminate. }
  assert (Hshort : forall q0 a0,
             quoted_with_author (value quote_token) q0 a0 ->
             (List.length (js "Quote.") <= List.length q0)%nat).
  { intros q0 a0 (s0 & Heq & Hne & _ & _).
    cbn [value quote_token app] in Heq. injection Heq as Heq.
    do 6 (destruct q0 as [|? q0];
          [try contradiction; try discriminate
          |cbn [app] in Heq; injection Heq as ? Heq]).
    simpl. lia. }
  destruct (Hquoted (ex_intro _ _ (ex_intro _ _ Hform)))
    as (q & a & _ & _ & _ & Hout & Huniq).
  destruct (Huniq (js "Quote.") (js "Author") Hform (or_introl eq_refl) Hshort)
    as [<- <-].
  exact Hout.
Defined.

Example blockquote_attributed :
  AsciiDocGenerator.generateToken quote_token
  = [nl; dq] ++ js "Quote." ++ [dq; nl] ++ js "-- Author" ++ [nl].
Proof. vm_compute. reflexivity. Qed.

Example blockquote_dashed :
  AsciiDocGenerator.generateToken
    (mkToken blockquote (js "Stay hungry, stay foolish - Steve Jobs") None 40)
  = [nl; dq] ++ js "Stay hungry, stay foolish" ++ [dq; nl] ++ js "-- Steve Jobs" ++ [nl].
Proof. vm_compute. reflexivity. Qed.

Example blockquote_plain :
  AsciiDocGenerator.generateToken (mkToken blockquote (js "This is a quote") None 17)
  = [dq] ++ js "This is a quote" ++ [dq].
Proof. vm_compute. reflexivity. Qed.

(** White space alone behind the dash: its last character is the author. *)
Example blockquote_author_of_white_space :
  AsciiDocGenerator.generateToken
    (mkToken blockquote ([dq] ++ js "a" ++ [dq] ++ js " -  ") None 9)
  = [nl; dq] ++ js "a" ++ [dq; nl] ++ js "--  " ++ [nl].
Proof. vm_compute. reflexivity. Qed.

(** A short left part and a long right part: not taken for an author. *)
Example blockquote_long_right :
  AsciiDocGenerator.generateToken
    (mkToken blockquote (js "No - this is just a sentence with a dash") None 42)
  = [dq] ++ js "No - this is just a sentence with a dash" ++ [dq].
Proof. vm_compute. reflexivity. Qed.

(** Taken on its own, [matchText] does return an empty token when it stands
    on a [>] at the start of a line; the scan loop never gets there because
    the blockquote matcher comes first. *)
Example matchText_alone_can_be_empty :
  length (LogseqParser.matchText (js "> quote") 0) = 0
  /\ type (LogseqParser.nextToken (js "> quote") 0) = blockquote.
Proof. vm_compute. split; reflexivity. Qed.

(** ** The one array access that could fail *)

(** In the quote-block branch of the AsciiDoc [convertBlockContent] the
    source reads [lines[0]] after popping the blank lines off the end of
    [lines]; on an empty array that would throw.  The branch is entered only
    when the converted text has a line that starts with a quote mark, and that
    line is never popped. *)

Lemma includes_split (s p : jsstring) :
  includes s p = true -> exists a b, s = a ++ p ++ b.
Proof.
  induction s as [|x s IH]; simpl; intros H.
  - rewrite orb_false_r in H. unfold startsWith in H.
    destruct (strip_prefix p []) as [b|] eqn:E; [|discriminate].
    apply strip_prefix_app in E. exists [], b. exact E.
  - apply orb_true_iff in H as [H|H].
    + unfold startsWith in H.
      destruct (strip_prefix p (x :: s)) as [b|] eqn:E; [|discriminate].
      apply strip_prefix_app in E. exists [], b. exact E.
    + destruct (IH H) as (a & b & ->). exists (x :: a), b. reflexivity.
Qed.

Lemma split_on_nonempty (c : char) (s : jsstring) : split_on c s <> [].
Proof.
  induction s as [|x s IH]; simpl; [discriminate|].
  destruct (split_on c s); [contradiction|]. destruct (N.eqb x c); discriminate.
Qed.

Lemma split_on_app (c : char) (a rest : jsstring) :
  split_on c (a ++ c :: rest) = split_on c a ++ split_on c rest.
Proof.
  induction a as [|x a IH].
  - simpl. pose proof (split_on_nonempty c rest) as Hne.
    destruct (split_on c rest); [contradiction|]. now rewrite N.eqb_refl.
  - cbn [app split_on]. rewrite IH.
    pose proof (split_on_nonempty c a) as Hne.
    destruct (split_on c a) as [|cur more]; [contradiction|].
    cbn [app]. destruct (N.eqb x c); reflexivity.
Qed.

Lemma split_on_first (c x : char) (s : jsstring) :
  N.eqb x c = false -> exists cur more, split_on c (x :: s) = (x :: cur) :: more.
Proof.
  intros Hx. simpl. pose proof (split_on_nonempty c s) as Hne.
  destruct (split_on c s) as [|cur more]; [contradiction|].
  rewrite Hx. eauto.
Qed.

Lemma trimStart_keeps (s : jsstring) (x : char) :
  In x s -> is_space x = false -> trimStart s <> [].
Proof.
  induction s as [|y s IH]; intros Hin Hx; [contradiction|].
  simpl. destruct (is_space y) eqn:Ey; [|discriminate].
  destruct Hin as [->|Hin]; [congruence|]. now apply IH.
Qed.

Lemma line_with_quote_not_blank (cur : jsstring) : blank (dq :: cur) = false.
Proof.
  unfold blank, trim, trimEnd. change (trimStart (dq :: cur)) with (dq :: cur).
  assert (H : trimStart (rev (dq :: cur)) <> []).
  { apply (trimStart_keeps _ dq); [|reflexivity].
    apply in_rev. rewrite rev_involutive. now left. }
  destruct (trimStart (rev (dq :: cur))) as [|y l] eqn:E; [contradiction|].
  destruct (rev (y :: l)) eqn:Er; [|reflexivity].
  apply (f_equal (@rev char)) in Er. rewrite rev_involutive in Er. discriminate.
Qed.

Lemma dropBlankStart_keeps (lines : list jsstring) (l : jsstring) :
  In l lines -> blank l = false -> AsciiDocConverter.dropBlankStart lines <> [].
Proof.
  induction lines as [|y lines IH]; intros Hin Hl; [contradiction|].
  simpl. destruct (blank y) eqn:Ey; [|discriminate].
  destruct Hin as [->|Hin]; [congruence|]. now apply IH.
Qed.

Lemma quote_block_has_first_line (converted : jsstring) :
  includes converted [nl; dq] = true ->
  AsciiDocConverter.popBlankLines (split_on nl converted) <> [].
Proof.
  intros H. apply includes_split in H as (a & b & ->).
  change ([nl; dq] ++ b) with (nl :: dq :: b). rewrite split_on_app.
  destruct (split_on_first nl dq b eq_refl) as (cur & more & ->).
  unfold AsciiDocConverter.popBlankLines.
  assert (Hd : AsciiDocConverter.dropBlankStart
                 (rev (split_on nl a ++ (dq :: cur) :: more)) <> []).
  { apply (dropBlankStart_keeps _ (dq :: cur)); [|apply line_with_quote_not_blank].
    apply -> in_rev. apply in_or_app. right. now left. }
  intros Hnil. apply Hd. apply (f_equal (@rev jsstring)) in Hnil.
  rewrite rev_involutive in Hnil. exact Hnil.
Qed.

(** ** The embedding against the repository's tests *)

Example parse_empty : LogseqParser.parse [] = [].
Proof. reflexivity. Qed.

Example parse_plain_text :
  List.map summary (LogseqParser.parse (js "Just plain text"))
  = [(text, js "Just plain text", 15)].
Proof. vm_compute. reflexivity. Qed.

Example parse_blockRef :
  LogseqParser.parse (js "[[Page]]")
  = [mkToken blockRef (js "Page")
       (Some (mkMeta None None (Some (js "Page")) None None None None None)) 8].
Proof. vm_compute. reflexivity. Qed.

Example parse_text_with_reference :
  List.map summary (LogseqParser.parse (js "See [[Page]] here"))
  = [(text, js "See ", 4); (blockRef, js "Page", 8); (text, js " here", 5)].
Proof. vm_compute. reflexivity. Qed.

Example parse_blockquote :
  LogseqParser.parse (js "> This is a quote")
  = [mkToken blockquote (js "This is a quote") None 17].
Proof. vm_compute. reflexivity. Qed.

Example parse_blockquote_after_newline :
  List.map summary (LogseqParser.parse (js "First line" ++ [nl] ++ js "> Quote line"))
  = [(text, js "First line" ++ [nl], 11); (blockquote, js "Quote line", 12)].
Proof. vm_compute. reflexivity. Qed.

Example parse_http_without_scheme :
  List.map summary (LogseqParser.parse (js "http is a protocol"))
  = [(text, js "http is a protocol", 18)].
Proof. vm_compute. reflexivity. Qed.

Example parse_task_marker :
  List.map summary (LogseqParser.parse (js "TODO Complete task"))
  = [(taskMarker, [], 5); (text, js "Complete task", 13)].
Proof. vm_compute. reflexivity. Qed.

Example parse_code_block :
  List.map summary
    (LogseqParser.parse (js "```javascript" ++ [nl] ++ js "console.log(1);" ++ [nl] ++ js "```"))
  = [(codeBlock, js "console.log(1);" ++ [nl], 33)].
Proof. vm_compute. reflexivity. Qed.

Example parse_unterminated_syntax :
  List.map summary (LogseqParser.parse (js "a [[b"))
  = [(text, js "a ", 2); (text, js "[", 1); (text, js "[", 1); (text, js "b", 1)].
Proof. vm_compute. reflexivity. Qed.

(** A task in the three formats. *)
Example task_in_three_formats :
  let b := mkBlock [] (js "TODO Complete the task") None [] in
  result_content (convert b (mkOptions markdown true false (Some 10)))
  = js "- [ ] Complete the task"
  /\ result_content (convert b (mkOptions asciidoc true false (Some 10)))
     = js "* [ ] Complete the task"
  /\ result_content (convert b (mkOptions html true false (Some 10)))
     = js "<input type=" ++ [dq] ++ js "checkbox" ++ [dq] ++ js " disabled /> Complete the task".
Proof. vm_compute. repeat split. Qed.

(** Without [includeChildren] only the parent is rendered. *)
Example parent_only :
  forall f,
    result_content (convert (three_levels [] [] []) (mkOptions f false false (Some 10)))
    = js "Level 0".
Proof. intros []; vm_compute; reflexivity. Qed.

(** Multi-line content in a nested AsciiDoc block, with a blank line. *)
Example asciidoc_continuation_lines :
  split_on nl
    (result_content
       (convert
          (mkBlock [] (js "Root") None
             [mkBlock [] (js "First line" ++ [nl; nl] ++ js "Third line") None []])
          (mkOptions asciidoc true false (Some 10))))
  = [js "Root"; js "* First line +"; js "+"; []; js "Third line"].
Proof. vm_compute. reflexivity. Qed.

(** Multi-line content in a nested Markdown block. *)
Example markdown_hard_breaks :
  split_on nl
    (result_content
       (convert
          (mkBlock [] (js "Root") None
             [mkBlock [] (js "First line" ++ [nl] ++ js "Second line" ++ [nl]
                            ++ js "Third line") None []])
          (mkOptions markdown true false (Some 10))))
  = [js "Root"; js "  - First line" ++ [bslash]; js "    Second line" ++ [bslash];
     js "    Third line"].
Proof. vm_compute. reflexivity. Qed.

(** A heading resets the depth offset: the list under it starts at one star. *)
Example asciidoc_heading_resets_offset :
  split_on nl
    (result_content
       (convert
          (mkBlock [] (js "Root") None
             [mkBlock [] (js "a") None
                [mkBlock [] (js "## Section") None
                   [mkBlock [] (js "deep") None []]]])
          (mkOptions asciidoc true false (Some 10))))
  = [js "Root"; js "* a"; []; []; js "[discrete]"; js "=== Section"; []; js "* deep"].
Proof. vm_compute. reflexivity. Qed.

(* ================================================================== *)
(** * Further properties of the converters and of the fetch *)
(* ================================================================== *)

(** ** Options that switch parts of the tree off *)

Lemma fold_left_map_arg {A B C : Type} (f : A -> C -> A) (g : B -> C) (l : list B) :
  forall a, fold_left f (List.map g l) a = fold_left (fun a x => f a (g x)) l a.
Proof. induction l as [|x l IH]; intros a; simpl; [reflexivity|apply IH]. Qed.

Lemma convert_ignores_children
      (st : AsciiDocConverter.State) (u c : jsstring) (p : option Properties)
      (ch ch' : list LogseqBlock) (options : ExportOptions) :
  includeChildren options = false ->
  convert_from st (mkBlock u c p ch) options = convert_from st (mkBlock u c p ch') options
  /\ blockCount (convert_from st (mkBlock u c p ch) options) = 1.
Proof.
  intros Hic. split.
  - unfold convert_from. destruct (format options).
    + unfold MarkdownConverter.convertBlock.
      rewrite !markdown_processBlock_eq, !countBlocks_without_children by exact Hic.
      unfold wanted_children, with_properties, wanted_properties.
      cbn [properties]. rewrite Hic. reflexivity.
    + unfold AsciiDocConverter.convertBlock. cbn [fst].
      rewrite !asciidoc_processBlock_eq, !countBlocks_without_children by exact Hic.
      unfold wanted_children, with_properties, wanted_properties.
      cbn [properties]. rewrite Hic. reflexivity.
    + unfold HtmlConverter.convertBlock, HtmlConverter.generateHtml.
      rewrite !countBlocks_without_children by exact Hic.
      unfold wanted_properties. cbn [properties content]. rewrite Hic.
      reflexivity.
  - rewrite blockCount_convert_from. now apply countBlocks_without_children.
Qed.

(** Without [includeChildren] the children of the block play no part in the
    result, in any format: the content is that of the block alone and
    [blockCount] is 1. *)
Theorem children_ignored_without_includeChildren
        (st : AsciiDocConverter.State) (u c : jsstring) (p : option Properties)
        (ch ch' : list LogseqBlock) (options : ExportOptions) :
  includeChildren options = false ->
  convert_from st (mkBlock u c p ch) options = convert_from st (mkBlock u c p ch') options
  /\ blockCount (convert_from st (mkBlock u c p ch) options) = 1.
Proof. apply convert_ignores_children. Qed.

Lemma children_ignored_without_includeChildren_witness :
  convert_from None (three_levels [] [] []) (mkOptions html false true (Some 3))
  = convert_from None (mkBlock [] (js "Level 0") None [])
      (mkOptions html false true (Some 3)).
Proof.
  apply (children_ignored_without_includeChildren None [] (js "Level 0") None
           _ [] (mkOptions html false true (Some 3))).
  reflexivity.
Defined.

Lemma wanted_properties_off (options : ExportOptions) (b : LogseqBlock) :
  includeProperties options = false -> wanted_properties options b = None.
Proof. intros H. unfold wanted_properties. now rewrite H. Qed.

Lemma markdown_without_properties (options : ExportOptions) :
  includeProperties options = false ->
  forall b lines depth,
    MarkdownConverter.processBlock (without_properties b) lines depth options
    = MarkdownConverter.processBlock b lines depth options.
Proof.
  intros Hip. induction b as [u c p ch IH] using LogseqBlock_tree_ind.
  intros lines depth. cbn [without_properties].
  rewrite !markdown_processBlock_eq. cbv zeta. unfold with_properties.
  rewrite !wanted_properties_off by exact Hip.
  unfold wanted_children. cbn [children].
  destruct (beyond_maxDepth options depth); [reflexivity|].
  destruct (includeChildren options); [|reflexivity].
  rewrite fold_left_map_arg. apply fold_left_ext_Forall.
  eapply Forall_impl; [|exact IH]. intros child Hc a. apply Hc.
Qed.

Lemma asciidoc_without_properties (options : ExportOptions) :
  includeProperties options = false ->
  forall b lines depth st,
    AsciiDocConverter.processBlock (without_properties b) lines depth options st
    = AsciiDocConverter.processBlock b lines depth options st.
Proof.
  intros Hip. induction b as [u c p ch IH] using LogseqBlock_tree_ind.
  intros lines depth st. cbn [without_properties].
  rewrite !asciidoc_processBlock_eq. cbv zeta. unfold with_properties.
  rewrite !wanted_properties_off by exact Hip.
  unfold wanted_children. cbn [children].
  destruct (beyond_maxDepth options depth); [reflexivity|].
  destruct (includeChildren options); [|reflexivity].
  rewrite fold_left_map_arg. apply fold_left_ext_Forall.
  eapply Forall_impl; [|exact IH]. intros child Hc a. apply Hc.
Qed.

Lemma html_without_properties (options : ExportOptions) :
  includeProperties options = false ->
  forall b,
    HtmlConverter.generateListItem (without_properties b) options
    = HtmlConverter.generateListItem b options.
Proof.
  intros Hip. induction b as [u c p ch IH] using LogseqBlock_tree_ind.
  cbn [without_properties HtmlConverter.generateListItem content].
  rewrite !wanted_properties_off by exact Hip.
  assert (Hne : nonempty_list (List.map without_properties ch) = nonempty_list ch)
    by (destruct ch; reflexivity).
  rewrite Hne.
  assert (Hfold :
            fold_left (fun html child => html ++ HtmlConverter.generateListItem child options)
              (List.map without_properties ch) []
            = fold_left (fun html child => html ++ HtmlConverter.generateListItem child options)
                ch []).
  { rewrite fold_left_map_arg. apply fold_left_ext_Forall.
    eapply Forall_impl; [|exact IH]. intros child Hc a. now rewrite Hc. }
  now rewrite Hfold.
Qed.

Lemma countBlocks_without_properties (options : ExportOptions) :
  forall b, countBlocks (without_properties b) options = countBlocks b options.
Proof.
  induction b as [u c p ch IH] using LogseqBlock_tree_ind.
  cbn [without_properties countBlocks].
  destruct (includeChildren options); [|reflexivity].
  rewrite fold_left_map_arg. apply fold_left_ext_Forall.
  eapply Forall_impl; [|exact IH]. intros child Hc a. now rewrite Hc.
Qed.

(** Without [includeProperties] no [properties] field anywhere in the tree
    plays a part in the result, in any format. *)
Theorem properties_ignored_without_includeProperties
        (st : AsciiDocConverter.State) (b : LogseqBlock) (options : ExportOptions) :
  includeProperties options = false ->
  convert_from st (without_properties b) options = convert_from st b options.
Proof.
  intros Hip. unfold convert_from. destruct (format options).
  - unfold MarkdownConverter.convertBlock.
    now rewrite markdown_without_properties, countBlocks_without_properties.
  - unfold AsciiDocConverter.convertBlock. cbn [fst].
    now rewrite asciidoc_without_properties, countBlocks_without_properties.
  - unfold HtmlConverter.convertBlock. rewrite countBlocks_without_properties.
    f_equal. destruct b as [u c p ch].
    unfold HtmlConverter.generateHtml. cbn [without_properties content children].
    rewrite !wanted_properties_off by exact Hip.
    assert (Hne : nonempty_list (List.map without_properties ch) = nonempty_list ch)
      by (destruct ch; reflexivity).
    rewrite Hne.
    assert (Hfold :
              fold_left (fun html child => html ++ HtmlConverter.generateListItem child options)
                (List.map without_properties ch) []
              = fold_left
                  (fun html child => html ++ HtmlConverter.generateListItem child options)
                  ch []).
    { rewrite fold_left_map_arg. apply fold_left_ext_Forall.
      apply Forall_forall. intros child _ a. now rewrite html_without_properties. }
    now rewrite Hfold.
Qed.

Lemma properties_ignored_without_includeProperties_witness :
  convert_from None
    (without_properties (mkBlock [] (js "P") (Some [(js "k", PStr (js "v"))]) []))
    (mkOptions asciidoc true false None)
  = convert_from None (mkBlock [] (js "P") (Some [(js "k", PStr (js "v"))]) [])
      (mkOptions asciidoc true false None).
Proof.
  apply (properties_ignored_without_includeProperties None
           (mkBlock [] (js "P") (Some [(js "k", PStr (js "v"))]) [])
           (mkOptions asciidoc true false None)).
  reflexivity.
Defined.

(** ** The fetched tree and the depth limit *)

Lemma RawBlock_tree_ind (P : RawBlock -> Prop) :
  (forall u c p ch, Forall P ch -> P (mkRaw u c p ch)) ->
  forall r, P r.
Proof.
  intros step. fix IH 1. intros [u c p ch]. apply step.
  induction ch as [|child ch IHch]; constructor; [apply IH|exact IHch].
Qed.

Lemma height_nonneg (b : LogseqBlock) : 0 <= height b.
Proof.
  destruct b as [u c p ch]. cbn [height].
  induction ch as [|child ch IH]; cbn [fold_right]; lia.
Qed.

Lemma height_child (u c : jsstring) (p : option Properties) (ch : list LogseqBlock)
      (child : LogseqBlock) :
  In child ch -> 1 + height child <= height (mkBlock u c p ch).
Proof.
  cbn [height]. induction ch as [|x ch IH]; intros Hin; [contradiction|].
  cbn [fold_right]. destruct Hin as [->|Hin]; [lia|]. specialize (IH Hin). lia.
Qed.

Lemma height_children_bound (ch : list LogseqBlock) (bound : Z) :
  0 <= bound ->
  Forall (fun child => 1 + height child <= bound) ch ->
  fold_right (fun child acc => Z.max (1 + height child) acc) 0 ch <= bound.
Proof.
  intros Hb. induction 1 as [|child ch Hc _ IH]; cbn [fold_right]; lia.
Qed.

Lemma fetched_tree_is_cut_aux (rawBlock : RawBlock) (currentDepth maxDepth : Z) :
  height (LogseqAPI.transformBlockWithChildren rawBlock currentDepth maxDepth)
  <= Z.max 0 (maxDepth - currentDepth)
  /\ (maxDepth <= currentDepth ->
      LogseqAPI.transformBlockWithChildren rawBlock currentDepth maxDepth
      = LogseqAPI.transformBlock rawBlock).
Proof.
  split.
  - revert currentDepth.
    induction rawBlock as [u c p ch IH] using RawBlock_tree_ind. intros currentDepth.
    cbn [LogseqAPI.transformBlockWithChildren height].
    destruct (currentDepth <? maxDepth) eqn:E; [|cbn [andb fold_right]; lia].
    apply Z.ltb_lt in E. destruct (nonempty_list ch); [|cbn [andb fold_right]; lia].
    cbn [andb]. apply height_children_bound; [lia|].
    apply Forall_map. eapply Forall_impl; [|exact IH].
    intros child Hc. specialize (Hc (currentDepth + 1)). lia.
  - intros Hle. destruct rawBlock as [u c p ch].
    cbn [LogseqAPI.transformBlockWithChildren LogseqAPI.transformBlock].
    assert (E : (currentDepth <? maxDepth) = false) by (apply Z.ltb_ge; lia).
    now rewrite E.
Qed.

(** The fetch cuts the tree: below a block taken at [currentDepth] there are
    at most [maxDepth - currentDepth] levels, and none at all once
    [currentDepth] has reached [maxDepth]. *)
Theorem fetched_tree_is_cut (rawBlock : RawBlock) (currentDepth maxDepth : Z) :
  height (LogseqAPI.transformBlockWithChildren rawBlock currentDepth maxDepth)
  <= Z.max 0 (maxDepth - currentDepth)
  /\ (maxDepth <= currentDepth ->
      LogseqAPI.transformBlockWithChildren rawBlock currentDepth maxDepth
      = LogseqAPI.transformBlock rawBlock).
Proof. apply fetched_tree_is_cut_aux. Qed.

Lemma fetched_tree_is_cut_witness :
  LogseqAPI.transformBlockWithChildren
    (mkRaw [] (Some (js "a")) None [mkRaw [] None None []]) 2 2
  = LogseqAPI.transformBlock (mkRaw [] (Some (js "a")) None [mkRaw [] None None []]).
Proof.
  apply (fetched_tree_is_cut
           (mkRaw [] (Some (js "a")) None [mkRaw [] None None []]) 2 2).
  lia.
Defined.

Lemma same_walk_within_child o o' depth u c p ch child :
  same_walk_within o o' depth (depth + height (mkBlock u c p ch)) ->
  In child ch ->
  same_walk_within o o' (depth + 1) (depth + 1 + height child).
Proof.
  intros (Hic & Hip & Hd) Hin. pose proof (height_child u c p ch child Hin).
  repeat split; auto. intros d Hrange. apply Hd. lia.
Qed.

Lemma wanted_properties_same o o' b :
  includeProperties o = includeProperties o' ->
  wanted_properties o b = wanted_properties o' b.
Proof. intros H. unfold wanted_properties. now rewrite H. Qed.

Lemma fold_left_ext_In {A B : Type} (f g : A -> B -> A) (l : list B) :
  (forall x, In x l -> forall a, f a x = g a x) ->
  forall a, fold_left f l a = fold_left g l a.
Proof.
  intros H. apply fold_left_ext_Forall. apply Forall_forall. exact H.
Qed.

Lemma markdown_processBlock_within o o' :
  forall b lines depth,
    same_walk_within o o' depth (depth + height b) ->
    MarkdownConverter.processBlock b lines depth o
    = MarkdownConverter.processBlock b lines depth o'.
Proof.
  induction b as [u c p ch IH] using LogseqBlock_tree_ind.
  intros lines depth Hw. rewrite !markdown_processBlock_eq.
  pose proof Hw as (Hic & Hip & Hd).
  rewrite (Hd depth) by (pose proof (height_nonneg (mkBlock u c p ch)); lia).
  destruct (beyond_maxDepth o' depth); [reflexivity|].
  cbv zeta. unfold with_properties, wanted_children.
  rewrite (wanted_properties_same o o') by exact Hip. rewrite Hic. cbn [children].
  destruct (includeChildren o'); [|reflexivity].
  apply fold_left_ext_In. intros child Hin a.
  rewrite Forall_forall in IH. apply (IH child Hin).
  eapply same_walk_within_child; eassumption.
Qed.

Lemma asciidoc_processBlock_within o o' :
  forall b lines depth st,
    same_walk_within o o' depth (depth + height b) ->
    AsciiDocConverter.processBlock b lines depth o st
    = AsciiDocConverter.processBlock b lines depth o' st.
Proof.
  induction b as [u c p ch IH] using LogseqBlock_tree_ind.
  intros lines depth st Hw. rewrite !asciidoc_processBlock_eq.
  pose proof Hw as (Hic & Hip & Hd).
  rewrite (Hd depth) by (pose proof (height_nonneg (mkBlock u c p ch)); lia).
  destruct (beyond_maxDepth o' depth); [reflexivity|].
  cbv zeta. unfold with_properties, wanted_children.
  rewrite (wanted_properties_same o o') by exact Hip. rewrite Hic. cbn [children].
  destruct (includeChildren o'); [|reflexivity].
  apply fold_left_ext_In. intros child Hin a.
  rewrite Forall_forall in IH. apply (IH child Hin).
  eapply same_walk_within_child; eassumption.
Qed.

Lemma blockToExport_height (rawBlock : RawBlock) (options : ExportOptions) :
  height (ExportService.blockToExport rawBlock options)
  <= Z.max 0 (ExportService.maxDepth_or_10 options).
Proof.
  unfold ExportService.blockToExport. destruct (includeChildren options).
  - pose proof (proj1 (fetched_tree_is_cut_aux rawBlock 0
                         (ExportService.maxDepth_or_10 options))) as H.
    rewrite Z.sub_0_r in H. exact H.
  - destruct rawBlock. cbn [LogseqAPI.transformBlock height fold_right]. lia.
Qed.

Lemma maxDepth_or_10_positive (options : ExportOptions) :
  match maxDepth options with Some m => 0 <= m | None => True end ->
  0 < ExportService.maxDepth_or_10 options.
Proof.
  unfold ExportService.maxDepth_or_10. destruct (maxDepth options) as [m|]; [|lia].
  intros Hm. destruct (m =? 0) eqn:E; [lia|]. apply Z.eqb_neq in E. lia.
Qed.

Lemma fetched_walk_within (options : ExportOptions) (hi : Z) :
  match maxDepth options with Some m => 0 <= m | None => True end ->
  hi <= ExportService.maxDepth_or_10 options ->
  same_walk_within options (without_maxDepth options) 0 hi.
Proof.
  intros Hm Hhi. repeat split. intros depth Hd.
  unfold beyond_maxDepth, without_maxDepth, ExportService.maxDepth_or_10 in *.
  cbn [maxDepth]. destruct (maxDepth options) as [m|]; [|reflexivity].
  destruct (m =? 0) eqn:E; [reflexivity|].
  cbn [negb andb]. rewrite Z.gtb_ltb. apply Z.ltb_ge. lia.
Qed.

(** In [exportBlock] the tree has been cut at [maxDepth || 10] by the fetch
    before it is converted.  For a [maxDepth] that is absent or not negative
    the converters' own depth test therefore never fires: the result is the
    one the conversion gives without [maxDepth], in the three formats, and
    every block of the converted tree lies within the limit. *)
Theorem export_depth_limit_comes_from_fetch
        (st : AsciiDocConverter.State) (rawBlock : RawBlock) (options : ExportOptions) :
  match maxDepth options with Some m => 0 <= m | None => True end ->
  let b := ExportService.blockToExport rawBlock options in
  ExportService.exportBlock st (Some rawBlock) options
  = Some (convert_from st b (without_maxDepth options))
  /\ height b <= ExportService.maxDepth_or_10 options.
Proof.
  intros Hm b. subst b.
  pose proof (blockToExport_height rawBlock options) as Hh.
  pose proof (maxDepth_or_10_positive options Hm) as Hpos.
  assert (Hh' : height (ExportService.blockToExport rawBlock options)
                <= ExportService.maxDepth_or_10 options) by lia.
  split; [|exact Hh'].
  unfold ExportService.exportBlock. f_equal.
  pose proof (fetched_walk_within options _ Hm Hh') as Hw.
  set (b := ExportService.blockToExport rawBlock options) in *.
  unfold convert_from. cbn [without_maxDepth format].
  destruct (format options) eqn:Ef.
  - unfold MarkdownConverter.convertBlock.
    rewrite (markdown_processBlock_within options (without_maxDepth options) b [] 0)
      by exact Hw.
    now rewrite (countBlocks_ext options (without_maxDepth options)).
  - unfold AsciiDocConverter.convertBlock. cbn [fst].
    rewrite (asciidoc_processBlock_within options (without_maxDepth options) b [] 0 None)
      by exact Hw.
    now rewrite (countBlocks_ext options (without_maxDepth options)).
  - unfold HtmlConverter.convertBlock.
    rewrite (countBlocks_ext options (without_maxDepth options)) by reflexivity.
    f_equal. unfold HtmlConverter.generateHtml.
    destruct Hw as (_ & _ & Hd).
    rewrite (Hd 0) by (pose proof (height_nonneg b); lia).
    rewrite (wanted_properties_same options (without_maxDepth options)) by reflexivity.
    assert (Hfold :
              fold_left (fun html child => html ++ HtmlConverter.generateListItem child options)
                (children b) []
              = fold_left
                  (fun html child =>
                     html ++ HtmlConverter.generateListItem child (without_maxDepth options))
                  (children b) []).
    { apply fold_left_ext_In. intros child _ a. f_equal.
      destruct options as [f ic ip md].
      apply html_generateListItem_ignores_maxDepth. }
    rewrite Hfold. reflexivity.
Qed.

Lemma export_depth_limit_comes_from_fetch_witness :
  ExportService.exportBlock None
    (Some (mkRaw [] (Some (js "a")) None
             [mkRaw [] (Some (js "b")) None [mkRaw [] (Some (js "c")) None []]]))
    (mkOptions html true false (Some 1))
  = Some (mkResult (js "a<ul><li>b</li></ul>") html 2).
Proof.
  pose proof (export_depth_limit_comes_from_fetch None
                (mkRaw [] (Some (js "a")) None
                   [mkRaw [] (Some (js "b")) None [mkRaw [] (Some (js "c")) None []]])
                (mkOptions html true false (Some 1))) as H.
  destruct H as [H _]; [cbn [maxDepth]; lia|].
  rewrite H. vm_compute. reflexivity.
Defined.

(** A negative [maxDepth] is not covered: the fetch keeps the block, the
    converter drops it. *)
Example export_negative_maxDepth :
  ExportService.exportBlock None (Some (mkRaw [] (Some (js "a")) None []))
    (mkOptions markdown true false (Some (-1)))
  = Some (mkResult [] markdown 1).
Proof. vm_compute. reflexivity. Qed.

(* ================================================================== *)
(** * Further properties of the tokenizer *)
(* ================================================================== *)

Module TokenKinds.
Import LogseqParser.

Ltac kind_of H :=
  repeat match type of H with
         | context [if ?c then _ else _] => destruct c; [try discriminate|try discriminate]
         | context [match re_match ?r ?s with _ => _ end] =>
             destruct (re_match r s); [|try discriminate]
         end;
  try (inversion H; subst; reflexivity).

Lemma tryMatchCodeBlock_type c p t : tryMatchCodeBlock c p = Some t -> type t = codeBlock.
Proof. unfold tryMatchCodeBlock. intros H. kind_of H. Qed.

Lemma tryMatchQuery_type c p t :
  tryMatchQuery c p = Some t -> type t = videoEmbed \/ type t = query.
Proof.
  unfold tryMatchQuery, tryMatchVideoEmbed. intros H.
  destruct (re_match re_video _); [inversion H; now left|].
  destruct (re_match re_youtube _); [inversion H; now left|].
  destruct (re_match re_vimeo _); [inversion H; now left|].
  destruct (re_match re_query _); [inversion H; now right|discriminate].
Qed.

Lemma tryMatchTaskMarker_type c p t :
  tryMatchTaskMarker c p = Some t -> type t = taskMarker.
Proof. unfold tryMatchTaskMarker. intros H. kind_of H. Qed.

Lemma tryMatchBlockquote_type c p t :
  tryMatchBlockquote c p = Some t -> type t = blockquote.
Proof. unfold tryMatchBlockquote. intros H. kind_of H. Qed.

Lemma tryMatchImage_type c p t : tryMatchImage c p = Some t -> type t = image.
Proof. unfold tryMatchImage. intros H. kind_of H. Qed.

Lemma tryMatchMarkdownLink_type c p t :
  tryMatchMarkdownLink c p = Some t -> type t = markdownLink.
Proof. unfold tryMatchMarkdownLink. intros H. kind_of H. Qed.

Lemma tryMatchBlockRef_type c p t : tryMatchBlockRef c p = Some t -> type t = blockRef.
Proof. unfold tryMatchBlockRef. intros H. kind_of H. Qed.

Lemma tryMatchNakedUrl_type c p t : tryMatchNakedUrl c p = Some t -> type t = nakedUrl.
Proof. unfold tryMatchNakedUrl. intros H. kind_of H. Qed.

Lemma tryMatchHighlight_type c p t : tryMatchHighlight c p = Some t -> type t = highlight.
Proof. unfold tryMatchHighlight. intros H. kind_of H. Qed.

Lemma tryMatchBold_type c p t : tryMatchBold c p = Some t -> type t = bold.
Proof. unfold tryMatchBold. intros H. kind_of H. Qed.

Lemma tryMatchTag_type c p t : tryMatchTag c p = Some t -> type t = tag.
Proof. unfold tryMatchTag. intros H. kind_of H. Qed.

Lemma matchText_type c p : type (matchText c p) = text.
Proof.
  unfold matchText.
  repeat match goal with
         | |- context [if ?c then _ else _] => destruct c
         end; reflexivity.
Qed.

(** Where a token of the scan loop comes from, by its kind. *)
Lemma nextToken_origin (c : jsstring) (p : Z) :
  let t := nextToken c p in
  match type t with
  | codeBlock => tryMatchCodeBlock c p = Some t
  | videoEmbed | query => tryMatchCodeBlock c p = None /\ tryMatchQuery c p = Some t
  | taskMarker => tryMatchTaskMarker c p = Some t
  | blockquote => tryMatchBlockquote c p = Some t
  | image => tryMatchImage c p = Some t
  | markdownLink => tryMatchMarkdownLink c p = Some t
  | blockRef => tryMatchBlockRef c p = Some t
  | nakedUrl => tryMatchNakedUrl c p = Some t
  | highlight => tryMatchHighlight c p = Some t
  | bold => tryMatchBold c p = Some t
  | tag => tryMatchTag c p = Some t
  | text => t = matchText c p /\ tryMatchBlockquote c p = None
  end.
Proof.
  unfold nextToken, orElse.
  destruct (tryMatchCodeBlock c p) as [t|] eqn:E1;
    [rewrite (tryMatchCodeBlock_type _ _ _ E1); reflexivity|].
  destruct (tryMatchQuery c p) as [t|] eqn:E2;
    [destruct (tryMatchQuery_type _ _ _ E2) as [-> | ->]; auto|].
  destruct (tryMatchTaskMarker c p) as [t|] eqn:E3;
    [rewrite (tryMatchTaskMarker_type _ _ _ E3); reflexivity|].
  destruct (tryMatchBlockquote c p) as [t|] eqn:E4;
    [rewrite (tryMatchBlockquote_type _ _ _ E4); reflexivity|].
  destruct (tryMatchImage c p) as [t|] eqn:E5;
    [rewrite (tryMatchImage_type _ _ _ E5); reflexivity|].
  destruct (tryMatchMarkdownLink c p) as [t|] eqn:E6;
    [rewrite (tryMatchMarkdownLink_type _ _ _ E6); reflexivity|].
  destruct (tryMatchBlockRef c p) as [t|] eqn:E7;
    [rewrite (tryMatchBlockRef_type _ _ _ E7); reflexivity|].
  destruct (tryMatchNakedUrl c p) as [t|] eqn:E8;
    [rewrite (tryMatchNakedUrl_type _ _ _ E8); reflexivity|].
  destruct (tryMatchHighlight c p) as [t|] eqn:E9;
    [rewrite (tryMatchHighlight_type _ _ _ E9); reflexivity|].
  destruct (tryMatchBold c p) as [t|] eqn:E10;
    [rewrite (tryMatchBold_type _ _ _ E10); reflexivity|].
  destruct (tryMatchTag c p) as [t|] eqn:E11;
    [rewrite (tryMatchTag_type _ _ _ E11); reflexivity|].
  rewrite matchText_type. auto.
Qed.

End TokenKinds.

(** Task markers and blockquotes are recognised at the start of the content
    and right after a line feed, nowhere else: a token of one of these two
    kinds at position [pos] means that [pos] is 0 or that the character before
    it is a line feed. *)
Theorem line_start_tokens_only_at_line_start (content : jsstring) (pos : Z) :
  0 <= pos ->
  type (LogseqParser.nextToken content pos) = taskMarker
  \/ type (LogseqParser.nextToken content pos) = blockquote ->
  pos = 0 \/ charAt content (pos - 1) = Some nl.
Proof.
  intros Hpos Hty.
  pose proof (TokenKinds.nextToken_origin content pos) as Ho. cbv zeta in Ho.
  assert (Hstart : LogseqParser.not_at_line_start content pos = false).
  { destruct Hty as [Hty|Hty]; rewrite Hty in Ho.
    - unfold LogseqParser.tryMatchTaskMarker in Ho.
      destruct (LogseqParser.not_at_line_start content pos); [discriminate|reflexivity].
    - unfold LogseqParser.tryMatchBlockquote in Ho.
      destruct (LogseqParser.not_at_line_start content pos); [discriminate|reflexivity]. }
  unfold LogseqParser.not_at_line_start in Hstart.
  destruct (0 <? pos) eqn:E.
  - right. cbn [andb] in Hstart. unfold char_neq in Hstart.
    destruct (charAt content (pos - 1)) as [x|]; [|discriminate].
    apply negb_false_iff in Hstart. apply N.eqb_eq in Hstart. now subst x.
  - left. apply Z.ltb_ge in E. lia.
Qed.

Lemma line_start_tokens_only_at_line_start_witness :
  6 = 0 \/ charAt (js "intro" ++ [nl] ++ js "> quote") (6 - 1) = Some nl.
Proof.
  apply (line_start_tokens_only_at_line_start (js "intro" ++ [nl] ++ js "> quote") 6).
  - lia.
  - right. vm_compute. reflexivity.
Defined.

(** In the middle of a line the keyword and the [>] are plain text. *)
Example task_keyword_inside_a_line :
  List.map summary (LogseqParser.parse (js "This TODO is > not a marker"))
  = [(text, js "This TODO is > not a marker", 27)].
Proof. vm_compute. reflexivity. Qed.

(** ** Text tokens and their source *)

Lemma substring_span (s : jsstring) (a L : Z) :
  0 <= a -> 0 <= L -> a + L <= len s ->
  substring s a (a + L) = firstn (Z.to_nat L) (skipn (Z.to_nat a) s).
Proof.
  intros Ha HL Hb. unfold substring.
  replace (Z.max 0 (Z.min a (len s))) with a by lia.
  replace (Z.max 0 (Z.min (a + L) (len s))) with (a + L) by lia.
  replace (Z.min a (a + L)) with a by lia.
  replace (Z.max a (a + L) - a) with L by lia.
  reflexivity.
Qed.

Lemma substring_of_rest (s : jsstring) (a L : Z) :
  0 <= a -> 0 <= L -> a + L <= len s ->
  substring (substring_from s a) 0 L = substring s a (a + L).
Proof.
  intros Ha HL Hb.
  rewrite (substring_span s a L) by lia.
  replace L with (0 + L) at 1 by lia.
  rewrite (substring_span (substring_from s a) 0 L);
    [reflexivity|lia|lia|rewrite len_substring_from; lia].
Qed.

Lemma matchText_value (content : jsstring) (pos : Z) :
  value (LogseqParser.matchText content pos)
  = substring (substring_from content pos) 0
      (length (LogseqParser.matchText content pos)).
Proof.
  unfold LogseqParser.matchText.
  repeat match goal with
         | |- context [if ?c then _ else _] => destruct c
         end; try reflexivity.
  cbn [value length]. unfold substring.
  pose proof (len_nonneg (substring_from content pos)).
  replace (Z.max 0 (Z.min 0 (len (substring_from content pos)))) with 0 by lia.
  reflexivity.
Qed.

Lemma text_token_span (content : jsstring) (pos : Z) :
  0 <= pos < len content ->
  type (LogseqParser.nextToken content pos) = text ->
  value (LogseqParser.nextToken content pos)
  = firstn (Z.to_nat (length (LogseqParser.nextToken content pos)))
      (skipn (Z.to_nat pos) content).
Proof.
  intros Hpos Hty.
  pose proof (ParserFacts.nextToken_bounds content pos Hpos) as Hb. unfold in_bounds in Hb.
  pose proof (TokenKinds.nextToken_origin content pos) as Ho. cbv zeta in Ho.
  rewrite Hty in Ho. destruct Ho as [Ho _].
  rewrite <- (substring_span content pos) by lia.
  rewrite <- substring_of_rest by lia.
  rewrite Ho at 1. rewrite matchText_value. now rewrite <- Ho.
Qed.

(** A text token carries exactly the characters of its source span: its value
    is the part of the content from the position where it was scanned up to
    that position plus its length. *)
Theorem text_token_is_its_span (content : jsstring) (pos : Z) :
  0 <= pos < len content ->
  type (LogseqParser.nextToken content pos) = text ->
  value (LogseqParser.nextToken content pos)
  = substring content pos (pos + length (LogseqParser.nextToken content pos))
  /\ len (value (LogseqParser.nextToken content pos))
     = length (LogseqParser.nextToken content pos).
Proof.
  intros Hpos Hty.
  pose proof (ParserFacts.nextToken_bounds content pos Hpos) as Hb. unfold in_bounds in Hb.
  rewrite (text_token_span content pos Hpos Hty).
  split; [now rewrite substring_span by lia|].
  unfold len in *. rewrite List.length_firstn, List.length_skipn. lia.
Qed.

Lemma text_token_is_its_span_witness :
  value (LogseqParser.nextToken (js "ab [[c]] de") 8)
  = substring (js "ab [[c]] de") 8
      (8 + length (LogseqParser.nextToken (js "ab [[c]] de") 8)).
Proof.
  apply (text_token_is_its_span (js "ab [[c]] de") 8).
  - vm_compute. split; [discriminate|reflexivity].
  - vm_compute. reflexivity.
Defined.

Lemma tiles_text_values (content : jsstring) (pos : Z) (ts : list Token) :
  tiles content pos ts ->
  Forall (fun t => type t = text) ts ->
  List.concat (List.map value ts) = skipn (Z.to_nat pos) content.
Proof.
  induction 1 as [|pos t ts H0 H1 H2 Ht Hrest IH]; intros Hall.
  - unfold len. rewrite Nat2Z.id. now rewrite skipn_all.
  - inversion Hall as [|t' ts' Hty Hall']; subst t' ts'.
    cbn [List.map List.concat]. rewrite (IH Hall').
    assert (Hpos : 0 <= pos < len content) by lia.
    subst t.
    rewrite (text_token_span content pos Hpos Hty).
    set (L := length (LogseqParser.nextToken content pos)) in *.
    replace (Z.to_nat (pos + L)) with (Z.to_nat L + Z.to_nat pos)%nat by lia.
    rewrite <- skipn_skipn. apply firstn_skipn.
Qed.

Lemma generate_with_text (g : Token -> jsstring) (ts : list Token) :
  Forall (fun t => g t = value t) ts ->
  generate_with g ts = List.concat (List.map value ts).
Proof.
  intros H. unfold generate_with. rewrite join_nil_concat.
  induction H as [|t ts Ht _ IH]; [reflexivity|].
  cbn [List.map List.concat]. now rewrite Ht, IH.
Qed.

Lemma escapeHtml_concat (l : list jsstring) :
  escapeHtml (List.concat l) = List.concat (List.map escapeHtml l).
Proof.
  induction l as [|x l IH]; [reflexivity|].
  cbn [List.concat List.map]. now rewrite escapeHtml_app, IH.
Qed.

(** When the tokenizer finds nothing but text in a content, the Markdown
    rendering of the tokens gives the content back unchanged and the HTML
    rendering is the escaped content. *)
Theorem plain_content_round_trip (content : jsstring) :
  Forall (fun t => type t = text) (LogseqParser.parse content) ->
  MarkdownConverter.convertLogseqSyntax content = content
  /\ HtmlConverter.convertLogseqSyntax content = escapeHtml content.
Proof.
  intros Hall.
  pose proof (tiles_text_values content 0 _ (parse_tiles content) Hall) as Hc.
  cbn [Z.to_nat skipn] in Hc. split.
  - unfold MarkdownConverter.convertLogseqSyntax, MarkdownGenerator.generate.
    rewrite generate_with_text; [exact Hc|].
    eapply Forall_impl; [|exact Hall].
    intros t Hty. unfold MarkdownGenerator.generateToken. now rewrite Hty.
  - unfold HtmlConverter.convertLogseqSyntax, HtmlGenerator.generate, generate_with.
    rewrite join_nil_concat.
    replace (escapeHtml content)
      with (escapeHtml (List.concat (List.map value (LogseqParser.parse content))))
      by (now rewrite Hc).
    rewrite escapeHtml_concat, List.map_map. f_equal.
    apply map_ext_in. intros t Hin. rewrite Forall_forall in Hall.
    unfold HtmlGenerator.generateToken. now rewrite (Hall t Hin).
Qed.

Lemma plain_content_round_trip_witness :
  MarkdownConverter.convertLogseqSyntax (js "a < b [ c")
  = js "a < b [ c".
Proof.
  apply (plain_content_round_trip (js "a < b [ c")).
  vm_compute. repeat constructor.
Defined.

(** ** Content without markup *)

Lemma re_search_none (r : regex) (s : jsstring) :
  re_search r s = -1 -> re_match r s = None.
Proof.
  unfold re_search. destruct s as [|x s]; simpl;
    destruct (re_match r _); intros H; [discriminate|reflexivity|discriminate|reflexivity].
Qed.

Lemma re_match_starts_with (x : char) (l : jsstring) (r : regex) (s : jsstring) :
  re_match (RSeq (RLit (x :: l)) r) s <> None -> exists s', s = x :: s'.
Proof.
  unfold re_match. cbn [rmatch].
  destruct (strip_prefix (x :: l) s) as [s'|] eqn:E; [|congruence].
  apply strip_prefix_app in E. intros _. exists (l ++ s'). exact E.
Qed.

Module PlainText.
Import LogseqParser.

Lemma not_special_first (s : jsstring) (l0 : jsstring) (r : regex) :
  re_search re_specialChars s = -1 ->
  (exists x l, l0 = x :: l /\ re_match re_specialChars [x] <> None) ->
  re_match (RSeq (RLit l0) r) s = None.
Proof.
  intros no_special (x & l & -> & Hx).
  destruct (re_match (RSeq (RLit (x :: l)) r) s) eqn:E; [|reflexivity].
  exfalso. destruct (re_match_starts_with x l r s) as (s' & Hs); [congruence|].
  apply re_search_none in no_special. subst s.
  revert Hx no_special. unfold re_match, re_specialChars. cbn [rmatch].
  match goal with
  | |- context [if ?c then _ else _] => destruct c
  end; [discriminate|congruence].
Qed.

Ltac special_literal :=
  eexists; eexists; split; [reflexivity|vm_compute; discriminate].

Lemma no_codeBlock (s : jsstring) :
  re_search re_specialChars s = -1 -> tryMatchCodeBlock s 0 = None.
Proof.
  intros no_special.
  unfold tryMatchCodeBlock. change (substring_from s 0) with s.
  unfold re_codeBlock. now rewrite not_special_first by (auto; special_literal).
Qed.

Lemma no_query (s : jsstring) :
  re_search re_specialChars s = -1 -> tryMatchQuery s 0 = None.
Proof.
  intros no_special.
  unfold tryMatchQuery, tryMatchVideoEmbed. change (substring_from s 0) with s.
  unfold re_video, re_youtube, re_vimeo, re_query.
  now rewrite !not_special_first by (auto; special_literal).
Qed.

Lemma no_image (s : jsstring) :
  re_search re_specialChars s = -1 -> tryMatchImage s 0 = None.
Proof.
  intros no_special.
  unfold tryMatchImage. change (substring_from s 0) with s.
  unfold re_image. now rewrite not_special_first by (auto; special_literal).
Qed.

Lemma no_markdownLink (s : jsstring) :
  re_search re_specialChars s = -1 -> tryMatchMarkdownLink s 0 = None.
Proof.
  intros no_special.
  unfold tryMatchMarkdownLink. change (substring_from s 0) with s.
  unfold re_markdownLink. now rewrite not_special_first by (auto; special_literal).
Qed.

Lemma no_blockRef (s : jsstring) :
  re_search re_specialChars s = -1 -> tryMatchBlockRef s 0 = None.
Proof.
  intros no_special.
  unfold tryMatchBlockRef. change (substring_from s 0) with s.
  unfold re_blockRef. now rewrite not_special_first by (auto; special_literal).
Qed.

Lemma no_highlight (s : jsstring) :
  re_search re_specialChars s = -1 -> tryMatchHighlight s 0 = None.
Proof.
  intros no_special.
  unfold tryMatchHighlight. change (substring_from s 0) with s.
  unfold re_highlight. now rewrite not_special_first by (auto; special_literal).
Qed.

Lemma no_bold (s : jsstring) :
  re_search re_specialChars s = -1 -> tryMatchBold s 0 = None.
Proof.
  intros no_special.
  unfold tryMatchBold. change (substring_from s 0) with s.
  unfold re_bold. now rewrite not_special_first by (auto; special_literal).
Qed.

Lemma no_tag (s : jsstring) :
  re_search re_specialChars s = -1 -> tryMatchTag s 0 = None.
Proof.
  intros no_special.
  unfold tryMatchTag. change (substring_from s 0) with s.
  unfold re_tag. now rewrite not_special_first by (auto; special_literal).
Qed.

Lemma no_nakedUrl (s : jsstring) :
  re_search re_scheme s = -1 -> tryMatchNakedUrl s 0 = None.
Proof.
  intros no_url.
  unfold tryMatchNakedUrl. change (substring_from s 0) with s.
  destruct (re_match re_nakedUrl s) eqn:E; [|reflexivity]. exfalso.
  assert (Hm : re_match re_nakedUrl s <> None) by congruence.
  apply re_match_iff in Hm as (pre & rest & Hs & Hm).
  unfold re_nakedUrl in Hm. inversion Hm as [| | | | | | | |i a pre' rest' Hseq|]; subst.
  inversion Hseq as [| |a b p1 p2 rest' H1 H2| | | | | | |]; subst.
  apply re_search_none in no_url.
  assert (Hyes : re_match re_scheme ((p1 ++ p2) ++ rest) <> None).
  { apply re_match_iff. exists p1, (p2 ++ rest). split; [now rewrite app_assoc|exact H1]. }
  contradiction.
Qed.

End PlainText.

Lemma substring_whole (s : jsstring) : substring s 0 (len s) = s.
Proof.
  pose proof (len_nonneg s). replace (len s) with (0 + len s) at 1 by lia.
  rewrite substring_span by lia. cbn [Z.to_nat skipn].
  unfold len. rewrite Nat2Z.id. apply firstn_all.
Qed.

(** A content with none of the special characters, no URL scheme, no line
    feed followed by [>], no task keyword at its start and no [>] at its
    start is one text token that holds the whole content. *)
Theorem plain_text_is_one_token (s : jsstring) :
  s <> [] ->
  re_search LogseqParser.re_specialChars s = -1 ->
  re_search LogseqParser.re_scheme s = -1 ->
  re_search LogseqParser.re_newlineBlockquote s = -1 ->
  re_test LogseqParser.re_taskMarker s = false ->
  startsWith s (js ">") = false ->
  LogseqParser.parse s = [mkToken text s None (len s)].
Proof.
  intros Hne Hsp Hurl Hnl Htask Hgt.
  assert (Htok : LogseqParser.nextToken s 0 = mkToken text s None (len s)).
  { unfold LogseqParser.nextToken, LogseqParser.orElse.
    rewrite (PlainText.no_codeBlock s Hsp), (PlainText.no_query s Hsp).
    assert (Ht : LogseqParser.tryMatchTaskMarker s 0 = None).
    { unfold LogseqParser.tryMatchTaskMarker. cbn [LogseqParser.not_at_line_start Z.ltb Z.compare andb].
      change (substring_from s 0) with s. unfold re_test in Htask.
      now destruct (re_match LogseqParser.re_taskMarker s). }
    assert (Hb : LogseqParser.tryMatchBlockquote s 0 = None).
    { unfold LogseqParser.tryMatchBlockquote. cbn [LogseqParser.not_at_line_start Z.ltb Z.compare andb].
      change (substring_from s 0) with s.
      unfold re_match, LogseqParser.re_blockquote. cbn [rmatch].
      unfold startsWith in Hgt.
      destruct (strip_prefix (js ">") s); [discriminate|reflexivity]. }
    rewrite Ht, Hb, (PlainText.no_image s Hsp), (PlainText.no_markdownLink s Hsp),
      (PlainText.no_blockRef s Hsp), (PlainText.no_nakedUrl s Hurl),
      (PlainText.no_highlight s Hsp), (PlainText.no_bold s Hsp), (PlainText.no_tag s Hsp).
    unfold LogseqParser.matchText. change (substring_from s 0) with s.
    cbn [Z.eqb orb]. rewrite Htask, Hgt, Hsp, Hurl, Hnl.
    cbn [andb negb Z.eqb Pos.eqb orb]. now rewrite substring_whole. }
  unfold LogseqParser.parse, LogseqParser.parse_fuel.
  destruct s as [|x s]; [contradiction|].
  cbn [List.length LogseqParser.parse_loop].
  assert (Hlt : (0 <? len (x :: s)) = true)
    by (apply Z.ltb_lt; rewrite len_cons; pose proof (len_nonneg s); lia).
  rewrite Hlt, Htok. cbn [length app].
  assert (Hge : (0 + len (x :: s) <? len (x :: s)) = false) by (apply Z.ltb_ge; lia).
  destruct (List.length s); cbn [LogseqParser.parse_loop]; now rewrite Hge.
Qed.

Lemma plain_text_is_one_token_witness :
  LogseqParser.parse (js "Just plain text") = [mkToken text (js "Just plain text") None 15].
Proof.
  apply (plain_text_is_one_token (js "Just plain text"));
    try (vm_compute; reflexivity).
  discriminate.
Defined.

(** ** What each pattern captures *)

Lemma firstn_prefix_eq {A : Type} (s pre rest : list A) :
  s = pre ++ rest -> firstn (List.length s - List.length rest) s = pre.
Proof. intros ->. apply firstn_prefix. Qed.

Lemma span_of_prefix (content : jsstring) (pos : Z) (pre rest : jsstring) :
  0 <= pos <= len content ->
  substring_from content pos = pre ++ rest ->
  substring content pos (pos + len pre) = pre.
Proof.
  intros Hpos Hs.
  assert (Hl : len content - pos = len pre + len rest)
    by (rewrite <- len_substring_from, Hs, len_app by lia; reflexivity).
  pose proof (len_nonneg pre). pose proof (len_nonneg rest).
  rewrite substring_span by lia. unfold substring_from in Hs. rewrite Hs.
  unfold len. rewrite Nat2Z.id. rewrite firstn_app, Nat.sub_diag, firstn_all.
  cbn [firstn]. apply app_nil_r.
Qed.

Module Captures.
Import LogseqParser.

(** Unpacks [re_match r s = Some m] into the run of the matcher. *)
Ltac open_match H E :=
  unfold re_match in H; cbn [rmatch] in H;
  match type of H with
  | match ?x with _ => _ end = Some _ =>
      destruct x as [[?rest ?c]|] eqn:E; [|discriminate]
  end.

Ltac literal E s' :=
  match type of E with
  | context [strip_prefix ?l ?s] =>
      let F := fresh "F" in
      destruct (strip_prefix l s) as [s'|] eqn:F; [|discriminate];
      apply strip_prefix_app in F; subst s
  end.

Ltac list_eq := repeat progress (simpl; rewrite <- ?app_assoc); reflexivity.

Lemma markdownLink_captures (rem : jsstring) (m : MatchResult) :
  re_match re_markdownLink rem = Some m ->
  exists t1 t2 rest,
    rem = m0 m ++ rest
    /\ m0 m = js "[" ++ t1 ++ js "](" ++ t2 ++ js ")"
    /\ g1 m = Some t1 /\ g2 m = Some t2.
Proof.
  intros H. unfold re_markdownLink in H. open_match H E.
  literal E s1.
  apply rep_greedy_inv in E as (t1 & s2 & -> & _ & _ & E).
  literal E s3.
  apply rep_greedy_inv in E as (t2 & s4 & -> & _ & _ & E).
  literal E s5.
  rewrite !firstn_prefix in E. injection E as <- <-.
  rewrite (firstn_prefix_eq _ (js "[" ++ t1 ++ js "](" ++ t2 ++ js ")") s5) in H
    by (now rewrite <- !app_assoc).
  injection H as <-. cbn [m0 g1 g2 fst snd setcap no_caps].
  exists t1, t2, s5. repeat split; list_eq.
Qed.

Lemma image_captures (rem : jsstring) (m : MatchResult) :
  re_match re_image rem = Some m ->
  exists t1 t2 rest,
    rem = m0 m ++ rest
    /\ m0 m = js "![" ++ t1 ++ js "](" ++ t2 ++ js ")"
    /\ g1 m = Some t1 /\ g2 m = Some t2.
Proof.
  intros H. unfold re_image in H. open_match H E.
  literal E s1.
  apply rep_greedy_inv in E as (t1 & s2 & -> & _ & _ & E).
  literal E s3.
  apply rep_greedy_inv in E as (t2 & s4 & -> & _ & _ & E).
  literal E s5.
  rewrite !firstn_prefix in E. injection E as <- <-.
  rewrite (firstn_prefix_eq _ (js "![" ++ t1 ++ js "](" ++ t2 ++ js ")") s5) in H
    by (now rewrite <- !app_assoc).
  injection H as <-. cbn [m0 g1 g2 fst snd setcap no_caps].
  exists t1, t2, s5. repeat split; list_eq.
Qed.

Lemma nakedUrl_captures (rem : jsstring) (m : MatchResult) :
  re_match re_nakedUrl rem = Some m ->
  g1 m = Some (m0 m) /\ exists rest, rem = m0 m ++ rest.
Proof.
  intros H. split; [|destruct (re_match_prefix _ _ _ H) as (rest & Hr & _); eauto].
  unfold re_nakedUrl in H. open_match H E.
  apply rmatch_inv in E as (pre & s' & c' & _ & E & _).
  apply rep_greedy_inv in E as (url & s'' & _ & _ & _ & E).
  injection E as <- <-. injection H as <-. reflexivity.
Qed.

Lemma codeBlock_captures (rem : jsstring) (m : MatchResult) :
  re_match re_codeBlock rem = Some m ->
  exists lang body rest,
    rem = m0 m ++ rest
    /\ m0 m = js "```" ++ lang ++ [nl] ++ body ++ js "```"
    /\ str_or (g1 m) [] = lang /\ g2 m = Some body
    /\ forallb is_word lang = true.
Proof.
  intros H. unfold re_codeBlock in H. open_match H E.
  literal E s1.
  assert (Hbody : forall s c0 rest0 c1,
             match strip_prefix [nl] s with
             | Some s3 =>
                 rep_lazy is_any
                   (fun s4 =>
                      match strip_prefix (js "```") s4 with
                      | Some s5 =>
                          Some (s5, setcap 2 (firstn (List.length s3 - List.length s4) s3) c0)
                      | None => None
                      end) 0 s3
             | None => None
             end = Some (rest0, c1) ->
             exists body, s = [nl] ++ body ++ js "```" ++ rest0 /\ c1 = setcap 2 body c0).
  { intros s c0 rest0 c1 Hk.
    destruct (strip_prefix [nl] s) as [s3|] eqn:F; [|discriminate].
    apply strip_prefix_app in F. subst s.
    apply rep_lazy_inv in Hk as (body & s4 & -> & _ & _ & Hk).
    destruct (strip_prefix (js "```") s4) as [s5|] eqn:F; [|discriminate].
    apply strip_prefix_app in F. subst s4.
    rewrite firstn_prefix in Hk. injection Hk as <- <-. eauto. }
  match type of E with
  | match ?x with _ => _ end = _ => destruct x as [[rest' c']|] eqn:Eg
  end.
  - injection E as <- <-.
    apply rep_greedy_inv in Eg as (lang & s2 & -> & Hn & Hw & Eg).
    rewrite firstn_prefix in Eg.
    apply Hbody in Eg as (body & -> & ->).
    rewrite (firstn_prefix_eq _ (js "```" ++ lang ++ [nl] ++ body ++ js "```") rest') in H
      by (now rewrite <- !app_assoc).
    injection H as <-. cbn [m0 g1 g2 fst snd setcap no_caps].
    exists lang, body, rest'. repeat split; auto.
    + list_eq.
    + destruct lang; [simpl in Hn; lia|reflexivity].
  - apply Hbody in E as (body & -> & ->).
    rewrite (firstn_prefix_eq _ (js "```" ++ [] ++ [nl] ++ body ++ js "```") rest) in H
      by (now rewrite <- !app_assoc).
    injection H as <-. cbn [m0 g1 g2 fst snd setcap no_caps].
    exists [], body, rest. repeat split; auto.
    list_eq.
Qed.

End Captures.

(** ** What Markdown keeps as written *)

Lemma str_or_some_nil (x : jsstring) : str_or (Some x) [] = x.
Proof. destruct x; reflexivity. Qed.

Lemma str_or_some_self (x : jsstring) : str_or (Some x) x = x.
Proof. destruct x; reflexivity. Qed.

Lemma markdown_codeBlock_verbatim (content : jsstring) (pos : Z) (t : Token) :
  0 <= pos <= len content ->
  LogseqParser.tryMatchCodeBlock content pos = Some t ->
  MarkdownGenerator.generateToken t = substring content pos (pos + length t).
Proof.
  intros Hpos H. unfold LogseqParser.tryMatchCodeBlock in H.
  destruct (re_match LogseqParser.re_codeBlock (substring_from content pos)) as [m|] eqn:E;
    [|discriminate].
  destruct (Captures.codeBlock_captures _ _ E) as (lang & body & rest & Hr & Hm & Hl & Hb & _).
  injection H as <-. cbn [length].
  rewrite (span_of_prefix content pos (m0 m) rest Hpos Hr).
  unfold MarkdownGenerator.generateToken, MarkdownGenerator.generateCodeBlock, meta.
  cbn [type metadata language value]. rewrite Hl, Hb, Hm, str_or_some_nil. reflexivity.
Qed.

Lemma markdown_nakedUrl_verbatim (content : jsstring) (pos : Z) (t : Token) :
  0 <= pos <= len content ->
  LogseqParser.tryMatchNakedUrl content pos = Some t ->
  MarkdownGenerator.generateToken t = substring content pos (pos + length t).
Proof.
  intros Hpos H. unfold LogseqParser.tryMatchNakedUrl in H.
  destruct (re_match LogseqParser.re_nakedUrl (substring_from content pos)) as [m|] eqn:E;
    [|discriminate].
  destruct (Captures.nakedUrl_captures _ _ E) as (Hg & rest & Hr).
  injection H as <-. cbn [length].
  rewrite (span_of_prefix content pos (m0 m) rest Hpos Hr).
  unfold MarkdownGenerator.generateToken. cbn [type value]. now rewrite Hg.
Qed.

Lemma markdown_link_verbatim (content : jsstring) (pos : Z) (t : Token) :
  0 <= pos <= len content ->
  LogseqParser.tryMatchMarkdownLink content pos = Some t ->
  isExternal t = true ->
  MarkdownGenerator.generateToken t = substring content pos (pos + length t).
Proof.
  intros Hpos H Hext. unfold LogseqParser.tryMatchMarkdownLink in H.
  destruct (re_match LogseqParser.re_markdownLink (substring_from content pos))
    as [m|] eqn:E; [|discriminate].
  destruct (Captures.markdownLink_captures _ _ E) as (t1 & t2 & rest & Hr & Hm & H1 & H2).
  injection H as <-. cbn [length].
  rewrite (span_of_prefix content pos (m0 m) rest Hpos Hr).
  unfold MarkdownGenerator.generateToken, MarkdownGenerator.generateMarkdownLink.
  cbn [type]. rewrite Hext. unfold meta. cbn [metadata linkText linkTarget value].
  rewrite H1, H2, Hm. cbn [group]. now rewrite str_or_some_self, str_or_some_nil.
Qed.

Lemma markdown_image_verbatim (content : jsstring) (pos : Z) (t : Token) :
  0 <= pos <= len content ->
  LogseqParser.tryMatchImage content pos = Some t ->
  isExternal t = true ->
  MarkdownGenerator.generateToken t = substring content pos (pos + length t).
Proof.
  intros Hpos H Hext. unfold LogseqParser.tryMatchImage in H.
  destruct (re_match LogseqParser.re_image (substring_from content pos))
    as [m|] eqn:E; [|discriminate].
  destruct (Captures.image_captures _ _ E) as (t1 & t2 & rest & Hr & Hm & H1 & H2).
  injection H as <-. cbn [length].
  rewrite (span_of_prefix content pos (m0 m) rest Hpos Hr).
  unfold MarkdownGenerator.generateToken, MarkdownGenerator.generateImage.
  cbn [type]. rewrite Hext. unfold meta. cbn [metadata altText linkTarget value].
  rewrite H1, H2, Hm. cbn [group]. now rewrite !str_or_some_nil.
Qed.

(** Markdown keeps four kinds of token exactly as they stand in the content:
    a fenced code block, a bare URL, and a link or an image whose target is
    external.  The rendering of such a token is its source span. *)
Theorem markdown_keeps_source (content : jsstring) (pos : Z) :
  0 <= pos < len content ->
  let t := LogseqParser.nextToken content pos in
  type t = codeBlock \/ type t = nakedUrl
  \/ ((type t = markdownLink \/ type t = image) /\ isExternal t = true) ->
  MarkdownGenerator.generateToken t = substring content pos (pos + length t).
Proof.
  intros Hpos t Hkind. subst t.
  assert (Hpos' : 0 <= pos <= len content) by lia.
  pose proof (TokenKinds.nextToken_origin content pos) as Ho. cbv zeta in Ho.
  destruct Hkind as [Hty|[Hty|[[Hty|Hty] Hext]]]; rewrite Hty in Ho.
  - now apply markdown_codeBlock_verbatim.
  - now apply markdown_nakedUrl_verbatim.
  - now apply markdown_link_verbatim.
  - now apply markdown_image_verbatim.
Qed.

Lemma markdown_keeps_source_witness :
  MarkdownGenerator.generateToken
    (LogseqParser.nextToken (js "see [docs](https://a.b/c) now") 4)
  = substring (js "see [docs](https://a.b/c) now") 4
      (4 + length (LogseqParser.nextToken (js "see [docs](https://a.b/c) now") 4)).
Proof.
  apply (markdown_keeps_source (js "see [docs](https://a.b/c) now") 4).
  - vm_compute. split; [discriminate|reflexivity].
  - right. right. vm_compute. split; [left|]; reflexivity.
Defined.

(** A link to a page is not kept: it becomes bold text with a note. *)
Example markdown_internal_link_rewritten :
  MarkdownConverter.convertLogseqSyntax (js "[See this](Page Name)")
  = js "**See this** (" ++ arrow ++ js " Page Name)".
Proof. vm_compute. reflexivity. Qed.

(** ** Escaping loses nothing *)

Lemma entity_cases (c : char) :
  (c = 38%N /\ entity c = js "&amp;")
  \/ (c = 60%N /\ entity c = js "&lt;")
  \/ (c = 62%N /\ entity c = js "&gt;")
  \/ (c = 34%N /\ entity c = js "&quot;")
  \/ (c = 39%N /\ entity c = js "&#039;")
  \/ (c <> 38%N /\ html_special c = false /\ entity c = [c]).
Proof.
  unfold entity, html_special.
  change (chr "&") with 38%N. change (chr "<") with 60%N. change (chr ">") with 62%N.
  change dq with 34%N. change sq with 39%N.
  destruct (N.eqb c 38) eqn:E1; [apply N.eqb_eq in E1; auto|].
  destruct (N.eqb c 60) eqn:E2; [apply N.eqb_eq in E2; auto|].
  destruct (N.eqb c 62) eqn:E3; [apply N.eqb_eq in E3; auto 6|].
  destruct (N.eqb c 34) eqn:E4; [apply N.eqb_eq in E4; auto 7|].
  destruct (N.eqb c 39) eqn:E5; [apply N.eqb_eq in E5; auto 8|].
  apply N.eqb_neq in E1. auto 10.
Qed.

(** No entity is the beginning of another one. *)
Lemma entity_prefix_free (x y : char) (a b : jsstring) :
  entity x ++ a = entity y ++ b -> x = y /\ a = b.
Proof.
  destruct (entity_cases x) as [[-> ->]|[[-> ->]|[[-> ->]|[[-> ->]|[[-> ->]|(Hx & _ & ->)]]]]];
    destruct (entity_cases y) as [[-> ->]|[[-> ->]|[[-> ->]|[[-> ->]|[[-> ->]|(Hy & _ & ->)]]]]];
    intros H; vm_compute in H; try discriminate;
    try (injection H as H; subst; auto; fail);
    try (injection H as Hc _; congruence).
Qed.

Lemma escape_spec_safe (s : jsstring) :
  forallb (fun c => negb (N.eqb c 38 || html_special c)) s = true ->
  escape_spec s = s.
Proof.
  induction s as [|x s IH]; [reflexivity|].
  cbn [forallb]. intros H. apply andb_true_iff in H as [Hx Hs].
  cbn [escape_spec flat_map]. fold (escape_spec s). rewrite (IH Hs).
  apply negb_true_iff, orb_false_iff in Hx as [Hamp Hsp].
  destruct (entity_cases x) as [[-> _]|[[-> _]|[[-> _]|[[-> _]|[[-> _]|(_ & _ & ->)]]]]];
    try discriminate.
  reflexivity.
Qed.

(** A text without any of the five characters is left as it is. *)
Lemma escapeHtml_keeps_safe_text (s : jsstring) :
  forallb (fun c => negb (N.eqb c 38 || html_special c)) s = true ->
  escapeHtml s = s.
Proof. rewrite escapeHtml_spec. apply escape_spec_safe. Qed.

(** Escaping never makes a text shorter. *)
Lemma escapeHtml_not_shorter (s : jsstring) : len s <= len (escapeHtml s).
Proof.
  rewrite escapeHtml_spec.
  induction s as [|x s IH]; [reflexivity|].
  cbn [escape_spec flat_map]. fold (escape_spec s). rewrite len_app, len_cons.
  assert (1 <= len (entity x)); [|lia].
  destruct (entity_cases x) as [[_ E]|[[_ E]|[[_ E]|[[_ E]|[[_ E]|(_ & _ & E)]]]]];
    rewrite E; vm_compute; discriminate.
Qed.

(** [escapeHtml] is one-to-one: two texts with the same escaped form are the
    same text, so the original can always be recovered from the HTML. *)
Theorem escapeHtml_is_lossless (a b : jsstring) :
  escapeHtml a = escapeHtml b -> a = b.
Proof.
  rewrite !escapeHtml_spec. revert b.
  induction a as [|x a IH]; intros [|y b] H; cbn [escape_spec flat_map] in H.
  - reflexivity.
  - destruct (entity_cases y) as [[_ E]|[[_ E]|[[_ E]|[[_ E]|[[_ E]|(_ & _ & E)]]]]];
      rewrite E in H; discriminate.
  - destruct (entity_cases x) as [[_ E]|[[_ E]|[[_ E]|[[_ E]|[[_ E]|(_ & _ & E)]]]]];
      rewrite E in H; discriminate.
  - apply entity_prefix_free in H as [-> H]. f_equal. now apply IH.
Qed.

Lemma escapeHtml_is_lossless_witness :
  js "a<b & c" = js "a<b & c".
Proof.
  apply (escapeHtml_is_lossless (js "a<b & c") (js "a<b & c")).
  vm_compute. reflexivity.
Defined.

(** Escaping twice is not escaping once: the ampersand of an entity is
    escaped again. *)
Example escapeHtml_twice :
  escapeHtml (escapeHtml (js "<")) = js "&amp;lt;".
Proof. vm_compute. reflexivity. Qed.

(* ================================================================== *)
(** * Further properties of the AsciiDoc converter *)
(* ================================================================== *)

(** ** The marker of a list item *)

Lemma line_not_blank (x : char) (cur : jsstring) :
  is_space x = false -> blank (x :: cur) = false.
Proof.
  intros Hx. unfold blank, trim, trimEnd.
  assert (Hs : trimStart (x :: cur) = x :: cur) by (simpl; now rewrite Hx).
  rewrite Hs.
  assert (H : trimStart (rev (x :: cur)) <> []).
  { apply (trimStart_keeps _ x); [|exact Hx].
    apply in_rev. rewrite rev_involutive. now left. }
  destruct (trimStart (rev (x :: cur))) as [|y l] eqn:E; [contradiction|].
  destruct (rev (y :: l)) eqn:Er; [|reflexivity].
  apply (f_equal (@rev char)) in Er. rewrite rev_involutive in Er. discriminate.
Qed.

(** The first line of a text starts like the text, up to the first line
    feed. *)
Lemma first_line_prefix (p b : jsstring) :
  forallb (fun x => negb (N.eqb x nl)) p = true ->
  exists cur more, split_on nl (p ++ b) = (p ++ cur) :: more.
Proof.
  induction p as [|x p IH]; intros Hp.
  - cbn [app]. pose proof (split_on_nonempty nl b) as Hne.
    destruct (split_on nl b) as [|cur more]; [contradiction|]. eauto.
  - cbn [forallb] in Hp. apply andb_true_iff in Hp as [Hx Hp].
    destruct (IH Hp) as (cur & more & E).
    cbn [app split_on]. rewrite E. apply negb_true_iff in Hx. rewrite Hx. eauto.
Qed.

Lemma dropBlankStart_last (a : list jsstring) (l : jsstring) :
  blank l = false ->
  exists a', AsciiDocConverter.dropBlankStart (a ++ [l]) = a' ++ [l].
Proof.
  intros Hl. induction a as [|y a IH]; cbn [app AsciiDocConverter.dropBlankStart].
  - rewrite Hl. now exists [].
  - destruct (blank y); [exact IH|]. now exists (y :: a).
Qed.

(** Popping the blank lines off the end keeps a first line that is not
    blank. *)
Lemma popBlankLines_first (l : jsstring) (ls : list jsstring) :
  blank l = false ->
  exists ls', AsciiDocConverter.popBlankLines (l :: ls) = l :: ls'.
Proof.
  intros Hl. unfold AsciiDocConverter.popBlankLines. cbn [rev].
  destruct (dropBlankStart_last (rev ls) l Hl) as (a' & ->).
  rewrite rev_app_distr. cbn [rev app]. eauto.
Qed.

Lemma processedLines_nonempty (y : jsstring) (l : list jsstring) :
  AsciiDocConverter.processedLines (y :: l) <> [].
Proof.
  destruct l as [|z l]; cbn [AsciiDocConverter.processedLines]; [discriminate|].
  destruct (blank y); [discriminate|]. destruct (blank z); discriminate.
Qed.

Lemma join_cons (sep a b : jsstring) (l : list jsstring) :
  join sep (a :: b :: l) = a ++ sep ++ join sep (b :: l).
Proof. reflexivity. Qed.

(** The loop of the multi-line case leaves a first line that is not blank in
    front.  (A blank first line would get the continuation sign before it.) *)
Lemma processedLines_first (x : jsstring) (l : list jsstring) :
  blank x = false ->
  exists rest, join [nl] (AsciiDocConverter.processedLines (x :: l)) = x ++ rest.
Proof.
  intros Hx. destruct l as [|y l].
  - exists []. cbn [AsciiDocConverter.processedLines join]. now rewrite app_nil_r.
  - change (AsciiDocConverter.processedLines (x :: y :: l))
      with ((if blank x then [js "+"; x]
             else if blank y then [x ++ js " +"] else [x ++ js " +"])
            ++ AsciiDocConverter.processedLines (y :: l)).
    rewrite Hx.
    remember (AsciiDocConverter.processedLines (y :: l)) as tail eqn:E.
    destruct tail as [|t0 tail];
      [exfalso; symmetry in E; revert E; apply processedLines_nonempty|].
    exists (js " +" ++ [nl] ++ join [nl] (t0 :: tail)).
    destruct (blank y); cbn [app]; rewrite join_cons; now rewrite <- !app_assoc.
Qed.

Lemma stars_first (n : Z) : 1 <= n -> exists r, stars n = 42%N :: r.
Proof.
  intros H. unfold stars, repeat.
  destruct (Z.to_nat n) as [|m] eqn:E; [lia|].
  cbn [repeat_str]. change (js "*") with [42%N]. cbn [app]. eauto.
Qed.

Lemma first_line_of_task (converted : jsstring) :
  startsWith converted (js "* [") = true ->
  exists r more, split_on nl converted = (js "* [" ++ r) :: more.
Proof.
  unfold startsWith. intros H.
  destruct (strip_prefix (js "* [") converted) as [b|] eqn:E; [|discriminate].
  apply strip_prefix_app in E. subst converted.
  apply first_line_prefix. reflexivity.
Qed.

(** Whatever the first line is, the marker is followed by a space: the
    bullet of a rendered task marker is cut off, its space stays. *)
Lemma withMarker_shape (converted indent line : jsstring) :
  (startsWith converted (js "* [") = true -> exists r, line = js "* [" ++ r) ->
  exists rest,
    AsciiDocConverter.withMarker converted indent line = indent ++ js " " ++ rest.
Proof.
  intros H. unfold AsciiDocConverter.withMarker.
  destruct (startsWith converted (js "* [")).
  - destruct (H eq_refl) as (r & ->). exists (js "[" ++ r). reflexivity.
  - eauto.
Qed.

Lemma marked_line_not_blank (n : Z) (rest : jsstring) :
  1 <= n -> blank (stars n ++ rest) = false.
Proof.
  intros Hn. destruct (stars_first n Hn) as (r & ->).
  cbn [app]. now apply line_not_blank.
Qed.

Lemma asciidoc_item_shape (converted : jsstring) (n : Z) :
  1 <= n ->
  let lines := split_on nl converted in
  exists rest,
    (if Nat.ltb 1 (List.length lines) then
       if includes converted [nl; dq] && includes converted (nl :: js "--") then
         if blank (item (AsciiDocConverter.popBlankLines lines) 0) then
           stars n ++ js " " ++ join [nl] (tl (AsciiDocConverter.popBlankLines lines))
         else
           AsciiDocConverter.withMarker converted (stars n)
             (item (AsciiDocConverter.popBlankLines lines) 0)
           ++ [nl] ++ join [nl] (tl (AsciiDocConverter.popBlankLines lines))
       else
         join [nl]
           (AsciiDocConverter.processedLines
              (AsciiDocConverter.withMarker converted (stars n) (item lines 0) :: tl lines))
     else
       if startsWith converted (js "* [")
       then stars n ++ substring_from converted 1
       else stars n ++ js " " ++ converted)
    = stars n ++ js " " ++ rest.
Proof.
  intros Hn lines.
  assert (Hfirst : startsWith converted (js "* [") = true ->
                   exists r, item lines 0 = js "* [" ++ r).
  { intros H. destruct (first_line_of_task converted H) as (r & more & E).
    subst lines. rewrite E. now exists r. }
  destruct (Nat.ltb 1 (List.length lines)).
  - destruct (includes converted [nl; dq] && includes converted (nl :: js "--")).
    + destruct (blank (item (AsciiDocConverter.popBlankLines lines) 0)) eqn:Eb; [eauto|].
      destruct (withMarker_shape converted (stars n)
                  (item (AsciiDocConverter.popBlankLines lines) 0)) as (rest & ->).
      * intros H. destruct (first_line_of_task converted H) as (r & more & E).
        subst lines. rewrite E.
        assert (Hnb : blank (js "* [" ++ r) = false) by now apply line_not_blank.
        destruct (popBlankLines_first _ more Hnb) as (ls' & E').
        exists r. exact (f_equal (fun l => item l 0) E').
      * exists (rest ++ [nl] ++ join [nl] (tl (AsciiDocConverter.popBlankLines lines))).
        now rewrite <- !app_assoc.
    + destruct (withMarker_shape converted (stars n) (item lines 0) Hfirst) as (rest & ->).
      destruct (processedLines_first (stars n ++ js " " ++ rest) (tl lines)) as (more & ->);
        [now apply marked_line_not_blank|].
      exists (rest ++ more). now rewrite <- !app_assoc.
  - destruct (startsWith converted (js "* [")) eqn:Et; [|eauto].
    unfold startsWith in Et.
    destruct (strip_prefix (js "* [") converted) as [b|] eqn:E; [|discriminate].
    apply strip_prefix_app in E. subst converted. exists (js "[" ++ b). reflexivity.
Qed.

(** A block below the root whose content is not blank, not a heading and not
    a code block becomes a list item: its text starts with the marker, a run
    of [max 1 (depth - offset)] stars, followed by a space, and the offset
    in use is stored.  When no offset is stored yet, the offset is
    [depth - 1] and the marker is a single star, however deep the block
    is. *)
Theorem asciidoc_list_item_marker (c : jsstring) (depth : Z)
        (st : AsciiDocConverter.State) :
  0 < depth ->
  blank c = false ->
  AsciiDocConverter.isHeading
    (item (split_on nl (AsciiDocConverter.convertLogseqSyntax c)) 0) = false ->
  startsWith (AsciiDocConverter.convertLogseqSyntax c) (js "[source") = false ->
  (exists rest,
      AsciiDocConverter.convertBlockContent c depth st
      = (stars (Z.max 1 (depth - offset_at st depth)) ++ js " " ++ rest,
         Some (offset_at st depth)))
  /\ (st = None -> stars (Z.max 1 (depth - offset_at st depth)) = js "*").
Proof.
  intros Hd Hb Hh Hs. split.
  - unfold AsciiDocConverter.convertBlockContent. rewrite Hb, Hh, Hs.
    assert (Hgt : (depth >? 0) = true) by (apply Z.gtb_lt; lia).
    rewrite Hgt.
    change (match st with Some o => o | None => depth - 1 end) with (offset_at st depth).
    fold (stars (Z.max 1 (depth - offset_at st depth))).
    destruct (asciidoc_item_shape (AsciiDocConverter.convertLogseqSyntax c)
                (Z.max 1 (depth - offset_at st depth))) as (rest & E); [lia|].
    cbv zeta in E. exists rest. now rewrite E.
  - intros ->. cbn [offset_at].
    replace (Z.max 1 (depth - (depth - 1))) with 1 by lia. reflexivity.
Qed.

Lemma asciidoc_list_item_marker_witness :
  (exists rest,
      AsciiDocConverter.convertBlockContent (js "DONE ship it") 4 (Some 1)
      = (stars (Z.max 1 (4 - offset_at (Some 1) 4)) ++ js " " ++ rest,
         Some (offset_at (Some 1) 4)))
  /\ (Some 1 = None -> stars (Z.max 1 (4 - offset_at (Some 1) 4)) = js "*").
Proof.
  apply (asciidoc_list_item_marker (js "DONE ship it") 4 (Some 1)).
  - lia.
  - vm_compute. reflexivity.
  - vm_compute. reflexivity.
  - vm_compute. reflexivity.
Defined.

Example asciidoc_marker_of_deep_task :
  AsciiDocConverter.convertBlockContent (js "DONE ship it") 4 (Some 1)
  = (js "*** [x] ship it", Some 1).
Proof. vm_compute. reflexivity. Qed.

(** ** Markers do not depend on how deep the tree sits *)

Lemma convertBlockContent_deeper (c : jsstring) (depth k : Z)
      (st : AsciiDocConverter.State) :
  0 < depth -> 0 <= k ->
  AsciiDocConverter.convertBlockContent c (depth + k) (deeper k st)
  = (fst (AsciiDocConverter.convertBlockContent c depth st),
     deeper k (snd (AsciiDocConverter.convertBlockContent c depth st))).
Proof.
  intros Hd Hk. unfold AsciiDocConverter.convertBlockContent.
  destruct (blank c); [reflexivity|]. cbv zeta.
  destruct (AsciiDocConverter.isHeading _).
  { destruct (Nat.ltb 1 _); reflexivity. }
  destruct (startsWith _ (js "[source")); [reflexivity|].
  assert (H1 : (depth + k >? 0) = true) by (apply Z.gtb_lt; lia).
  assert (H2 : (depth >? 0) = true) by (apply Z.gtb_lt; lia).
  rewrite H1, H2. cbn [fst snd].
  destruct st as [o|]; cbn [deeper].
  - replace (depth + k - (o + k)) with (depth - o) by lia. reflexivity.
  - replace (depth + k - (depth + k - 1)) with (depth - (depth - 1)) by lia.
    replace (depth + k - 1) with (depth - 1 + k) by lia. reflexivity.
Qed.

Lemma fold_processBlock_deeper (options : ExportOptions) (k : Z) (l : list LogseqBlock) :
  Forall
    (fun child =>
       forall lines depth st, 0 < depth ->
         AsciiDocConverter.processBlock child lines (depth + k) options (deeper k st)
         = (fst (AsciiDocConverter.processBlock child lines depth options st),
            deeper k (snd (AsciiDocConverter.processBlock child lines depth options st))))
    l ->
  forall depth acc, 0 <= depth ->
    fold_left
      (fun acc child =>
         AsciiDocConverter.processBlock child (fst acc) (depth + k + 1) options (snd acc))
      l (fst acc, deeper k (snd acc))
    = (fst (fold_left
              (fun acc child =>
                 AsciiDocConverter.processBlock child (fst acc) (depth + 1) options (snd acc))
              l acc),
       deeper k
         (snd (fold_left
                 (fun acc child =>
                    AsciiDocConverter.processBlock child (fst acc) (depth + 1) options
                      (snd acc))
                 l acc))).
Proof.
  induction 1 as [|child l Hc _ IH]; intros depth acc Hd; cbn [fold_left].
  - reflexivity.
  - cbn [fst snd].
    replace (depth + k + 1) with (depth + 1 + k) by lia.
    rewrite Hc by lia.
    replace (depth + 1 + k) with (depth + k + 1) by lia.
    apply (IH depth
             (AsciiDocConverter.processBlock child (fst acc) (depth + 1) options (snd acc)) Hd).
Qed.

(** Without a depth limit, the AsciiDoc lines of a subtree below the root do
    not depend on how deep the subtree sits: walking it [k] levels deeper,
    with the stored offset [k] higher, gives the same lines and leaves the
    offset [k] higher.  In particular, with no offset stored, the lines of a
    subtree are the same at every depth. *)
Theorem asciidoc_markers_are_relative
        (b : LogseqBlock) (lines : list jsstring) (depth k : Z)
        (options : ExportOptions) (st : AsciiDocConverter.State) :
  maxDepth options = None -> 0 < depth -> 0 <= k ->
  AsciiDocConverter.processBlock b lines (depth + k) options (deeper k st)
  = (fst (AsciiDocConverter.processBlock b lines depth options st),
     deeper k (snd (AsciiDocConverter.processBlock b lines depth options st))).
Proof.
  intros Hm Hd Hk. revert lines depth st Hd.
  induction b as [u c p ch IH] using LogseqBlock_tree_ind.
  intros lines depth st Hd. rewrite !asciidoc_processBlock_eq.
  unfold beyond_maxDepth. rewrite Hm. cbv zeta.
  rewrite (convertBlockContent_deeper c depth k st Hd Hk). cbn [fst snd].
  set (rendered := AsciiDocConverter.convertBlockContent c depth st).
  set (lines' := with_properties AsciiDocConverter.convertProperties options
                   (mkBlock u c p ch)
                   (if nonempty (trim (fst rendered))
                    then lines ++ [fst rendered] else lines)).
  assert (Hch : Forall
                  (fun child =>
                     forall lines depth st, 0 < depth ->
                       AsciiDocConverter.processBlock child lines (depth + k) options
                         (deeper k st)
                       = (fst (AsciiDocConverter.processBlock child lines depth options st),
                          deeper k
                            (snd (AsciiDocConverter.processBlock child lines depth
                                    options st))))
                  (wanted_children options (mkBlock u c p ch))).
  { unfold wanted_children. cbn [children].
    destruct (includeChildren options); [exact IH|constructor]. }
  apply (fold_processBlock_deeper options k _ Hch depth (lines', snd rendered)). lia.
Qed.

Lemma asciidoc_markers_are_relative_witness :
  AsciiDocConverter.processBlock (nested_tasks [] [] []) [] (1 + 3)
    (mkOptions asciidoc true false None) (deeper 3 None)
  = (fst (AsciiDocConverter.processBlock (nested_tasks [] [] []) [] 1
            (mkOptions asciidoc true false None) None),
     deeper 3
       (snd (AsciiDocConverter.processBlock (nested_tasks [] [] []) [] 1
               (mkOptions asciidoc true false None) None))).
Proof.
  apply (asciidoc_markers_are_relative (nested_tasks [] [] []) [] 1 3
           (mkOptions asciidoc true false None) None).
  - reflexivity.
  - lia.
  - lia.
Defined.

(** With a depth limit the depth does matter: the same subtree loses its
    last level when it sits one level deeper. *)
Example asciidoc_depth_limit_is_absolute :
  fst (AsciiDocConverter.processBlock (nested_tasks [] [] []) [] 1
         (mkOptions asciidoc true false (Some 3)) None)
  <> fst (AsciiDocConverter.processBlock (nested_tasks [] [] []) [] 2
            (mkOptions asciidoc true false (Some 3)) None).
Proof. vm_compute. discriminate. Qed.

(* ================================================================== *)
(** * Further properties of the Markdown converter *)
(* ================================================================== *)

(** ** Splitting into lines and joining them again *)

Lemma split_on_single (s : jsstring) : single_line s = true -> split_on nl s = [s].
Proof.
  induction s as [|x s IH]; [reflexivity|].
  unfold single_line. cbn [forallb]. intros H. apply andb_true_iff in H as [Hx Hs].
  cbn [split_on]. rewrite (IH Hs). apply negb_true_iff in Hx. now rewrite Hx.
Qed.

Lemma split_on_lines_single (s : jsstring) :
  Forall (fun l => single_line l = true) (split_on nl s).
Proof.
  induction s as [|x s IH]; cbn [split_on]; [now repeat constructor|].
  destruct (split_on nl s) as [|cur rest]; [now repeat constructor|].
  inversion IH as [|? ? Hcur Hrest]; subst.
  destruct (N.eqb x nl) eqn:Ex.
  - constructor; [reflexivity|]. now constructor.
  - constructor; [|exact Hrest]. unfold single_line. cbn [forallb].
    now rewrite Ex.
Qed.

Lemma join_split_on (s : jsstring) : join [nl] (split_on nl s) = s.
Proof.
  induction s as [|x s IH]; [reflexivity|].
  cbn [split_on]. pose proof (split_on_nonempty nl s) as Hne.
  destruct (split_on nl s) as [|cur rest]; [contradiction|].
  destruct (N.eqb x nl) eqn:Ex.
  - apply N.eqb_eq in Ex. subst x. rewrite join_cons. cbn [app]. now rewrite IH.
  - destruct rest as [|r rest].
    + cbn [join] in *. now rewrite IH.
    + rewrite <- IH, !join_cons. reflexivity.
Qed.

Lemma split_join (ls : list jsstring) :
  ls <> [] ->
  Forall (fun l => single_line l = true) ls ->
  split_on nl (join [nl] ls) = ls.
Proof.
  induction ls as [|x ls IH]; intros Hne Hall; [contradiction|].
  inversion Hall as [|? ? Hx Hls]; subst.
  destruct ls as [|y ls].
  - cbn [join]. now apply split_on_single.
  - rewrite join_cons. cbn [app]. rewrite split_on_app, (split_on_single x Hx).
    rewrite IH; [reflexivity|discriminate|exact Hls].
Qed.

Lemma single_line_app (a b : jsstring) :
  single_line (a ++ b) = single_line a && single_line b.
Proof. apply forallb_app. Qed.

Lemma single_line_repeat (s : jsstring) (n : Z) :
  single_line s = true -> single_line (repeat s n) = true.
Proof.
  intros Hs. unfold repeat. induction (Z.to_nat n) as [|m IH]; [reflexivity|].
  cbn [repeat_str]. now rewrite single_line_app, Hs, IH.
Qed.

(** ** Every line of a nested block is indented *)

Lemma indented_single (indent out line : jsstring) :
  single_line indent = true -> single_line line = true ->
  indented indent out line -> single_line out = true.
Proof.
  intros Hi Hl (pre & suf & Hpre & Hsuf & ->).
  rewrite !single_line_app, Hi, Hl.
  destruct Hpre as [->|[->| ->]]; destruct Hsuf as [->| ->]; reflexivity.
Qed.

Lemma indented_lines_single (indent : jsstring) (outs lines : list jsstring) :
  single_line indent = true ->
  Forall (fun l => single_line l = true) lines ->
  Forall2 (indented indent) outs lines ->
  Forall (fun l => single_line l = true) outs.
Proof.
  intros Hi Hall H. induction H as [|o l outs lines Hol _ IH]; [constructor|].
  inversion Hall; subst. constructor; [|now apply IH].
  now apply (indented_single indent o l).
Qed.

Lemma remainingLine_indented (lines : list jsstring) (indent : jsstring)
      (index : nat) (line : jsstring) :
  indented indent (MarkdownConverter.remainingLine lines indent index line) line.
Proof.
  unfold MarkdownConverter.remainingLine. cbv zeta.
  match goal with |- context [if ?c then _ else _] => destruct c end.
  - exists (js "  "), []. rewrite app_nil_r. auto.
  - exists (js "  "), [bslash]. auto.
Qed.

Lemma mapi_remainingLine_indented (lines : list jsstring) (indent : jsstring)
      (l : list jsstring) :
  forall i, Forall2 (indented indent)
              (MarkdownConverter.mapi (MarkdownConverter.remainingLine lines indent) i l) l.
Proof.
  induction l as [|x l IH]; intros i; cbn [MarkdownConverter.mapi]; constructor.
  - apply remainingLine_indented.
  - apply IH.
Qed.

Lemma joined_lines_indented (indent : jsstring) (outs lines : list jsstring) :
  single_line indent = true ->
  Forall (fun l => single_line l = true) lines ->
  outs <> [] ->
  Forall2 (indented indent) outs lines ->
  Forall2 (indented indent) (split_on nl (join [nl] outs)) lines.
Proof.
  intros Hi Hall Hne H. rewrite split_join; [exact H|exact Hne|].
  now apply (indented_lines_single indent outs lines).
Qed.

(** The lines of a nested block, in Markdown: a block below the root keeps
    its lines, one for one and in order, and every line of the result is the
    converted line behind [2 * depth] spaces, with a bullet or two more
    spaces in front of it or nothing (inside a code block), and with or
    without a backslash at its end. *)
Theorem markdown_nested_lines_are_indented (c : jsstring) (depth : Z) :
  0 < depth ->
  blank c = false ->
  Forall2 (indented (repeat (js "  ") depth))
    (split_on nl (MarkdownConverter.convertBlockContent c depth))
    (split_on nl (MarkdownConverter.convertLogseqSyntax c)).
Proof.
  intros Hd Hb. unfold MarkdownConverter.convertBlockContent. rewrite Hb. cbv zeta.
  assert (Hgt : (depth >? 0) = true) by (apply Z.gtb_lt; lia). rewrite Hgt.
  remember (MarkdownConverter.convertLogseqSyntax c) as converted eqn:Hconv.
  clear Hconv Hb c.
  set (indent := repeat (js "  ") depth).
  assert (Hi : single_line indent = true) by (now apply single_line_repeat).
  pose proof (split_on_lines_single converted) as Hall.
  pose proof (split_on_nonempty nl converted) as Hne.
  pose proof (join_split_on converted) as Hjoin.
  destruct (split_on nl converted) as [|l0 rest] eqn:E; [contradiction|]. clear Hne.
  destruct (startsWith converted (js "```")).
  - apply joined_lines_indented; [exact Hi|exact Hall|discriminate|].
    clear. induction (l0 :: rest) as [|l ls IH]; cbn [List.map]; constructor; [|exact IH].
    exists [], []. rewrite app_nil_r. auto.
  - destruct (Nat.ltb 1 (List.length (l0 :: rest))) eqn:El.
    + apply joined_lines_indented; [exact Hi|exact Hall|discriminate|].
      cbn [tl item nth]. constructor; [|apply mapi_remainingLine_indented].
      match goal with |- context [if ?b then _ else _] => destruct b end.
      * exists (js "- "), [bslash]. auto.
      * exists (js "- "), []. rewrite app_nil_r. auto.
    + destruct rest as [|l1 rest]; [|discriminate].
      cbn [join] in Hjoin. subst l0.
      change (indent ++ js "- " ++ converted)
        with (join [nl] [indent ++ js "- " ++ converted]).
      apply joined_lines_indented; [exact Hi|exact Hall|discriminate|].
      constructor; [|constructor].
      exists (js "- "), []. rewrite app_nil_r. auto.
Qed.

Lemma markdown_nested_lines_are_indented_witness :
  Forall2 (indented (repeat (js "  ") 2))
    (split_on nl (MarkdownConverter.convertBlockContent (nl :: js "a" ++ nl :: js "> b") 2))
    (split_on nl (MarkdownConverter.convertLogseqSyntax (nl :: js "a" ++ nl :: js "> b"))).
Proof.
  apply (markdown_nested_lines_are_indented (nl :: js "a" ++ nl :: js "> b") 2).
  - lia.
  - vm_compute. reflexivity.
Defined.

Example markdown_nested_block_lines :
  split_on nl (MarkdownConverter.convertBlockContent (js "one" ++ nl :: js "two") 2)
  = [js "    - one" ++ [bslash]; js "      two"].
Proof. vm_compute. reflexivity. Qed.

(* ================================================================== *)
(** * Further properties of the tokens *)
(* ================================================================== *)

(** ** Tokens between delimiters *)

Lemma delimited_captures (op cl : jsstring) (p : char -> bool)
      (rem : jsstring) (m : MatchResult) :
  re_match (RSeq (RLit op) (RSeq (RGroup 1 (RRep true 1 p)) (RLit cl))) rem = Some m ->
  exists v rest,
    rem = m0 m ++ rest
    /\ m0 m = op ++ v ++ cl
    /\ g1 m = Some v /\ v <> [] /\ forallb p v = true.
Proof.
  intros H. Captures.open_match H E.
  Captures.literal E s1.
  apply rep_greedy_inv in E as (v & s2 & -> & Hn & Hp & E).
  Captures.literal E s3.
  rewrite firstn_prefix in E. injection E as <- <-.
  rewrite (firstn_prefix_eq _ (op ++ v ++ cl) s3) in H by (now rewrite <- !app_assoc).
  injection H as <-. cbn [m0 g1 g2 fst snd setcap no_caps].
  exists v, s3. repeat split; auto.
  - now rewrite <- !app_assoc.
  - destruct v; [simpl in Hn; lia|discriminate].
Qed.

Lemma tag_captures (rem : jsstring) (m : MatchResult) :
  re_match LogseqParser.re_tag rem = Some m ->
  exists v rest,
    rem = m0 m ++ rest
    /\ m0 m = js "#" ++ v
    /\ g1 m = Some v /\ v <> []
    /\ forallb (fun c => is_word c || N.eqb c (chr "-")) v = true.
Proof.
  intros H. unfold LogseqParser.re_tag in H. Captures.open_match H E.
  Captures.literal E s1.
  apply rep_greedy_inv in E as (v & s2 & -> & Hn & Hp & E).
  rewrite firstn_prefix in E. injection E as <- <-.
  rewrite (firstn_prefix_eq _ (js "#" ++ v) s2) in H by (now rewrite <- !app_assoc).
  injection H as <-. cbn [m0 g1 g2 fst snd setcap no_caps].
  exists v, s2. repeat split; auto.
  destruct v; [simpl in Hn; lia|discriminate].
Qed.

Lemma delimited_token (ty : TokenType) (content : jsstring) (pos : Z)
      (m : MatchResult) (v rest : jsstring) :
  0 <= pos <= len content ->
  substring_from content pos = m0 m ++ rest ->
  m0 m = opening ty ++ v ++ closing ty ->
  g1 m = Some v -> v <> [] -> forallb (allowed ty) v = true ->
  substring content pos (pos + len (m0 m)) = opening ty ++ group (g1 m) ++ closing ty
  /\ group (g1 m) <> []
  /\ forallb (allowed ty) (group (g1 m)) = true.
Proof.
  intros Hpos Hr Hm Hg Hne Hp.
  rewrite Hg. cbn [group].
  now rewrite (span_of_prefix content pos (m0 m) rest Hpos Hr).
Qed.

(** Page references, highlights, bold texts and tags are what stands between
    their delimiters: the source span of such a token is the opening
    delimiter, the value of the token and the closing delimiter (none for a
    tag); the value is never empty and never contains the character that
    closes it (a tag consists of letters, digits, underscores and hyphens). *)
Theorem delimited_tokens_shape (content : jsstring) (pos : Z) :
  0 <= pos < len content ->
  let t := LogseqParser.nextToken content pos in
  delimited (type t) = true ->
  substring content pos (pos + length t)
  = opening (type t) ++ value t ++ closing (type t)
  /\ value t <> []
  /\ forallb (allowed (type t)) (value t) = true.
Proof.
  intros Hpos t Hd. subst t.
  assert (Hpos' : 0 <= pos <= len content) by lia.
  pose proof (TokenKinds.nextToken_origin content pos) as Ho. cbv zeta in Ho.
  destruct (type (LogseqParser.nextToken content pos)) eqn:Hty; try discriminate.
  - unfold LogseqParser.tryMatchBlockRef in Ho.
    destruct (re_match LogseqParser.re_blockRef (substring_from content pos))
      as [m|] eqn:E; [|discriminate].
    destruct (delimited_captures _ _ _ _ _ E) as (v & rest & Hr & Hm & Hg & Hne & Hp).
    injection Ho as Ho. rewrite <- Ho. cbn [value length].
    now apply (delimited_token blockRef content pos m v rest).
  - unfold LogseqParser.tryMatchTag in Ho.
    destruct (re_match LogseqParser.re_tag (substring_from content pos))
      as [m|] eqn:E; [|discriminate].
    destruct (tag_captures _ _ E) as (v & rest & Hr & Hm & Hg & Hne & Hp).
    injection Ho as Ho. rewrite <- Ho. cbn [value length].
    apply (delimited_token tag content pos m v rest); auto.
    cbn [opening closing]. now rewrite app_nil_r.
  - unfold LogseqParser.tryMatchHighlight in Ho.
    destruct (re_match LogseqParser.re_highlight (substring_from content pos))
      as [m|] eqn:E; [|discriminate].
    destruct (delimited_captures _ _ _ _ _ E) as (v & rest & Hr & Hm & Hg & Hne & Hp).
    injection Ho as Ho. rewrite <- Ho. cbn [value length].
    now apply (delimited_token highlight content pos m v rest).
  - unfold LogseqParser.tryMatchBold in Ho.
    destruct (re_match LogseqParser.re_bold (substring_from content pos))
      as [m|] eqn:E; [|discriminate].
    destruct (delimited_captures _ _ _ _ _ E) as (v & rest & Hr & Hm & Hg & Hne & Hp).
    injection Ho as Ho. rewrite <- Ho. cbn [value length].
    now apply (delimited_token bold content pos m v rest).
Qed.

Lemma delimited_tokens_shape_witness :
  let t := LogseqParser.nextToken (js "see [[My Page]] there") 4 in
  substring (js "see [[My Page]] there") 4 (4 + length t)
  = opening (type t) ++ value t ++ closing (type t)
  /\ value t <> []
  /\ forallb (allowed (type t)) (value t) = true.
Proof.
  apply (delimited_tokens_shape (js "see [[My Page]] there") 4).
  - vm_compute. split; [discriminate|reflexivity].
  - vm_compute. reflexivity.
Defined.

(** Bold text that contains an asterisk is not a bold token. *)
Example bold_with_asterisk_is_text :
  List.map summary (LogseqParser.parse (js "**a*b**"))
  = [(text, js "*", 1); (text, js "*", 1); (text, js "a", 1); (text, js "*", 1);
     (text, js "b", 1); (text, js "*", 1); (text, js "*", 1)].
Proof. vm_compute. reflexivity. Qed.

(* ================================================================== *)
(** * Further properties of headings and blockquotes *)
(* ================================================================== *)

(** ** A greedy repetition takes the whole run *)

Lemma rep_greedy_max {R : Type} (p : char -> bool) (k : jsstring -> option R) :
  forall pre s' n r,
    forallb p pre = true -> (n <= List.length pre)%nat ->
    match s' with x :: _ => p x = false | [] => True end ->
    k s' = Some r ->
    rep_greedy p k n (pre ++ s') = Some r.
Proof.
  induction pre as [|x pre IH]; intros s' n r Hall Hn Hstop Hk.
  - assert (n = 0%nat) by (simpl in Hn; lia). subst n. cbn [app].
    destruct s' as [|y s']; cbn [rep_greedy]; [exact Hk|]. now rewrite Hstop.
  - cbn [forallb] in Hall. apply andb_true_iff in Hall as [Px Hall].
    cbn [app rep_greedy]. rewrite Px.
    rewrite (IH s' (Nat.pred n) r Hall); [reflexivity| |exact Hstop|exact Hk].
    simpl in Hn. lia.
Qed.

Lemma length_repeat_char (x : char) (j : nat) : List.length (repeat_str [x] j) = j.
Proof. induction j as [|j IH]; cbn [repeat_str app List.length]; [reflexivity|now rewrite IH]. Qed.

(** ** The hashes of a heading *)

Lemma rmatch_hash_run {R : Type} (K : jsstring -> caps -> option R) :
  forall k j s c r,
    (j <= k)%nat ->
    startsWith s (js "#") = false ->
    K s c = Some r ->
    rmatch (up_to k (RLit (js "#"))) K (repeat_str (js "#") j ++ s) c = Some r.
Proof.
  induction k as [|k IH]; intros j s c r Hj Hs HK.
  - assert (j = 0%nat) by lia. subst j. exact HK.
  - cbn [up_to rmatch]. destruct j as [|j].
    + cbn [repeat_str app]. unfold startsWith in Hs.
      destruct (strip_prefix (js "#") s); [discriminate|exact HK].
    + cbn [repeat_str]. rewrite <- app_assoc.
      rewrite (strip_prefix_complete (js "#") (repeat_str (js "#") j ++ s)).
      rewrite (IH j s c r); [reflexivity|lia|exact Hs|exact HK].
Qed.

Lemma rmatch_hashes {R : Type} (K : jsstring -> caps -> option R)
      (n : nat) (s : jsstring) (c : caps) (r : R) :
  (1 <= n <= 6)%nat ->
  startsWith s (js "#") = false ->
  K s c = Some r ->
  rmatch re_hashes K (repeat_str (js "#") n ++ s) c = Some r.
Proof.
  intros Hn Hs HK. destruct n as [|j]; [lia|].
  unfold re_hashes. cbn [rmatch repeat_str]. rewrite <- app_assoc.
  rewrite (strip_prefix_complete (js "#") (repeat_str (js "#") j ++ s)).
  apply rmatch_hash_run; [lia|exact Hs|exact HK].
Qed.

Lemma space_is_no_hash (x : char) (s : jsstring) :
  is_space x = true -> startsWith (x :: s) (js "#") = false.
Proof.
  intros Hx. unfold startsWith. change (js "#") with [35%N]. cbn [strip_prefix].
  destruct (N.eqb 35 x) eqn:E; [|reflexivity].
  apply N.eqb_eq in E. subst x. discriminate.
Qed.

Lemma stops_app (p : char -> bool) (a b : jsstring) :
  a <> [] -> stops p a -> stops p (a ++ b).
Proof. destruct a; [contradiction|auto]. Qed.

Lemma re_heading_match (n : nat) (ws text rest : jsstring) :
  (1 <= n <= 6)%nat ->
  ws <> [] -> forallb is_space ws = true ->
  text <> [] -> forallb is_dot text = true ->
  stops is_space text -> stops is_dot rest ->
  re_match re_heading (repeat_str (js "#") n ++ ws ++ text ++ rest)
  = Some (mkMatch (repeat_str (js "#") n ++ ws ++ text)
            (Some (repeat_str (js "#") n)) (Some text)).
Proof.
  intros Hn Hws Hsp Htext Hdot Hstop1 Hstop2.
  assert (H : rmatch re_heading (fun s' c' => Some (s', c'))
                (repeat_str (js "#") n ++ ws ++ text ++ rest) no_caps
              = Some (rest, (Some (repeat_str (js "#") n), Some text))).
  { unfold re_heading. cbn [rmatch].
    apply rmatch_hashes; [exact Hn| |].
    - destruct ws as [|x ws]; [contradiction|]. cbn [forallb] in Hsp.
      apply andb_true_iff in Hsp as [Hx _]. now apply space_is_no_hash.
    - rewrite firstn_prefix.
      apply rep_greedy_max; [exact Hsp| |now apply stops_app|].
      { destruct ws; [contradiction|simpl; lia]. }
      apply rep_greedy_max; [exact Hdot| |exact Hstop2|].
      { destruct text; [contradiction|simpl; lia]. }
      now rewrite firstn_prefix. }
  unfold re_match. rewrite H. cbn [fst snd]. f_equal. f_equal.
  apply firstn_prefix_eq. now rewrite <- !app_assoc.
Qed.

Lemma len_hashes (n : Z) : 0 <= n -> len (repeat (js "#") n) = n.
Proof.
  intros Hn. unfold len, repeat. change (js "#") with [35%N].
  rewrite length_repeat_char. lia.
Qed.

Lemma hashes_not_blank (n : Z) (s : jsstring) :
  1 <= n -> blank (repeat (js "#") n ++ s) = false.
Proof.
  intros Hn. unfold repeat. destruct (Z.to_nat n) as [|j] eqn:E; [lia|].
  cbn [repeat_str]. change (js "#") with [35%N]. cbn [app].
  now apply line_not_blank.
Qed.

Lemma isHeading_hashes (n : nat) (ws s : jsstring) :
  (1 <= n <= 6)%nat -> ws <> [] -> forallb is_space ws = true -> stops is_space s ->
  AsciiDocConverter.isHeading (repeat_str (js "#") n ++ ws ++ s) = true
  /\ HtmlConverter.isHeading (repeat_str (js "#") n ++ ws ++ s) = true.
Proof.
  intros Hn Hws Hsp Hstop.
  assert (Hno : startsWith (ws ++ s) (js "#") = false).
  { destruct ws as [|x ws]; [contradiction|]. cbn [forallb] in Hsp.
    apply andb_true_iff in Hsp as [Hx _]. now apply space_is_no_hash. }
  split.
  - unfold AsciiDocConverter.isHeading, re_test, re_match, AsciiDocConverter.re_isHeading.
    cbn [rmatch].
    rewrite (rmatch_hashes _ n (ws ++ s) no_caps (tl (ws ++ s), no_caps));
      [reflexivity|exact Hn|exact Hno|].
    destruct ws as [|x ws]; [contradiction|]. cbn [forallb] in Hsp.
    apply andb_true_iff in Hsp as [Hx _]. cbn [app tl]. now rewrite Hx.
  - unfold HtmlConverter.isHeading, re_test, re_match, HtmlConverter.re_isHeading.
    cbn [rmatch].
    rewrite (rmatch_hashes _ n (ws ++ s) no_caps (s, no_caps));
      [reflexivity|exact Hn|exact Hno|].
    apply rep_greedy_max; [exact Hsp| |exact Hstop|reflexivity].
    destruct ws; [contradiction|simpl; lia].
Qed.

(** ** Lines that are no heading *)

(** Seven hashes are no heading. *)
Example seven_hashes :
  AsciiDocConverter.isHeading (js "####### deep") = false
  /\ HtmlConverter.convertBlockContent (js "####### deep") = js "####### deep".
Proof. vm_compute. split; reflexivity. Qed.

(** Hashes and white space alone pass the heading test of the HTML converter
    and come out as they are. *)
Example heading_without_text :
  HtmlConverter.isHeading (js "## ") = true
  /\ HtmlConverter.convertBlockContent (js "## ") = js "## ".
Proof. vm_compute. split; reflexivity. Qed.

(** ** A blockquote takes the rest of its line *)

Lemma other_first_char (y : char) (s l0 : jsstring) (r : regex) :
  (exists x l, l0 = x :: l /\ N.eqb x y = false) ->
  re_match (RSeq (RLit l0) r) (y :: s) = None.
Proof.
  intros (x & l & -> & Hx). unfold re_match. cbn [rmatch strip_prefix].
  now rewrite Hx.
Qed.

Ltac other_literal := eexists; eexists; split; reflexivity.

Lemma quote_is_no_task (s : jsstring) :
  re_match LogseqParser.re_taskMarker (62%N :: s) = None.
Proof.
  unfold re_match, LogseqParser.re_taskMarker. cbn [rmatch].
  assert (H : forall l, (exists x l', l = x :: l' /\ N.eqb x 62 = false) ->
                        strip_prefix l (62%N :: s) = None).
  { intros l (x & l' & -> & Hx). cbn [strip_prefix]. now rewrite Hx. }
  rewrite !H by other_literal. reflexivity.
Qed.

Lemma quote_line_first_matchers (content : jsstring) (pos : Z) (s : jsstring) :
  substring_from content pos = 62%N :: s ->
  LogseqParser.tryMatchCodeBlock content pos = None
  /\ LogseqParser.tryMatchQuery content pos = None
  /\ LogseqParser.tryMatchTaskMarker content pos = None.
Proof.
  intros Hrem. repeat split.
  - unfold LogseqParser.tryMatchCodeBlock. rewrite Hrem.
    unfold LogseqParser.re_codeBlock. now rewrite other_first_char by other_literal.
  - unfold LogseqParser.tryMatchQuery, LogseqParser.tryMatchVideoEmbed. rewrite Hrem.
    unfold LogseqParser.re_video, LogseqParser.re_youtube, LogseqParser.re_vimeo,
      LogseqParser.re_query.
    now rewrite !other_first_char by other_literal.
  - unfold LogseqParser.tryMatchTaskMarker. rewrite Hrem, quote_is_no_task.
    now destruct (LogseqParser.not_at_line_start content pos).
Qed.

Lemma re_blockquote_match (sp text rest : jsstring) :
  sp = js " " \/ (sp = [] /\ startsWith (text ++ rest) (js " ") = false) ->
  forallb is_dot text = true -> stops is_dot rest ->
  re_match LogseqParser.re_blockquote (js ">" ++ sp ++ text ++ rest)
  = Some (mkMatch (js ">" ++ sp ++ text) (Some text) None).
Proof.
  intros Hsp Hdot Hstop.
  assert (Hgroup : forall c,
             rmatch (RGroup 1 (RRep true 0 is_dot)) (fun s' c' => Some (s', c'))
               (text ++ rest) c
             = Some (rest, setcap 1 text c)).
  { intros c. cbn [rmatch].
    apply rep_greedy_max; [exact Hdot|lia|exact Hstop|].
    now rewrite firstn_prefix. }
  assert (H : rmatch LogseqParser.re_blockquote (fun s' c' => Some (s', c'))
                (js ">" ++ sp ++ text ++ rest) no_caps
              = Some (rest, (Some text, None))).
  { unfold LogseqParser.re_blockquote.
    change (rmatch (RSeq (RLit (js ">")) ?r) ?k (js ">" ++ ?s) ?c) with (rmatch r k s c).
    destruct Hsp as [->|[-> Hno]].
    - change (rmatch (RSeq (ROpt (RLit (js " "))) ?r) ?k (js " " ++ ?s) ?c)
        with (match rmatch r k s c with Some x => Some x | None => rmatch r k (js " " ++ s) c end).
      now rewrite Hgroup.
    - cbn [app]. unfold startsWith in Hno.
      change (rmatch (RSeq (ROpt (RLit (js " "))) ?r) ?k ?s ?c)
        with (match
                 match strip_prefix (js " ") s with
                 | Some s' => rmatch r k s' c
                 | None => None
                 end
               with Some x => Some x | None => rmatch r k s c end).
      destruct (strip_prefix (js " ") (text ++ rest)); [discriminate|].
      now rewrite Hgroup. }
  unfold re_match. rewrite H. cbn [fst snd]. f_equal. f_equal.
  apply firstn_prefix_eq. now rewrite <- !app_assoc.
Qed.

(** At a line start, [>] opens a blockquote that takes the rest of the line
    and nothing of the next one: the token's value is the line without the
    [>] and without the one space that may follow it, its length is that of
    the line.  Markdown writes it back with exactly one space after the
    [>]. *)
Theorem blockquote_takes_rest_of_line (content : jsstring) (pos : Z)
        (sp text rest : jsstring) :
  LogseqParser.not_at_line_start content pos = false ->
  substring_from content pos = js ">" ++ sp ++ text ++ rest ->
  sp = js " " \/ (sp = [] /\ startsWith (text ++ rest) (js " ") = false) ->
  forallb is_dot text = true ->
  stops is_dot rest ->
  LogseqParser.nextToken content pos
  = mkToken blockquote text None (1 + len sp + len text)
  /\ MarkdownGenerator.generateToken (LogseqParser.nextToken content pos)
     = js "> " ++ text.
Proof.
  intros Hstart Hrem Hsp Hdot Hstop.
  assert (Ht : LogseqParser.nextToken content pos
               = mkToken blockquote text None (1 + len sp + len text)).
  { destruct (quote_line_first_matchers content pos (sp ++ text ++ rest) Hrem)
      as (H1 & H2 & H3).
    unfold LogseqParser.nextToken, LogseqParser.orElse. rewrite H1, H2, H3.
    unfold LogseqParser.tryMatchBlockquote. rewrite Hstart, Hrem.
    rewrite (re_blockquote_match sp text rest Hsp Hdot Hstop).
    cbn [g1 m0 group]. f_equal.
    rewrite !len_app. change (len (js ">")) with 1. lia. }
  split; [exact Ht|]. rewrite Ht. reflexivity.
Qed.

Lemma blockquote_takes_rest_of_line_witness :
  LogseqParser.nextToken (js "a" ++ nl :: js ">quote" ++ nl :: js "b") 2
  = mkToken blockquote (js "quote") None (1 + len [] + len (js "quote"))
  /\ MarkdownGenerator.generateToken
       (LogseqParser.nextToken (js "a" ++ nl :: js ">quote" ++ nl :: js "b") 2)
     = js "> " ++ js "quote".
Proof.
  apply (blockquote_takes_rest_of_line (js "a" ++ nl :: js ">quote" ++ nl :: js "b") 2
           [] (js "quote") (nl :: js "b")).
  - reflexivity.
  - reflexivity.
  - right. split; reflexivity.
  - reflexivity.
  - reflexivity.
Defined.

(** Only one space is dropped after the [>]. *)
Example blockquote_keeps_second_space :
  summary (LogseqParser.nextToken (js ">  two") 0) = (blockquote, js " two", 6).
Proof. vm_compute. reflexivity. Qed.

(* ================================================================== *)
(** * Further properties of links *)
(* ================================================================== *)

(** ** Which targets count as external *)

Lemma strip_prefix_split (a b s : jsstring) :
  strip_prefix (a ++ b) s
  = match strip_prefix a s with
    | Some s' => strip_prefix b s'
    | None => None
    end.
Proof.
  revert s. induction a as [|x a IH]; intros s; [reflexivity|].
  cbn [app strip_prefix]. destruct s as [|y s]; [reflexivity|].
  destruct (N.eqb x y); [apply IH|reflexivity].
Qed.

(** The test [/^https?:\/\//] is a test on the beginning of the target, and
    it is case sensitive. *)
Lemma is_external_spec (target : jsstring) :
  LogseqParser.is_external target
  = startsWith target (js "http://") || startsWith target (js "https://").
Proof.
  unfold LogseqParser.is_external, re_test, re_match, LogseqParser.re_scheme, startsWith.
  cbn [rmatch].
  change (js "http://") with (js "http" ++ js "://").
  change (js "https://") with (js "http" ++ js "s" ++ js "://").
  rewrite !strip_prefix_split.
  destruct (strip_prefix (js "http") target) as [s1|]; [|reflexivity].
  rewrite strip_prefix_split.
  destruct (strip_prefix (js "s") s1) as [s2|] eqn:Es.
  - destruct (strip_prefix (js "://") s2) as [s3|]; [now rewrite orb_true_r|].
    apply strip_prefix_app in Es. subst s1. cbn [app strip_prefix].
    reflexivity.
  - destruct (strip_prefix (js "://") s1); reflexivity.
Qed.

Lemma markdownLink_parts (rem : jsstring) (m : MatchResult) :
  re_match LogseqParser.re_markdownLink rem = Some m ->
  exists t1 t2 rest,
    rem = m0 m ++ rest
    /\ m0 m = js "[" ++ t1 ++ js "](" ++ t2 ++ js ")"
    /\ g1 m = Some t1 /\ g2 m = Some t2
    /\ t1 <> [] /\ t2 <> []
    /\ forallb (is_not (chr "]")) t1 = true
    /\ forallb (is_not (chr ")")) t2 = true.
Proof.
  intros H. unfold LogseqParser.re_markdownLink in H. Captures.open_match H E.
  Captures.literal E s1.
  apply rep_greedy_inv in E as (t1 & s2 & -> & Hn1 & Hp1 & E).
  Captures.literal E s3.
  apply rep_greedy_inv in E as (t2 & s4 & -> & Hn2 & Hp2 & E).
  Captures.literal E s5.
  rewrite !firstn_prefix in E. injection E as <- <-.
  rewrite (firstn_prefix_eq _ (js "[" ++ t1 ++ js "](" ++ t2 ++ js ")") s5) in H
    by (now rewrite <- !app_assoc).
  injection H as <-. cbn [m0 g1 g2 fst snd setcap no_caps].
  exists t1, t2, s5. repeat split; auto; try Captures.list_eq.
  - destruct t1; [simpl in Hn1; lia|discriminate].
  - destruct t2; [simpl in Hn2; lia|discriminate].
Qed.

Lemma str_or_nonempty (x d : jsstring) : x <> [] -> str_or (Some x) d = x.
Proof. destruct x; [contradiction|reflexivity]. Qed.

(** ** A link in the three formats *)

(** A link token is [[text](target)] in the source, with a text without
    closing bracket and a target without closing parenthesis, both not empty.
    Whether the target starts with [http://] or [https://] (in lower case)
    decides alone how it is written: as a link of the format, or as the text
    in bold followed by the target in parentheses.  Any other target, a
    [mailto:] or [ftp://] one included, is written the second way.  In the
    second way Markdown and HTML put an arrow (U+2192) before the target;
    AsciiDoc puts the three characters U+201A U+00DC U+00ED there, which is
    what its source file has in the place of the arrow. *)
Theorem link_in_three_formats (content : jsstring) (pos : Z) :
  0 <= pos < len content ->
  let t := LogseqParser.nextToken content pos in
  type t = markdownLink ->
  exists text target,
    substring content pos (pos + length t) = js "[" ++ text ++ js "](" ++ target ++ js ")"
    /\ text <> [] /\ target <> []
    /\ forallb (is_not (chr "]")) text = true
    /\ forallb (is_not (chr ")")) target = true
    /\ MarkdownGenerator.generateToken t
       = (if startsWith target (js "http://") || startsWith target (js "https://")
          then js "[" ++ text ++ js "](" ++ target ++ js ")"
          else js "**" ++ text ++ js "** (" ++ arrow ++ js " " ++ target ++ js ")")
    /\ AsciiDocGenerator.generateToken t
       = (if startsWith target (js "http://") || startsWith target (js "https://")
          then target ++ js "[" ++ text ++ js "]"
          else js "*" ++ text ++ js "* (" ++ [8218; 220; 237]%N ++ js " " ++ target
                 ++ js ")")
    /\ HtmlGenerator.generateToken t
       = (if startsWith target (js "http://") || startsWith target (js "https://")
          then js "<a href=" ++ [dq] ++ escapeHtml target ++ [dq] ++ js ">"
                 ++ escapeHtml text ++ js "</a>"
          else js "<strong>" ++ escapeHtml text ++ js "</strong> <em>(" ++ arrow
                 ++ js " " ++ escapeHtml target ++ js ")</em>").
Proof.
  intros Hpos t Hty. subst t.
  assert (Hpos' : 0 <= pos <= len content) by lia.
  pose proof (TokenKinds.nextToken_origin content pos) as Ho. cbv zeta in Ho.
  rewrite Hty in Ho. clear Hty.
  unfold LogseqParser.tryMatchMarkdownLink in Ho.
  destruct (re_match LogseqParser.re_markdownLink (substring_from content pos))
    as [m|] eqn:E; [|discriminate].
  destruct (markdownLink_parts _ _ E)
    as (text & target & rest & Hr & Hm & H1 & H2 & Hn1 & Hn2 & Hp1 & Hp2).
  injection Ho as Ho. rewrite <- Ho. clear Ho.
  exists text, target. cbn [length].
  rewrite (span_of_prefix content pos (m0 m) rest Hpos' Hr).
  repeat (split; [assumption|]).
  rewrite <- is_external_spec.
  unfold MarkdownGenerator.generateToken, MarkdownGenerator.generateMarkdownLink,
    AsciiDocGenerator.generateToken, AsciiDocGenerator.generateAsciiDocLink,
    HtmlGenerator.generateToken, HtmlGenerator.generateLink, isExternal, meta.
  cbn [type metadata linkText linkTarget isExternalUrl value].
  rewrite H1, H2. cbn [group]. rewrite !str_or_nonempty by assumption.
  repeat split.
Qed.

Lemma link_in_three_formats_witness :
  let t := LogseqParser.nextToken (js "[mail](mailto:a@b.c)") 0 in
  exists text target,
    substring (js "[mail](mailto:a@b.c)") 0 (0 + length t)
    = js "[" ++ text ++ js "](" ++ target ++ js ")"
    /\ text <> [] /\ target <> []
    /\ forallb (is_not (chr "]")) text = true
    /\ forallb (is_not (chr ")")) target = true
    /\ MarkdownGenerator.generateToken t
       = (if startsWith target (js "http://") || startsWith target (js "https://")
          then js "[" ++ text ++ js "](" ++ target ++ js ")"
          else js "**" ++ text ++ js "** (" ++ arrow ++ js " " ++ target ++ js ")")
    /\ AsciiDocGenerator.generateToken t
       = (if startsWith target (js "http://") || startsWith target (js "https://")
          then target ++ js "[" ++ text ++ js "]"
          else js "*" ++ text ++ js "* (" ++ [8218; 220; 237]%N ++ js " " ++ target
                 ++ js ")")
    /\ HtmlGenerator.generateToken t
       = (if startsWith target (js "http://") || startsWith target (js "https://")
          then js "<a href=" ++ [dq] ++ escapeHtml target ++ [dq] ++ js ">"
                 ++ escapeHtml text ++ js "</a>"
          else js "<strong>" ++ escapeHtml text ++ js "</strong> <em>(" ++ arrow
                 ++ js " " ++ escapeHtml target ++ js ")</em>").
Proof.
  apply (link_in_three_formats (js "[mail](mailto:a@b.c)") 0).
  - vm_compute. split; [discriminate|reflexivity].
  - vm_compute. reflexivity.
Defined.

(** A [mailto:] link loses its link in every format. *)
Example mailto_link_in_markdown :
  MarkdownConverter.convertLogseqSyntax (js "[mail](mailto:a@b.c)")
  = js "**mail** (" ++ arrow ++ js " mailto:a@b.c)".
Proof. vm_compute. reflexivity. Qed.

(** In AsciiDoc the note does not have the arrow of the two other formats. *)
Example mailto_link_in_asciidoc :
  AsciiDocConverter.convertLogseqSyntax (js "[mail](mailto:a@b.c)")
  = js "*mail* (" ++ [8218; 220; 237]%N ++ js " mailto:a@b.c)"
  /\ AsciiDocConverter.convertLogseqSyntax (js "[mail](mailto:a@b.c)")
     <> js "*mail* (" ++ arrow ++ js " mailto:a@b.c)".
Proof. vm_compute. split; [reflexivity|discriminate]. Qed.

(** A target whose scheme is written in capitals loses its link too. *)
Example capital_scheme_in_html :
  HtmlConverter.convertLogseqSyntax (js "[x](HTTPS://a.b)")
  = js "<strong>x</strong> <em>(" ++ arrow ++ js " HTTPS://a.b)</em>".
Proof. vm_compute. reflexivity. Qed.

(* ================================================================== *)
(** * Further properties of task markers and video macros *)
(* ================================================================== *)

(** ** Task markers *)

Lemma first_matchers_need_their_char (content : jsstring) (pos : Z)
      (y : char) (s : jsstring) :
  substring_from content pos = y :: s ->
  N.eqb 96 y = false -> N.eqb 123 y = false ->
  LogseqParser.tryMatchCodeBlock content pos = None
  /\ LogseqParser.tryMatchQuery content pos = None.
Proof.
  intros Hrem Hq Hb. split.
  - unfold LogseqParser.tryMatchCodeBlock. rewrite Hrem.
    unfold LogseqParser.re_codeBlock.
    now rewrite other_first_char by (eexists; eexists; split; [reflexivity|assumption]).
  - unfold LogseqParser.tryMatchQuery, LogseqParser.tryMatchVideoEmbed. rewrite Hrem.
    unfold LogseqParser.re_video, LogseqParser.re_youtube, LogseqParser.re_vimeo,
      LogseqParser.re_query.
    now rewrite !other_first_char by (eexists; eexists; split; [reflexivity|assumption]).
Qed.

Lemma re_taskMarker_match (k : TaskType) (ws rest : jsstring) :
  ws <> [] -> forallb is_space ws = true -> stops is_space rest ->
  re_match LogseqParser.re_taskMarker (keyword k ++ ws ++ rest)
  = Some (mkMatch (keyword k ++ ws) (Some (keyword k)) None).
Proof.
  intros Hws Hsp Hstop.
  assert (Hrun : forall c : caps,
             rep_greedy is_space (fun s' => Some (s', c)) 1 (ws ++ rest) = Some (rest, c)).
  { intros c. apply rep_greedy_max; [exact Hsp| |exact Hstop|reflexivity].
    destruct ws; [contradiction|simpl; lia]. }
  assert (H : rmatch LogseqParser.re_taskMarker (fun s' c' => Some (s', c'))
                (keyword k ++ ws ++ rest) no_caps
              = Some (rest, (Some (keyword k), None))).
  { unfold LogseqParser.re_taskMarker. cbn [rmatch].
    destruct k; cbn [keyword];
      repeat match goal with
             | |- context [strip_prefix (js ?a) (js ?a ++ ?x)] =>
                 rewrite (strip_prefix_complete (js a) x)
             | |- context [strip_prefix (js ?a) (js ?b ++ ?x)] =>
                 change (strip_prefix (js a) (js b ++ x)) with (@None jsstring)
             end;
      rewrite firstn_prefix, Hrun; reflexivity. }
  unfold re_match. rewrite H. cbn [fst snd]. f_equal. f_equal.
  apply firstn_prefix_eq. now rewrite <- !app_assoc.
Qed.

(** One of the five task keywords at a line start, followed by white space,
    is a task marker of that kind.  The token takes the keyword and all the
    white space behind it, line feeds included, and has no value. *)
Theorem task_marker_token (content : jsstring) (pos : Z) (k : TaskType)
        (ws rest : jsstring) :
  LogseqParser.not_at_line_start content pos = false ->
  substring_from content pos = keyword k ++ ws ++ rest ->
  ws <> [] -> forallb is_space ws = true -> stops is_space rest ->
  LogseqParser.nextToken content pos
  = mkToken taskMarker []
      (Some (mkMeta None (Some k) None None None None None None))
      (len (keyword k) + len ws).
Proof.
  intros Hstart Hrem Hws Hsp Hstop.
  assert (Hfirst : LogseqParser.tryMatchCodeBlock content pos = None
                   /\ LogseqParser.tryMatchQuery content pos = None).
  { destruct k; cbn [keyword] in Hrem;
      eapply first_matchers_need_their_char; try exact Hrem; reflexivity. }
  destruct Hfirst as [H1 H2].
  unfold LogseqParser.nextToken, LogseqParser.orElse. rewrite H1, H2.
  unfold LogseqParser.tryMatchTaskMarker. rewrite Hstart, Hrem.
  rewrite (re_taskMarker_match k ws rest Hws Hsp Hstop).
  cbn [g1 m0 group]. rewrite len_app.
  destruct k; reflexivity.
Qed.

Lemma task_marker_token_witness :
  LogseqParser.nextToken (js "DOING" ++ [32%N; nl; nl] ++ js "write") 0
  = mkToken taskMarker []
      (Some (mkMeta None (Some DOING) None None None None None None))
      (len (keyword DOING) + len [32%N; nl; nl]).
Proof.
  apply (task_marker_token (js "DOING" ++ [32%N; nl; nl] ++ js "write") 0 DOING
           [32%N; nl; nl] (js "write")).
  - reflexivity.
  - reflexivity.
  - discriminate.
  - reflexivity.
  - reflexivity.
Defined.

(** A keyword that is not followed by white space is plain text. *)
Example keyword_without_space :
  List.map summary (LogseqParser.parse (js "TODO:x")) = [(text, js "TODO:x", 6)].
Proof. vm_compute. reflexivity. Qed.

(** ** Video macros *)

Lemma includes_later (pre s p : jsstring) :
  includes s p = true -> includes (pre ++ s) p = true.
Proof.
  intros H. induction pre as [|x pre IH]; [exact H|].
  cbn [app includes]. rewrite IH. apply orb_true_r.
Qed.

Lemma includes_here (p s : jsstring) : includes (p ++ s) p = true.
Proof.
  assert (H : startsWith (p ++ s) p = true)
    by (unfold startsWith; now rewrite strip_prefix_complete).
  destruct (p ++ s); cbn [includes]; now rewrite H.
Qed.

Lemma youtubeId_needs_y (x : char) (s : jsstring) :
  N.eqb x 121 = false -> re_match LogseqParser.re_youtubeId (x :: s) = None.
Proof.
  intros Hx. unfold re_match, LogseqParser.re_youtubeId. cbn [rmatch].
  change (js "youtube.com/watch?v=") with (121%N :: js "outube.com/watch?v=").
  change (js "youtu.be/") with (121%N :: js "outu.be/").
  cbn [strip_prefix]. rewrite N.eqb_sym, Hx. reflexivity.
Qed.

Lemma youtubeId_skip (pre s : jsstring) :
  forallb (fun c => negb (N.eqb c 121)) pre = true ->
  re_find LogseqParser.re_youtubeId (pre ++ s) = re_find LogseqParser.re_youtubeId s.
Proof.
  induction pre as [|x pre IH]; intros H; [reflexivity|].
  cbn [forallb] in H. apply andb_true_iff in H as [Hx H].
  apply negb_true_iff in Hx.
  cbn [app re_find]. now rewrite (youtubeId_needs_y x _ Hx), IH.
Qed.

Lemma youtubeId_found (id : jsstring) :
  id <> [] ->
  forallb (fun c => is_not (chr "&") c && is_not (chr "?") c) id = true ->
  re_find LogseqParser.re_youtubeId (js "youtube.com/watch?v=" ++ id)
  = Some (mkMatch (js "youtube.com/watch?v=" ++ id) (Some id) None).
Proof.
  intros Hne Hid.
  assert (H : rmatch LogseqParser.re_youtubeId (fun s' c' => Some (s', c'))
                (js "youtube.com/watch?v=" ++ id) no_caps
              = Some ([], (Some id, None))).
  { unfold LogseqParser.re_youtubeId. cbn [rmatch].
    rewrite strip_prefix_complete.
    match goal with
    | |- context [rep_greedy ?p ?k 1 id] =>
        pose proof (rep_greedy_max p k id [] 1 ([], (Some id, None))) as Hr
    end.
    rewrite app_nil_r in Hr. rewrite Hr; auto.
    - destruct id; [contradiction|simpl; lia].
    - cbn [List.length]. now rewrite Nat.sub_0_r, firstn_all. }
  assert (Hm : re_match LogseqParser.re_youtubeId (js "youtube.com/watch?v=" ++ id)
               = Some (mkMatch (js "youtube.com/watch?v=" ++ id) (Some id) None)).
  { unfold re_match. rewrite H. cbn [fst snd List.length].
    now rewrite Nat.sub_0_r, firstn_all. }
  destruct (js "youtube.com/watch?v=" ++ id) eqn:E; cbn [re_find]; now rewrite Hm.
Qed.

Lemma macro_with_argument {R : Type} (p : char -> bool) (ws arg rest : jsstring)
      (c : caps) (r : R) (K : jsstring -> caps -> option R) :
  ws <> [] -> forallb is_space ws = true ->
  stops is_space (arg ++ js "}}" ++ rest) ->
  rmatch (RGroup 1 (RRep true 1 p)) (fun s' c' => rmatch (RLit (js "}}")) K s' c')
    (arg ++ js "}}" ++ rest) c = Some r ->
  rmatch (RSeq (RRep true 1 is_space)
            (RSeq (RGroup 1 (RRep true 1 p)) (RLit (js "}}"))))
    K (ws ++ arg ++ js "}}" ++ rest) c = Some r.
Proof.
  intros Hws Hsp Hstop H. cbn [rmatch].
  apply rep_greedy_max; [exact Hsp| |exact Hstop|exact H].
  destruct ws; [contradiction|simpl; lia].
Qed.

Lemma re_youtube_match (ws id rest : jsstring) :
  ws <> [] -> forallb is_space ws = true ->
  id <> [] -> forallb (is_not (chr "}")) id = true -> stops is_space id ->
  re_match LogseqParser.re_youtube (js "{{youtube" ++ ws ++ id ++ js "}}" ++ rest)
  = Some (mkMatch (js "{{youtube" ++ ws ++ id ++ js "}}") (Some id) None).
Proof.
  intros Hws Hsp Hne Hid Hstop.
  assert (H : rmatch LogseqParser.re_youtube (fun s' c' => Some (s', c'))
                (js "{{youtube" ++ ws ++ id ++ js "}}" ++ rest) no_caps
              = Some (rest, (Some id, None))).
  { unfold LogseqParser.re_youtube.
    change (rmatch (RSeq (RLit (js "{{youtube")) ?r) ?k (js "{{youtube" ++ ?s) ?c)
      with (match strip_prefix (js "{{youtube") (js "{{youtube" ++ s) with
            | Some s' => rmatch r k s' c
            | None => None
            end).
    rewrite strip_prefix_complete.
    apply macro_with_argument; [exact Hws|exact Hsp|now apply stops_app|].
    cbn [rmatch].
    apply rep_greedy_max; [exact Hid| |reflexivity|].
    { destruct id; [contradiction|simpl; lia]. }
    now rewrite strip_prefix_complete, firstn_prefix. }
  unfold re_match. rewrite H. cbn [fst snd]. f_equal. f_equal.
  apply firstn_prefix_eq. now rewrite <- !app_assoc.
Qed.

Lemma re_video_match (ws u rest : jsstring) :
  ws <> [] -> forallb is_space ws = true ->
  u <> [] -> forallb (is_not (chr "}")) u = true ->
  re_match LogseqParser.re_video
    (js "{{video" ++ ws ++ (js "https://" ++ u) ++ js "}}" ++ rest)
  = Some (mkMatch (js "{{video" ++ ws ++ (js "https://" ++ u) ++ js "}}")
            (Some (js "https://" ++ u)) None).
Proof.
  intros Hws Hsp Hne Hu.
  assert (H : rmatch LogseqParser.re_video (fun s' c' => Some (s', c'))
                (js "{{video" ++ ws ++ (js "https://" ++ u) ++ js "}}" ++ rest) no_caps
              = Some (rest, (Some (js "https://" ++ u), None))).
  { unfold LogseqParser.re_video.
    change (rmatch (RSeq (RLit (js "{{video")) ?r) ?k (js "{{video" ++ ?s) ?c)
      with (match strip_prefix (js "{{video") (js "{{video" ++ s) with
            | Some s' => rmatch r k s' c
            | None => None
            end).
    rewrite strip_prefix_complete. cbn [rmatch].
    apply rep_greedy_max; [exact Hsp| |reflexivity|].
    { destruct ws; [contradiction|simpl; lia]. }
    unfold LogseqParser.re_scheme. cbn [rmatch].
    rewrite <- !app_assoc.
    change (js "https://" ++ u ++ js "}}" ++ rest)
      with (js "http" ++ js "s" ++ js "://" ++ u ++ js "}}" ++ rest).
    rewrite !strip_prefix_complete.
    match goal with
    | |- context [rep_greedy ?p ?k 1 (u ++ js "}}" ++ rest)] =>
        pose proof (rep_greedy_max p k u (js "}}" ++ rest) 1
                      (rest, (Some (js "https://" ++ u), None))) as Hr
    end.
    rewrite Hr; [reflexivity|exact Hu| |reflexivity|].
    { destruct u; [contradiction|simpl; lia]. }
    rewrite strip_prefix_complete. f_equal. f_equal. unfold setcap, no_caps. cbn [snd].
    f_equal. f_equal.
    apply (firstn_prefix_eq _ (js "https://" ++ u) (js "}}" ++ rest)).
    now rewrite <- !app_assoc. }
  unfold re_match. rewrite H. cbn [fst snd]. f_equal. f_equal.
  apply firstn_prefix_eq. now rewrite <- !app_assoc.
Qed.

Lemma codeBlock_needs_backquote (content : jsstring) (pos : Z) (y : char) (s : jsstring) :
  substring_from content pos = y :: s ->
  N.eqb 96 y = false ->
  LogseqParser.tryMatchCodeBlock content pos = None.
Proof.
  intros Hrem Hq. unfold LogseqParser.tryMatchCodeBlock. rewrite Hrem.
  unfold LogseqParser.re_codeBlock.
  now rewrite other_first_char by (eexists; eexists; split; [reflexivity|assumption]).
Qed.

Lemma youtube_url_is_youtube (id : jsstring) :
  LogseqParser.detectVideoType (youtube_url id) = youtube.
Proof.
  unfold LogseqParser.detectVideoType, youtube_url.
  change (js "https://www.youtube.com/watch?v=" ++ id)
    with (js "https://www." ++ js "youtube.com" ++ js "/watch?v=" ++ id).
  now rewrite includes_later by apply includes_here.
Qed.

Lemma youtube_url_id (id : jsstring) :
  id <> [] ->
  forallb (fun c => is_not (chr "&") c && is_not (chr "?") c) id = true ->
  LogseqParser.extractVideoId (youtube_url id) youtube = Some id.
Proof.
  intros Hne Hid. unfold LogseqParser.extractVideoId, youtube_url.
  change (js "https://www.youtube.com/watch?v=" ++ id)
    with (js "https://www." ++ js "youtube.com/watch?v=" ++ id).
  rewrite youtubeId_skip by reflexivity.
  now rewrite (youtubeId_found id Hne Hid).
Qed.

(** The two ways of writing a YouTube video give the same token, up to its
    length: the macro with the video id, and the macro with the address of
    the video.  The id is any text without white space around it and without
    closing brace, ampersand or question mark.  Since the generators do not
    read the length, the video is written the same way in every format. *)
Theorem youtube_macros_agree (c1 c2 : jsstring) (p1 p2 : Z)
        (ws1 ws2 id rest1 rest2 : jsstring) :
  substring_from c1 p1 = js "{{youtube" ++ ws1 ++ id ++ js "}}" ++ rest1 ->
  substring_from c2 p2 = js "{{video" ++ ws2 ++ youtube_url id ++ js "}}" ++ rest2 ->
  ws1 <> [] -> forallb is_space ws1 = true ->
  ws2 <> [] -> forallb is_space ws2 = true ->
  id <> [] -> stops is_space id -> trim id = id ->
  forallb (is_not (chr "}")) id = true ->
  forallb (fun c => is_not (chr "&") c && is_not (chr "?") c) id = true ->
  LogseqParser.nextToken c1 p1 = youtube_token id (9 + len ws1 + len id + 2)
  /\ LogseqParser.nextToken c2 p2
     = youtube_token id (7 + len ws2 + len (youtube_url id) + 2).
Proof.
  intros Hr1 Hr2 Hws1 Hsp1 Hws2 Hsp2 Hne Hstop Htrim Hbrace Hid. split.
  - pose proof (codeBlock_needs_backquote c1 p1 123%N
                  (js "{youtube" ++ ws1 ++ id ++ js "}}" ++ rest1) Hr1 eq_refl) as H1.
    unfold LogseqParser.nextToken, LogseqParser.orElse. rewrite H1.
    unfold LogseqParser.tryMatchQuery, LogseqParser.tryMatchVideoEmbed. rewrite Hr1.
    assert (Hv : re_match LogseqParser.re_video
                   (js "{{youtube" ++ ws1 ++ id ++ js "}}" ++ rest1) = None)
      by reflexivity.
    rewrite Hv, (re_youtube_match ws1 id rest1 Hws1 Hsp1 Hne Hbrace Hstop).
    cbn [g1 m0 group]. rewrite Htrim. unfold youtube_token, youtube_url. f_equal.
    rewrite !len_app. change (len (js "{{youtube")) with 9. change (len (js "}}")) with 2.
    lia.
  - pose proof (codeBlock_needs_backquote c2 p2 123%N
                  (js "{video" ++ ws2 ++ youtube_url id ++ js "}}" ++ rest2) Hr2 eq_refl)
      as H1.
    unfold LogseqParser.nextToken, LogseqParser.orElse. rewrite H1.
    unfold LogseqParser.tryMatchQuery, LogseqParser.tryMatchVideoEmbed. rewrite Hr2.
    assert (Hu : forallb (is_not (chr "}")) (js "www.youtube.com/watch?v=" ++ id) = true)
      by (rewrite forallb_app, Hbrace; reflexivity).
    assert (Hune : js "www.youtube.com/watch?v=" ++ id <> []) by discriminate.
    pose proof (re_video_match ws2 (js "www.youtube.com/watch?v=" ++ id) rest2
                  Hws2 Hsp2 Hune Hu) as Hm.
    change (js "https://" ++ js "www.youtube.com/watch?v=" ++ id)
      with (youtube_url id) in Hm.
    rewrite Hm. cbn [g1 m0 group].
    rewrite youtube_url_is_youtube, (youtube_url_id id Hne Hid).
    unfold youtube_token. f_equal.
    rewrite !len_app. change (len (js "{{video")) with 7. change (len (js "}}")) with 2.
    lia.
Qed.

Lemma youtube_macros_agree_witness :
  LogseqParser.nextToken (js "{{youtube dQw4w9WgXcQ}} x") 0
  = youtube_token (js "dQw4w9WgXcQ") (9 + len (js " ") + len (js "dQw4w9WgXcQ") + 2)
  /\ LogseqParser.nextToken
       (js "{{video https://www.youtube.com/watch?v=dQw4w9WgXcQ}}") 0
     = youtube_token (js "dQw4w9WgXcQ")
         (7 + len (js " ") + len (youtube_url (js "dQw4w9WgXcQ")) + 2).
Proof.
  apply (youtube_macros_agree
           (js "{{youtube dQw4w9WgXcQ}} x")
           (js "{{video https://www.youtube.com/watch?v=dQw4w9WgXcQ}}") 0 0
           (js " ") (js " ") (js "dQw4w9WgXcQ") (js " x") []).
  - reflexivity.
  - reflexivity.
  - discriminate.
  - reflexivity.
  - discriminate.
  - reflexivity.
  - discriminate.
  - reflexivity.
  - reflexivity.
  - reflexivity.
  - reflexivity.
Defined.

(** An address with a further parameter keeps the id up to the ampersand:
    the token differs from the one of the short macro by its address only. *)
Example youtube_address_with_parameter :
  let t := LogseqParser.nextToken
             (js "{{video https://www.youtube.com/watch?v=abc&t=10}}") 0 in
  meta videoId t = Some (js "abc")
  /\ MarkdownGenerator.generateToken t
     = MarkdownGenerator.generateToken (youtube_token (js "abc") 0).
Proof. vm_compute. split; reflexivity. Qed.

(* ================================================================== *)
(** * Further properties of the export of a page *)
(* ================================================================== *)

(** ** Cutting at the fetch and cutting at the rendering *)

Lemma children_cut {A : Type} (d X : Z) (ch : list RawBlock) (f : RawBlock -> A) :
  (if (d <? X) && nonempty_list ch then List.map f ch else [])
  = (if d <? X then List.map f ch else []).
Proof. destruct ch; destruct (d <? X); reflexivity. Qed.

Lemma beyond_next (o : ExportOptions) (m : Z) :
  maxDepth o = Some m -> 0 < m -> beyond_maxDepth o (m + 1) = true.
Proof.
  intros Hm Hpos. unfold beyond_maxDepth. rewrite Hm.
  assert (E1 : (m =? 0) = false) by (apply Z.eqb_neq; lia).
  assert (E2 : (m + 1 >? m) = true) by (apply Z.gtb_lt; lia).
  now rewrite E1, E2.
Qed.

Lemma markdown_fold_beyond (o : ExportOptions) (depth : Z) (l : list LogseqBlock) :
  beyond_maxDepth o depth = true ->
  forall lines,
    fold_left (fun lines child => MarkdownConverter.processBlock child lines depth o) l lines
    = lines.
Proof.
  intros Hb. induction l as [|[u c p ch] l IH]; intros lines; cbn [fold_left];
    [reflexivity|].
  rewrite markdown_processBlock_eq, Hb. apply IH.
Qed.

Lemma asciidoc_fold_beyond (o : ExportOptions) (depth : Z) (l : list LogseqBlock) :
  beyond_maxDepth o depth = true ->
  forall acc,
    fold_left
      (fun acc child =>
         AsciiDocConverter.processBlock child (fst acc) depth o (snd acc)) l acc
    = acc.
Proof.
  intros Hb. induction l as [|[u c p ch] l IH]; intros acc; cbn [fold_left];
    [reflexivity|].
  rewrite asciidoc_processBlock_eq, Hb. rewrite <- surjective_pairing. apply IH.
Qed.

Lemma markdown_cut (o : ExportOptions) (m M : Z) :
  maxDepth o = Some m -> 0 < m <= M ->
  forall raw d lines, 0 <= d <= m ->
    MarkdownConverter.processBlock (LogseqAPI.transformBlockWithChildren raw d M) lines d o
    = MarkdownConverter.processBlock (LogseqAPI.transformBlockWithChildren raw d m) lines d o.
Proof.
  intros Hm HM. induction raw as [u c p ch IH] using RawBlock_tree_ind.
  intros d lines Hd. cbn [LogseqAPI.transformBlockWithChildren].
  rewrite !children_cut, !markdown_processBlock_eq.
  destruct (beyond_maxDepth o d); [reflexivity|]. cbv zeta.
  unfold with_properties, wanted_properties, wanted_children. cbn [properties children].
  destruct (includeChildren o); [|reflexivity].
  destruct (d <? m) eqn:E.
  - apply Z.ltb_lt in E.
    assert (E' : (d <? M) = true) by (apply Z.ltb_lt; lia). rewrite E'.
    rewrite !fold_left_map_arg. apply fold_left_ext_Forall.
    eapply Forall_impl; [|exact IH]. intros child Hc a. apply Hc. lia.
  - apply Z.ltb_ge in E. assert (d = m) by lia. subst d. cbn [fold_left].
    destruct (m <? M); [|reflexivity].
    apply markdown_fold_beyond. now apply (beyond_next o m).
Qed.

Lemma asciidoc_cut (o : ExportOptions) (m M : Z) :
  maxDepth o = Some m -> 0 < m <= M ->
  forall raw d lines st, 0 <= d <= m ->
    AsciiDocConverter.processBlock (LogseqAPI.transformBlockWithChildren raw d M)
      lines d o st
    = AsciiDocConverter.processBlock (LogseqAPI.transformBlockWithChildren raw d m)
        lines d o st.
Proof.
  intros Hm HM. induction raw as [u c p ch IH] using RawBlock_tree_ind.
  intros d lines st Hd. cbn [LogseqAPI.transformBlockWithChildren].
  rewrite !children_cut, !asciidoc_processBlock_eq.
  destruct (beyond_maxDepth o d); [reflexivity|]. cbv zeta.
  unfold with_properties, wanted_properties, wanted_children. cbn [properties children].
  destruct (includeChildren o); [|reflexivity].
  destruct (d <? m) eqn:E.
  - apply Z.ltb_lt in E.
    assert (E' : (d <? M) = true) by (apply Z.ltb_lt; lia). rewrite E'.
    rewrite !fold_left_map_arg. apply fold_left_ext_Forall.
    eapply Forall_impl; [|exact IH]. intros child Hc a. apply Hc. lia.
  - apply Z.ltb_ge in E. assert (d = m) by lia. subst d. cbn [fold_left].
    destruct (m <? M); [|reflexivity].
    apply asciidoc_fold_beyond. now apply (beyond_next o m).
Qed.

(** ** A page is its blocks, one after the other *)

Lemma convertBlock_result (st : AsciiDocConverter.State) (b : LogseqBlock)
      (o : ExportOptions) :
  fst (ExportService.convertBlock st b o) = convert_from st b o.
Proof. unfold ExportService.convertBlock, convert_from. destruct (format o); reflexivity. Qed.

Lemma convert_from_any_state (st st' : AsciiDocConverter.State) (b : LogseqBlock)
      (o : ExportOptions) :
  convert_from st b o = convert_from st' b o.
Proof. unfold convert_from. destruct (format o); reflexivity. Qed.

Lemma pageLoop_acc (o : ExportOptions) (bs : list LogseqBlock) :
  forall lines total st,
    fst (fold_left
           (fun acc block =>
              let result := ExportService.convertBlock (snd acc) block o in
              (fst (fst acc) ++ [result_content (fst result)],
               snd (fst acc) + blockCount (fst result),
               snd result))
           bs (lines, total, st))
    = (lines ++ List.map (fun b => result_content (convert b o)) bs,
       total + sum (List.map (fun b => blockCount (convert b o)) bs)).
Proof.
  induction bs as [|b bs IH]; intros lines total st; cbn [fold_left List.map sum fold_right].
  - cbn [fst]. now rewrite app_nil_r, Z.add_0_r.
  - cbv zeta. cbn [fst snd]. rewrite IH, convertBlock_result.
    rewrite (convert_from_any_state st None). fold (convert b o).
    rewrite <- app_assoc. cbn [app]. f_equal. fold (sum (List.map (fun b0 => blockCount (convert b0 o)) bs)).
    lia.
Qed.

(** The export of a page converts each top-level block of the page on its
    own, whatever the conversion before it left behind, with the tree below
    it cut at ten levels; the contents are joined with an empty line between
    them and [blockCount] is the sum of the counts.  A page without blocks,
    or no page at all, is an error. *)
Theorem page_is_blocks_joined (st : AsciiDocConverter.State)
        (pageBlocks : list RawBlock) (options : ExportOptions) :
  ExportService.exportCurrentPage st (Some pageBlocks) options
  = (if nonempty_list pageBlocks then
       Some (mkResult
               (join [nl; nl]
                  (List.map
                     (fun raw =>
                        result_content
                          (convert (LogseqAPI.transformBlockWithChildren raw 0 10) options))
                     pageBlocks))
               (format options)
               (sum (List.map
                       (fun raw =>
                          blockCount
                            (convert (LogseqAPI.transformBlockWithChildren raw 0 10) options))
                       pageBlocks)))
     else None)
  /\ ExportService.exportCurrentPage st None options = None.
Proof.
  split; [|reflexivity].
  unfold ExportService.exportCurrentPage, ExportService.pageLoop.
  cbn [LogseqAPI.getCurrentPageBlocks].
  assert (Hne : nonempty_list
                  (List.map (fun block => LogseqAPI.transformBlockWithChildren block 0 10)
                     pageBlocks)
                = nonempty_list pageBlocks) by (destruct pageBlocks; reflexivity).
  rewrite Hne. destruct (nonempty_list pageBlocks); [|reflexivity].
  cbv zeta. rewrite pageLoop_acc. cbn [fst snd app]. now rewrite !List.map_map, Z.add_0_l.
Qed.

(** ** A page of one block and the export of that block *)

(** The export of a block fetches the tree down to [maxDepth] (ten when it
    is absent or zero); the export of a page always fetches ten levels and
    leaves the limit to the converter.  For Markdown and AsciiDoc, and a
    limit of at most ten, the two ways give the same content: a page that
    consists of one block has the content of the export of that block. *)
Theorem page_of_one_block (st st' : AsciiDocConverter.State) (raw : RawBlock)
        (options : ExportOptions) :
  format options <> html ->
  match maxDepth options with Some m => 0 <= m <= 10 | None => True end ->
  exists page block,
    ExportService.exportCurrentPage st (Some [raw]) options = Some page
    /\ ExportService.exportBlock st' (Some raw) options = Some block
    /\ result_content page = result_content block.
Proof.
  intros Hf Hm.
  eexists. eexists. split; [reflexivity|]. split; [reflexivity|].
  unfold ExportService.pageLoop.
  cbn [LogseqAPI.getCurrentPageBlocks List.map fold_left fst snd app result_content join].
  rewrite convertBlock_result, (convert_from_any_state st st').
  unfold ExportService.blockToExport. destruct (includeChildren options) eqn:Hic.
  - unfold ExportService.maxDepth_or_10.
    destruct (maxDepth options) as [m|] eqn:Em; [|reflexivity].
    destruct (m =? 0) eqn:E0; [reflexivity|]. apply Z.eqb_neq in E0.
    unfold convert_from. destruct (format options); [| |contradiction].
    + unfold MarkdownConverter.convertBlock. cbn [result_content].
      now rewrite (markdown_cut options m 10 Em) by lia.
    + unfold AsciiDocConverter.convertBlock. cbn [fst result_content].
      now rewrite (asciidoc_cut options m 10 Em) by lia.
  - destruct raw as [u c p ch].
    cbn [LogseqAPI.transformBlockWithChildren LogseqAPI.transformBlock].
    f_equal. now apply convert_ignores_children.
Qed.

Lemma page_of_one_block_witness :
  exists page block,
    ExportService.exportCurrentPage None
      (Some [mkRaw [] (Some (js "a")) None [mkRaw [] (Some (js "b")) None []]])
      (mkOptions markdown true false (Some 1)) = Some page
    /\ ExportService.exportBlock None
         (Some (mkRaw [] (Some (js "a")) None [mkRaw [] (Some (js "b")) None []]))
         (mkOptions markdown true false (Some 1)) = Some block
    /\ result_content page = result_content block.
Proof.
  apply (page_of_one_block None None
           (mkRaw [] (Some (js "a")) None [mkRaw [] (Some (js "b")) None []])
           (mkOptions markdown true false (Some 1))).
  - discriminate.
  - simpl. lia.
Defined.

(** In HTML the two ways differ, since the HTML converter applies no limit
    below the root: the page shows the third level, the block does not.  In
    every format the page counts the blocks below the limit as well. *)
Example page_and_block_in_html :
  let raw := mkRaw [] (Some (js "a")) None
               [mkRaw [] (Some (js "b")) None [mkRaw [] (Some (js "c")) None []]] in
  let html_options := mkOptions html true false (Some 1) in
  let markdown_options := mkOptions markdown true false (Some 1) in
  option_map result_content
    (ExportService.exportCurrentPage None (Some [raw]) html_options)
  = Some (js "a<ul><li>b<ul><li>c</li></ul></li></ul>")
  /\ option_map result_content (ExportService.exportBlock None (Some raw) html_options)
     = Some (js "a<ul><li>b</li></ul>")
  /\ option_map blockCount
       (ExportService.exportCurrentPage None (Some [raw]) markdown_options) = Some 3
  /\ option_map blockCount (ExportService.exportBlock None (Some raw) markdown_options)
     = Some 2.
Proof. vm_compute. repeat split. Qed.

(* ================================================================== *)
(** * Further properties of code blocks and images *)
(* ================================================================== *)

(** ** A lazy repetition stops at the first fence *)

Lemma rep_lazy_exact {R : Type} (p : char -> bool) (k : jsstring -> option R) :
  forall pre s' r,
    forallb p pre = true ->
    k s' = Some r ->
    (forall a b, pre = a ++ b -> b <> [] -> k (b ++ s') = None) ->
    rep_lazy p k 0 (pre ++ s') = Some r.
Proof.
  induction pre as [|x pre IH]; intros s' r Hall Hk Hnone.
  - cbn [app]. destruct s'; cbn [rep_lazy]; now rewrite Hk.
  - cbn [forallb] in Hall. apply andb_true_iff in Hall as [Px Hall].
    cbn [app rep_lazy Nat.pred].
    change (x :: pre ++ s') with ((x :: pre) ++ s').
    rewrite (Hnone [] (x :: pre) eq_refl) by discriminate.
    rewrite Px. apply IH; [exact Hall|exact Hk|].
    intros a b -> Hb. apply (Hnone (x :: a) b eq_refl Hb).
Qed.

Lemma includes_suffix_false (a s p : jsstring) :
  includes (a ++ s) p = false -> includes s p = false.
Proof.
  intros H. destruct (includes s p) eqn:E; [|reflexivity].
  now rewrite (includes_later a s p E) in H.
Qed.

Lemma includes_false_start (s p : jsstring) :
  includes s p = false -> startsWith s p = false.
Proof. destruct s; cbn [includes]; intros H; now apply orb_false_iff in H. Qed.

Lemma strip_prefix_longer (p s x : jsstring) :
  (List.length p <= List.length s)%nat ->
  strip_prefix p s = None -> strip_prefix p (s ++ x) = None.
Proof.
  revert s. induction p as [|y p IH]; intros s Hl H; [discriminate|].
  destruct s as [|z s]; [simpl in Hl; lia|].
  cbn [app strip_prefix] in *. destruct (N.eqb y z); [|reflexivity].
  apply IH; [simpl in Hl; lia|exact H].
Qed.

(** Inside a body that has no fence before its end, no fence starts. *)
Lemma no_fence_inside (body rest a b : jsstring) :
  includes (body ++ js "``") (js "```") = false ->
  body = a ++ b -> b <> [] ->
  strip_prefix (js "```") (b ++ js "```" ++ rest) = None.
Proof.
  intros Hno -> Hb. rewrite <- app_assoc in Hno.
  apply includes_suffix_false, includes_false_start in Hno.
  unfold startsWith in Hno.
  change (b ++ js "```" ++ rest) with (b ++ js "``" ++ js "`" ++ rest).
  rewrite app_assoc. apply strip_prefix_longer.
  - rewrite length_app. destruct b; [contradiction|simpl; lia].
  - now destruct (strip_prefix (js "```") (b ++ js "``")).
Qed.

Lemma fence_body (body rest : jsstring) (c : caps) :
  includes (body ++ js "``") (js "```") = false ->
  rmatch (RSeq (RLit [nl]) (RSeq (RGroup 2 (RRep false 0 is_any)) (RLit (js "```"))))
    (fun s' c' => Some (s', c')) ([nl] ++ body ++ js "```" ++ rest) c
  = Some (rest, setcap 2 body c).
Proof.
  intros Hno. cbn [rmatch]. rewrite strip_prefix_complete.
  apply rep_lazy_exact.
  - clear. induction body; [reflexivity|exact IHbody].
  - now rewrite strip_prefix_complete, firstn_prefix.
  - intros a b Hab Hb. now rewrite (no_fence_inside body rest a b Hno Hab Hb).
Qed.

Lemma re_codeBlock_match (lang body rest : jsstring) :
  forallb is_word lang = true ->
  includes (body ++ js "``") (js "```") = false ->
  re_match LogseqParser.re_codeBlock
    (js "```" ++ lang ++ [nl] ++ body ++ js "```" ++ rest)
  = Some (mkMatch (js "```" ++ lang ++ [nl] ++ body ++ js "```")
            (if nonempty lang then Some lang else None) (Some body)).
Proof.
  intros Hlang Hno.
  assert (H : rmatch LogseqParser.re_codeBlock (fun s' c' => Some (s', c'))
                (js "```" ++ lang ++ [nl] ++ body ++ js "```" ++ rest) no_caps
              = Some (rest, ((if nonempty lang then Some lang else None), Some body))).
  { unfold LogseqParser.re_codeBlock.
    change (rmatch (RSeq (RLit (js "```")) ?r) ?k (js "```" ++ ?s) ?c)
      with (match strip_prefix (js "```") (js "```" ++ s) with
            | Some s' => rmatch r k s' c
            | None => None
            end).
    rewrite strip_prefix_complete.
    change (rmatch (RSeq (ROpt (RGroup 1 (RRep true 1 is_word))) ?r) ?k ?s ?c)
      with (match
               rep_greedy is_word
                 (fun s' => rmatch r k s'
                              (setcap 1 (firstn (List.length s - List.length s') s) c))
                 1 s
             with
             | Some x => Some x
             | None => rmatch r k s c
             end).
    destruct lang as [|x lang].
    - cbn [app rep_greedy]. change (is_word nl) with false. cbv iota.
      exact (fence_body body rest no_caps Hno).
    - rewrite (rep_greedy_max _ _ (x :: lang) ([nl] ++ body ++ js "```" ++ rest) 1
                 (rest, (Some (x :: lang), Some body)));
        [reflexivity|exact Hlang|simpl; lia|reflexivity|].
      rewrite firstn_prefix. exact (fence_body body rest _ Hno). }
  unfold re_match. rewrite H. cbn [fst snd]. f_equal. f_equal.
  apply firstn_prefix_eq. now rewrite <- !app_assoc.
Qed.

(** ** The token of a code block *)

Lemma codeBlock_token (content : jsstring) (pos : Z) (lang body rest : jsstring) :
  substring_from content pos = js "```" ++ lang ++ [nl] ++ body ++ js "```" ++ rest ->
  forallb is_word lang = true ->
  includes (body ++ js "``") (js "```") = false ->
  LogseqParser.nextToken content pos
  = mkToken codeBlock body
      (Some (mkMeta (Some lang) None None None None None None None))
      (len (js "```" ++ lang ++ [nl] ++ body ++ js "```")).
Proof.
  intros Hrem Hlang Hno.
  unfold LogseqParser.nextToken, LogseqParser.orElse, LogseqParser.tryMatchCodeBlock.
  rewrite Hrem, (re_codeBlock_match lang body rest Hlang Hno).
  cbn [g1 g2 m0 group]. destruct lang; reflexivity.
Qed.

(** A content that is one token. *)
Lemma parse_single (content : jsstring) (t : Token) :
  content <> [] ->
  LogseqParser.nextToken content 0 = t ->
  length t = len content ->
  LogseqParser.parse content = [t].
Proof.
  intros Hne Ht Hl. unfold LogseqParser.parse, LogseqParser.parse_fuel.
  destruct content as [|x s]; [contradiction|].
  cbn [List.length LogseqParser.parse_loop].
  assert (Hlt : (0 <? len (x :: s)) = true)
    by (apply Z.ltb_lt; rewrite len_cons; pose proof (len_nonneg s); lia).
  rewrite Hlt, Ht, Hl. cbn [app].
  assert (Hge : (0 + len (x :: s) <? len (x :: s)) = false) by (apply Z.ltb_ge; lia).
  destruct (List.length s); cbn [LogseqParser.parse_loop]; now rewrite Hge.
Qed.

Lemma word_is_safe (c : char) :
  is_word c = true ->
  negb (N.eqb c 38 || html_special c) = true /\ negb (N.eqb c nl) = true.
Proof.
  unfold is_word, is_digit, in_range, html_special, nl.
  change (chr "<") with 60%N. change (chr ">") with 62%N.
  change dq with 34%N. change sq with 39%N.
  intros H.
  repeat match type of H with
         | (_ || _) = true => apply orb_true_iff in H as [H|H]
         | (_ && _) = true => apply andb_true_iff in H as [? ?]
         end;
    repeat match goal with
           | H : N.leb _ _ = true |- _ => apply N.leb_le in H
           | H : N.eqb _ _ = true |- _ => apply N.eqb_eq in H
           end;
    split; rewrite ?negb_true_iff, ?orb_false_iff; repeat split;
    apply N.eqb_neq; lia.
Qed.

Lemma replace_all_single_line (rep s : jsstring) :
  single_line s = true -> replace_all nl rep s = s.
Proof.
  induction s as [|x s IH]; [reflexivity|].
  unfold single_line. cbn [forallb]. intros H. apply andb_true_iff in H as [Hx Hs].
  change (x :: s) with ([x] ++ s). rewrite replace_all_app, replace_all_char.
  apply negb_true_iff in Hx. rewrite Hx. now rewrite (IH Hs).
Qed.

Lemma word_text (lang : jsstring) :
  forallb is_word lang = true -> escapeHtml lang = lang /\ single_line lang = true.
Proof.
  intros H. split.
  - apply escapeHtml_keeps_safe_text.
    induction lang as [|x lang IH]; [reflexivity|].
    cbn [forallb] in *. apply andb_true_iff in H as [Hx H].
    destruct (word_is_safe x Hx) as [-> _]. now apply IH.
  - unfold single_line. induction lang as [|x lang IH]; [reflexivity|].
    cbn [forallb] in *. apply andb_true_iff in H as [Hx H].
    destruct (word_is_safe x Hx) as [_ ->]. now apply IH.
Qed.

(** ** A code block in the three formats *)

Lemma not_a_heading (x : char) (s : jsstring) :
  N.eqb 35 x = false ->
  AsciiDocConverter.isHeading (x :: s) = false
  /\ HtmlConverter.isHeading (x :: s) = false.
Proof.
  intros Hx.
  unfold AsciiDocConverter.isHeading, HtmlConverter.isHeading, re_test, re_match,
    AsciiDocConverter.re_isHeading, HtmlConverter.re_isHeading, re_hashes.
  cbn [rmatch]. change (js "#") with [35%N]. cbn [strip_prefix]. now rewrite Hx.
Qed.

(** A block whose content is one fenced code block, with a language made of
    word characters (or none) and a body without fence.  Markdown keeps it
    and, below the root, indents each of its lines without a bullet.
    AsciiDoc writes a source block after an empty line, never as a list
    item and without touching the stored offset, at any depth.  HTML writes
    a [pre] element in which the line feeds of the body have become [br]
    elements. *)
Theorem code_block_in_three_formats (lang body : jsstring) (depth : Z)
        (st : AsciiDocConverter.State) :
  forallb is_word lang = true ->
  includes (body ++ js "``") (js "```") = false ->
  let content := js "```" ++ lang ++ [nl] ++ body ++ js "```" in
  MarkdownConverter.convertBlockContent content depth
  = (if depth >? 0
     then join [nl]
            (List.map (fun line => repeat (js "  ") depth ++ line) (split_on nl content))
     else content)
  /\ AsciiDocConverter.convertBlockContent content depth st
     = ([nl] ++ (if nonempty lang then js "[source," ++ lang ++ js "]" else js "[source]")
          ++ [nl] ++ js "----" ++ [nl] ++ trim body ++ [nl] ++ js "----",
        st)
  /\ HtmlConverter.convertBlockContent content
     = js "<pre><code"
         ++ (if nonempty lang
             then js " class=" ++ [dq] ++ js "language-" ++ lang ++ [dq]
             else [])
         ++ js ">" ++ replace_all nl (js "<br>") (escapeHtml body) ++ js "</code></pre>".
Proof.
  intros Hlang Hno content.
  assert (Hblank : blank content = false) by (now apply line_not_blank).
  assert (Hparse : LogseqParser.parse content
                   = [mkToken codeBlock body
                        (Some (mkMeta (Some lang) None None None None None None None))
                        (len content)]).
  { apply parse_single; [discriminate| |reflexivity].
    apply (codeBlock_token content 0 lang body []); [|exact Hlang|exact Hno].
    subst content. change (substring_from ?s 0) with s. now rewrite app_nil_r. }
  destruct (word_text lang Hlang) as [Hesc Hone].
  split; [|split].
  - unfold MarkdownConverter.convertBlockContent. rewrite Hblank. cbv zeta.
    assert (Hconv : MarkdownConverter.convertLogseqSyntax content = content).
    { unfold MarkdownConverter.convertLogseqSyntax, MarkdownGenerator.generate,
        generate_with. rewrite Hparse.
      cbn [List.map join MarkdownGenerator.generateToken type
             MarkdownGenerator.generateCodeBlock].
      unfold meta. cbn [metadata language value]. now destruct lang. }
    rewrite Hconv.
    assert (Hfence : startsWith content (js "```") = true) by reflexivity.
    now rewrite Hfence.
  - unfold AsciiDocConverter.convertBlockContent. rewrite Hblank. cbv zeta.
    assert (Hconv : AsciiDocConverter.convertLogseqSyntax content
                    = js "[source" ++ (if nonempty lang then js "," ++ lang else []) ++ js "]"
                        ++ [nl] ++ js "----" ++ [nl] ++ trim body ++ [nl] ++ js "----").
    { unfold AsciiDocConverter.convertLogseqSyntax, AsciiDocGenerator.generate,
        generate_with. rewrite Hparse.
      cbn [List.map join AsciiDocGenerator.generateToken type
             AsciiDocGenerator.generateCodeBlock].
      unfold AsciiDocGenerator.generateCodeBlock, meta. cbn [metadata language value].
      destruct lang; [reflexivity|]. cbn [str_or nonempty].
      rewrite <- !app_assoc. reflexivity. }
    rewrite Hconv.
    destruct (first_line_prefix (js "[source")
                ((if nonempty lang then js "," ++ lang else []) ++ js "]"
                   ++ [nl] ++ js "----" ++ [nl] ++ trim body ++ [nl] ++ js "----")
                eq_refl) as (cur & more & ->).
    cbn [item nth].
    destruct (not_a_heading 91%N (js "source" ++ cur) eq_refl) as [Hh _].
    replace (AsciiDocConverter.isHeading (js "[source" ++ cur)) with false
      by (symmetry; exact Hh).
    unfold startsWith. rewrite strip_prefix_complete.
    destruct lang; cbn [nonempty]; [reflexivity|].
    change (js "[source,") with (js "[source" ++ js ",").
    f_equal. rewrite <- !app_assoc. reflexivity.
  - unfold HtmlConverter.convertBlockContent. rewrite Hblank. cbv zeta.
    destruct (first_line_prefix (js "```") (lang ++ [nl] ++ body ++ js "```") eq_refl)
      as (cur & more & Hs).
    fold content in Hs. rewrite Hs. cbn [item nth].
    destruct (not_a_heading 96%N (js "``" ++ cur) eq_refl) as [_ Hh].
    replace (HtmlConverter.isHeading (js "```" ++ cur)) with false
      by (symmetry; exact Hh).
    unfold HtmlConverter.convertLogseqSyntax, HtmlGenerator.generate, generate_with.
    rewrite Hparse.
    cbn [List.map join HtmlGenerator.generateToken type].
    unfold HtmlGenerator.generateCodeBlock, meta. cbn [metadata language value].
    assert (Hl : str_or (Some lang) [] = lang) by (now destruct lang).
    rewrite Hl, Hesc, !replace_all_app.
    assert (Hclass : replace_all nl (js "<br>")
                       (if nonempty lang
                        then js " class=" ++ [dq] ++ js "language-" ++ lang ++ [dq]
                        else [])
                     = (if nonempty lang
                        then js " class=" ++ [dq] ++ js "language-" ++ lang ++ [dq]
                        else [])).
    { apply replace_all_single_line. destruct (nonempty lang); [|reflexivity].
      rewrite !single_line_app, Hone. reflexivity. }
    f_equal. f_equal. exact Hclass.
Qed.

Lemma code_block_in_three_formats_witness :
  let content := js "```" ++ js "js" ++ [nl] ++ (js "x = 1" ++ [nl]) ++ js "```" in
  MarkdownConverter.convertBlockContent content 2
  = (if 2 >? 0
     then join [nl]
            (List.map (fun line => repeat (js "  ") 2 ++ line) (split_on nl content))
     else content)
  /\ AsciiDocConverter.convertBlockContent content 2 (Some 0)
     = ([nl] ++ (if nonempty (js "js") then js "[source," ++ js "js" ++ js "]"
                 else js "[source]")
          ++ [nl] ++ js "----" ++ [nl] ++ trim (js "x = 1" ++ [nl]) ++ [nl] ++ js "----",
        Some 0)
  /\ HtmlConverter.convertBlockContent content
     = js "<pre><code"
         ++ (if nonempty (js "js")
             then js " class=" ++ [dq] ++ js "language-" ++ js "js" ++ [dq]
             else [])
         ++ js ">" ++ replace_all nl (js "<br>") (escapeHtml (js "x = 1" ++ [nl]))
         ++ js "</code></pre>".
Proof.
  apply (code_block_in_three_formats (js "js") (js "x = 1" ++ [nl]) 2 (Some 0)).
  - reflexivity.
  - reflexivity.
Defined.

(** A body that ends with a backquote closes one character early: the code
    block loses the backquote, which follows as text. *)
Example code_block_body_ending_with_backquote :
  List.map summary (LogseqParser.parse (js "```" ++ [nl] ++ js "a`" ++ js "```"))
  = [(codeBlock, js "a", 8); (text, js "`", 1)].
Proof. vm_compute. reflexivity. Qed.

(** ** An image in the three formats *)

Lemma image_parts (rem : jsstring) (m : MatchResult) :
  re_match LogseqParser.re_image rem = Some m ->
  exists alt src rest,
    rem = m0 m ++ rest
    /\ m0 m = js "![" ++ alt ++ js "](" ++ src ++ js ")"
    /\ g1 m = Some alt /\ g2 m = Some src
    /\ src <> []
    /\ forallb (is_not (chr "]")) alt = true
    /\ forallb (is_not (chr ")")) src = true.
Proof.
  intros H. unfold LogseqParser.re_image in H. Captures.open_match H E.
  Captures.literal E s1.
  apply rep_greedy_inv in E as (alt & s2 & -> & _ & Hp1 & E).
  Captures.literal E s3.
  apply rep_greedy_inv in E as (src & s4 & -> & Hn2 & Hp2 & E).
  Captures.literal E s5.
  rewrite !firstn_prefix in E. injection E as <- <-.
  rewrite (firstn_prefix_eq _ (js "![" ++ alt ++ js "](" ++ src ++ js ")") s5) in H
    by (now rewrite <- !app_assoc).
  injection H as <-. cbn [m0 g1 g2 fst snd setcap no_caps].
  exists alt, src, s5. repeat split; auto; try Captures.list_eq.
  destruct src; [simpl in Hn2; lia|discriminate].
Qed.

Lemma str_or_twice (x d : jsstring) :
  str_or (Some (str_or (Some x) [])) d = (if nonempty x then x else d).
Proof. destruct x; reflexivity. Qed.

(** An image token is [![alt](src)] in the source, with an alternative text
    without closing bracket, possibly empty, and a source without closing
    parenthesis, not empty.  A source that starts with [http://] or
    [https://] gives an image of the format; any other source, a local
    asset, gives a note in bold with the alternative text, or with
    [no description] when there is none, followed by the source. *)
Theorem image_in_three_formats (content : jsstring) (pos : Z) :
  0 <= pos < len content ->
  let t := LogseqParser.nextToken content pos in
  type t = image ->
  exists alt src,
    substring content pos (pos + length t) = js "![" ++ alt ++ js "](" ++ src ++ js ")"
    /\ src <> []
    /\ forallb (is_not (chr "]")) alt = true
    /\ forallb (is_not (chr ")")) src = true
    /\ MarkdownGenerator.generateToken t
       = (if startsWith src (js "http://") || startsWith src (js "https://")
          then js "![" ++ alt ++ js "](" ++ src ++ js ")"
          else js "**[Image: " ++ (if nonempty alt then alt else js "no description")
                 ++ js "]** (local file: " ++ src ++ js ")")
    /\ AsciiDocGenerator.generateToken t
       = (if startsWith src (js "http://") || startsWith src (js "https://")
          then js "image::" ++ src ++ js "[" ++ alt ++ js "]"
          else js "*[Image: " ++ (if nonempty alt then alt else js "no description")
                 ++ js "]* (local file: " ++ src ++ js ")")
    /\ HtmlGenerator.generateToken t
       = (if startsWith src (js "http://") || startsWith src (js "https://")
          then js "<img src=" ++ [dq] ++ escapeHtml src ++ [dq] ++ js " alt=" ++ [dq]
                 ++ escapeHtml alt ++ [dq] ++ js " />"
          else js "<strong>[Image: "
                 ++ escapeHtml (if nonempty alt then alt else js "no description")
                 ++ js "]</strong> <em>(local file: " ++ escapeHtml src ++ js ")</em>").
Proof.
  intros Hpos t Hty. subst t.
  assert (Hpos' : 0 <= pos <= len content) by lia.
  pose proof (TokenKinds.nextToken_origin content pos) as Ho. cbv zeta in Ho.
  rewrite Hty in Ho. clear Hty.
  unfold LogseqParser.tryMatchImage in Ho.
  destruct (re_match LogseqParser.re_image (substring_from content pos))
    as [m|] eqn:E; [|discriminate].
  destruct (image_parts _ _ E) as (alt & src & rest & Hr & Hm & H1 & H2 & Hn & Hp1 & Hp2).
  injection Ho as Ho. rewrite <- Ho. clear Ho.
  exists alt, src. cbn [length].
  rewrite (span_of_prefix content pos (m0 m) rest Hpos' Hr).
  repeat (split; [assumption|]).
  rewrite <- is_external_spec.
  unfold MarkdownGenerator.generateToken, MarkdownGenerator.generateImage,
    AsciiDocGenerator.generateToken, AsciiDocGenerator.generateImage,
    HtmlGenerator.generateToken, HtmlGenerator.generateImage, isExternal, meta.
  cbn [type metadata altText linkTarget isExternalUrl value].
  rewrite H1, H2. cbn [group].
  rewrite !str_or_twice, (str_or_nonempty src [] Hn), str_or_some_nil.
  repeat split.
Qed.

Lemma image_in_three_formats_witness :
  let t := LogseqParser.nextToken (js "![](../assets/a.png)") 0 in
  exists alt src,
    substring (js "![](../assets/a.png)") 0 (0 + length t)
    = js "![" ++ alt ++ js "](" ++ src ++ js ")"
    /\ src <> []
    /\ forallb (is_not (chr "]")) alt = true
    /\ forallb (is_not (chr ")")) src = true
    /\ MarkdownGenerator.generateToken t
       = (if startsWith src (js "http://") || startsWith src (js "https://")
          then js "![" ++ alt ++ js "](" ++ src ++ js ")"
          else js "**[Image: " ++ (if nonempty alt then alt else js "no description")
                 ++ js "]** (local file: " ++ src ++ js ")")
    /\ AsciiDocGenerator.generateToken t
       = (if startsWith src (js "http://") || startsWith src (js "https://")
          then js "image::" ++ src ++ js "[" ++ alt ++ js "]"
          else js "*[Image: " ++ (if nonempty alt then alt else js "no description")
                 ++ js "]* (local file: " ++ src ++ js ")")
    /\ HtmlGenerator.generateToken t
       = (if startsWith src (js "http://") || startsWith src (js "https://")
          then js "<img src=" ++ [dq] ++ escapeHtml src ++ [dq] ++ js " alt=" ++ [dq]
                 ++ escapeHtml alt ++ [dq] ++ js " />"
          else js "<strong>[Image: "
                 ++ escapeHtml (if nonempty alt then alt else js "no description")
                 ++ js "]</strong> <em>(local file: " ++ escapeHtml src ++ js ")</em>").
Proof.
  apply (image_in_three_formats (js "![](../assets/a.png)") 0).
  - vm_compute. split; [discriminate|reflexivity].
  - vm_compute. reflexivity.
Defined.

Example local_image_without_description :
  MarkdownConverter.convertLogseqSyntax (js "![](../assets/a.png)")
  = js "**[Image: no description]** (local file: ../assets/a.png)".
Proof. vm_compute. reflexivity. Qed.

(** ** A heading line through the parser *)

Lemma substring_from_app (pre s : jsstring) :
  substring_from (pre ++ s) (len pre) = s.
Proof.
  unfold substring_from, len. rewrite Nat2Z.id, skipn_app, skipn_all, Nat.sub_diag.
  reflexivity.
Qed.

Lemma hash_is_no_task (s : jsstring) :
  re_match LogseqParser.re_taskMarker (35%N :: s) = None.
Proof.
  unfold re_match, LogseqParser.re_taskMarker. cbn [rmatch].
  assert (H : forall l, (exists x l', l = x :: l' /\ N.eqb x 35 = false) ->
                        strip_prefix l (35%N :: s) = None).
  { intros l (x & l' & -> & Hx). cbn [strip_prefix]. now rewrite Hx. }
  rewrite !H by other_literal. reflexivity.
Qed.

Lemma nakedUrl_needs_scheme (s : jsstring) :
  re_match LogseqParser.re_scheme s = None -> re_match LogseqParser.re_nakedUrl s = None.
Proof.
  intros no_url.
  destruct (re_match LogseqParser.re_nakedUrl s) eqn:E; [|reflexivity]. exfalso.
  assert (Hm : re_match LogseqParser.re_nakedUrl s <> None) by congruence.
  apply re_match_iff in Hm as (pre & rest & Hs & Hm).
  unfold LogseqParser.re_nakedUrl in Hm.
  inversion Hm as [| | | | | | | |i a pre' rest' Hseq|]; subst.
  inversion Hseq as [| |a b p1 p2 rest' H1 H2| | | | | | |]; subst.
  assert (Hyes : re_match LogseqParser.re_scheme ((p1 ++ p2) ++ rest) <> None).
  { apply re_match_iff. exists p1, (p2 ++ rest). split; [now rewrite app_assoc|exact H1]. }
  contradiction.
Qed.

(** A hash that no tag name follows is a text token of its own. *)
Lemma hash_token (content : jsstring) (pos : Z) (s : jsstring) :
  substring_from content pos = 35%N :: s ->
  stops (fun c => is_word c || N.eqb c (chr "-")) s ->
  LogseqParser.nextToken content pos = mkToken text (js "#") None 1.
Proof.
  intros Hrem Hstop.
  destruct (first_matchers_need_their_char content pos 35%N s Hrem eq_refl eq_refl)
    as [Hcode Hquery].
  assert (Htask : LogseqParser.tryMatchTaskMarker content pos = None).
  { unfold LogseqParser.tryMatchTaskMarker.
    destruct (LogseqParser.not_at_line_start content pos); [reflexivity|].
    now rewrite Hrem, hash_is_no_task. }
  assert (Hquote : LogseqParser.tryMatchBlockquote content pos = None).
  { unfold LogseqParser.tryMatchBlockquote.
    destruct (LogseqParser.not_at_line_start content pos); [reflexivity|].
    rewrite Hrem. unfold LogseqParser.re_blockquote.
    now rewrite other_first_char by other_literal. }
  assert (Himage : LogseqParser.tryMatchImage content pos = None).
  { unfold LogseqParser.tryMatchImage. rewrite Hrem. unfold LogseqParser.re_image.
    now rewrite other_first_char by other_literal. }
  assert (Hlink : LogseqParser.tryMatchMarkdownLink content pos = None).
  { unfold LogseqParser.tryMatchMarkdownLink. rewrite Hrem.
    unfold LogseqParser.re_markdownLink.
    now rewrite other_first_char by other_literal. }
  assert (Href : LogseqParser.tryMatchBlockRef content pos = None).
  { unfold LogseqParser.tryMatchBlockRef. rewrite Hrem. unfold LogseqParser.re_blockRef.
    now rewrite other_first_char by other_literal. }
  assert (Hscheme : re_match LogseqParser.re_scheme (35%N :: s) = None).
  { unfold LogseqParser.re_scheme. now rewrite other_first_char by other_literal. }
  assert (Hurl : LogseqParser.tryMatchNakedUrl content pos = None).
  { unfold LogseqParser.tryMatchNakedUrl. rewrite Hrem.
    now rewrite (nakedUrl_needs_scheme _ Hscheme). }
  assert (Hhigh : LogseqParser.tryMatchHighlight content pos = None).
  { unfold LogseqParser.tryMatchHighlight. rewrite Hrem.
    unfold LogseqParser.re_highlight.
    now rewrite other_first_char by other_literal. }
  assert (Hbold : LogseqParser.tryMatchBold content pos = None).
  { unfold LogseqParser.tryMatchBold. rewrite Hrem. unfold LogseqParser.re_bold.
    now rewrite other_first_char by other_literal. }
  assert (Htag : LogseqParser.tryMatchTag content pos = None).
  { unfold LogseqParser.tryMatchTag. rewrite Hrem.
    unfold re_match, LogseqParser.re_tag. cbn [rmatch].
    change (strip_prefix (js "#") (35%N :: s)) with (Some s).
    destruct s as [|x s]; cbn [rep_greedy]; [reflexivity|].
    cbn [stops] in Hstop. now rewrite Hstop. }
  unfold LogseqParser.nextToken, LogseqParser.orElse.
  rewrite Hcode, Hquery, Htask, Hquote, Himage, Hlink, Href, Hurl, Hhigh, Hbold, Htag.
  unfold LogseqParser.matchText. rewrite Hrem.
  assert (Htest : re_test LogseqParser.re_taskMarker (35%N :: s) = false).
  { unfold re_test. now rewrite hash_is_no_task. }
  assert (Hgt : startsWith (35%N :: s) (js ">") = false) by reflexivity.
  assert (Hsp : re_search LogseqParser.re_specialChars (35%N :: s) = 0) by reflexivity.
  assert (Hu : negb (re_search LogseqParser.re_scheme (35%N :: s) =? -1)
               && (re_search LogseqParser.re_scheme (35%N :: s) <? 0) = false).
  { destruct (re_search_range LogseqParser.re_scheme (35%N :: s) eq_refl) as [H|H].
    - now rewrite H.
    - apply andb_false_iff. right. apply Z.ltb_ge. lia. }
  assert (Hv : negb (re_search LogseqParser.re_newlineBlockquote (35%N :: s) =? -1)
               && (re_search LogseqParser.re_newlineBlockquote (35%N :: s) + 1 <? 0)
               = false).
  { destruct (re_search_range LogseqParser.re_newlineBlockquote (35%N :: s) eq_refl)
      as [H|H].
    - now rewrite H.
    - apply andb_false_iff. right. apply Z.ltb_ge. lia. }
  assert (Hone : substring (35%N :: s) 0 1 = js "#").
  { change 1 with (0 + 1). rewrite substring_span; [reflexivity|lia|lia|].
    rewrite len_cons. pose proof (len_nonneg s). lia. }
  destruct ((pos =? 0) || negb (char_neq (charAt content (pos - 1)) nl));
    cbn [andb]; [rewrite Htest, Hgt|];
    rewrite !Hsp; cbn [Z.eqb orb]; rewrite Hu; cbn [Z.eqb orb]; rewrite Hv;
    cbn [Z.eqb]; change (Z.max 1 0) with 1; rewrite Hone; reflexivity.
Qed.

(** Behind a hash, a text without special character, URL scheme and line
    feed before [>] is one text token. *)
Lemma plain_rest_token (content : jsstring) (pos : Z) (s : jsstring) :
  substring_from content pos = s ->
  LogseqParser.not_at_line_start content pos = true ->
  re_search LogseqParser.re_specialChars s = -1 ->
  re_search LogseqParser.re_scheme s = -1 ->
  re_search LogseqParser.re_newlineBlockquote s = -1 ->
  LogseqParser.nextToken content pos = mkToken text s None (len s).
Proof.
  intros Hrem Hstart Hsp Hurl Hnl.
  assert (Hcode : LogseqParser.tryMatchCodeBlock content pos = None).
  { unfold LogseqParser.tryMatchCodeBlock. rewrite Hrem.
    exact (PlainText.no_codeBlock s Hsp). }
  assert (Hquery : LogseqParser.tryMatchQuery content pos = None).
  { unfold LogseqParser.tryMatchQuery. rewrite Hrem.
    exact (PlainText.no_query s Hsp). }
  assert (Htask : LogseqParser.tryMatchTaskMarker content pos = None).
  { unfold LogseqParser.tryMatchTaskMarker. now rewrite Hstart. }
  assert (Hquote : LogseqParser.tryMatchBlockquote content pos = None).
  { unfold LogseqParser.tryMatchBlockquote. now rewrite Hstart. }
  assert (Himage : LogseqParser.tryMatchImage content pos = None).
  { unfold LogseqParser.tryMatchImage. rewrite Hrem.
    exact (PlainText.no_image s Hsp). }
  assert (Hlink : LogseqParser.tryMatchMarkdownLink content pos = None).
  { unfold LogseqParser.tryMatchMarkdownLink. rewrite Hrem.
    exact (PlainText.no_markdownLink s Hsp). }
  assert (Href : LogseqParser.tryMatchBlockRef content pos = None).
  { unfold LogseqParser.tryMatchBlockRef. rewrite Hrem.
    exact (PlainText.no_blockRef s Hsp). }
  assert (Hnaked : LogseqParser.tryMatchNakedUrl content pos = None).
  { unfold LogseqParser.tryMatchNakedUrl. rewrite Hrem.
    exact (PlainText.no_nakedUrl s Hurl). }
  assert (Hhigh : LogseqParser.tryMatchHighlight content pos = None).
  { unfold LogseqParser.tryMatchHighlight. rewrite Hrem.
    exact (PlainText.no_highlight s Hsp). }
  assert (Hbold : LogseqParser.tryMatchBold content pos = None).
  { unfold LogseqParser.tryMatchBold. rewrite Hrem.
    exact (PlainText.no_bold s Hsp). }
  assert (Htag : LogseqParser.tryMatchTag content pos = None).
  { unfold LogseqParser.tryMatchTag. rewrite Hrem.
    exact (PlainText.no_tag s Hsp). }
  unfold LogseqParser.nextToken, LogseqParser.orElse.
  rewrite Hcode, Hquery, Htask, Hquote, Himage, Hlink, Href, Hnaked, Hhigh, Hbold, Htag.
  unfold LogseqParser.matchText. rewrite Hrem.
  unfold LogseqParser.not_at_line_start in Hstart.
  apply andb_true_iff in Hstart as [Hpos Hprev]. apply Z.ltb_lt in Hpos.
  assert (Hzero : (pos =? 0) = false) by (apply Z.eqb_neq; lia).
  rewrite Hzero, Hprev. cbn [orb negb andb].
  rewrite Hsp, Hurl, Hnl. cbn [Z.eqb negb andb].
  now rewrite substring_whole.
Qed.

Lemma parse_loop_step (fuel : nat) (content : jsstring) (pos : Z) (acc : list Token) :
  pos < len content ->
  LogseqParser.parse_loop (S fuel) content pos acc
  = LogseqParser.parse_loop fuel content
      (pos + length (LogseqParser.nextToken content pos))
      (acc ++ [LogseqParser.nextToken content pos]).
Proof.
  intros Hlt. apply Z.ltb_lt in Hlt. cbn [LogseqParser.parse_loop]. now rewrite Hlt.
Qed.

Lemma parse_loop_end (fuel : nat) (content : jsstring) (pos : Z) (acc : list Token) :
  len content <= pos -> LogseqParser.parse_loop fuel content pos acc = Some acc.
Proof.
  intros Hge. apply Z.ltb_ge in Hge.
  destruct fuel; cbn [LogseqParser.parse_loop]; now rewrite Hge.
Qed.

Lemma space_is_no_tag_char (x : char) :
  is_space x = true -> (is_word x || N.eqb x (chr "-")) = false.
Proof.
  intros Hx. apply not_true_is_false. intros Hw. revert Hx Hw.
  change (chr "-") with 45%N.
  unfold is_space, is_word, is_digit, in_range.
  rewrite !orb_true_iff, !andb_true_iff, !N.leb_le, !N.eqb_eq. lia.
Qed.

Lemma single_line_no_quote_line (s : jsstring) :
  single_line s = true -> re_search LogseqParser.re_newlineBlockquote s = -1.
Proof.
  unfold re_search. generalize 0. induction s as [|x s IH]; intros i Hs.
  - reflexivity.
  - cbn [single_line forallb] in Hs. apply andb_true_iff in Hs as [Hx Hs].
    apply negb_true_iff in Hx.
    cbn [re_search_from]. unfold LogseqParser.re_newlineBlockquote at 1.
    unfold re_match at 1. cbn [rmatch strip_prefix].
    rewrite N.eqb_sym, Hx. apply IH. exact Hs.
Qed.

(** The tokens of hashes followed by such a text: one text token for each
    hash, one for the text. *)
Lemma parse_loop_heading (s : jsstring) :
  s <> [] ->
  stops (fun c => is_word c || N.eqb c (chr "-")) s ->
  re_search LogseqParser.re_specialChars s = -1 ->
  re_search LogseqParser.re_scheme s = -1 ->
  re_search LogseqParser.re_newlineBlockquote s = -1 ->
  forall (j : nat) (pre : jsstring) (fuel : nat) (acc : list Token),
    LogseqParser.parse_loop (S j + S fuel) (pre ++ repeat_str (js "#") (S j) ++ s)
      (len pre) acc
    = Some (acc ++ List.repeat (mkToken text (js "#") None 1) (S j)
              ++ [mkToken text s None (len s)]).
Proof.
  intros Hne Hstop Hsp Hurl Hnl. induction j as [|j IH]; intros pre fuel acc.
  - change (repeat_str (js "#") 1 ++ s) with (35%N :: s).
    change (1 + S fuel)%nat with (S (S fuel)).
    assert (Hlen : len (pre ++ 35%N :: s) = len pre + 1 + len s)
      by (rewrite len_app, len_cons; lia).
    assert (Hs : 0 < len s).
    { destruct s; [contradiction|]. rewrite len_cons. pose proof (len_nonneg s). lia. }
    rewrite parse_loop_step by lia.
    rewrite (hash_token _ _ s (substring_from_app pre (35%N :: s)) Hstop).
    cbn [length].
    rewrite parse_loop_step by lia.
    assert (Htok : LogseqParser.nextToken (pre ++ 35%N :: s) (len pre + 1)
                   = mkToken text s None (len s)).
    { apply plain_rest_token; auto.
      - change (pre ++ 35%N :: s) with (pre ++ [35%N] ++ s). rewrite app_assoc.
        replace (len pre + 1) with (len (pre ++ [35%N]))
          by (rewrite len_app; reflexivity).
        apply substring_from_app.
      - unfold LogseqParser.not_at_line_start.
        assert (Hp : (0 <? len pre + 1) = true)
          by (apply Z.ltb_lt; pose proof (len_nonneg pre); lia).
        rewrite Hp. replace (len pre + 1 - 1) with (len pre) by lia.
        unfold charAt.
        assert (Hn : (len pre <? 0) = false)
          by (apply Z.ltb_ge; apply len_nonneg).
        rewrite Hn. unfold len. rewrite Nat2Z.id, nth_error_app2, Nat.sub_diag by lia.
        reflexivity. }
    rewrite Htok. cbn [length].
    rewrite parse_loop_end by lia. now rewrite <- app_assoc.
  - change (repeat_str (js "#") (S (S j)) ++ s)
      with ([35%N] ++ repeat_str (js "#") (S j) ++ s).
    change (S (S j) + S fuel)%nat with (S (S j + S fuel)).
    assert (Hlen : len pre < len (pre ++ [35%N] ++ repeat_str (js "#") (S j) ++ s)).
    { rewrite !len_app. change (len [35%N]) with 1.
      pose proof (len_nonneg (repeat_str (js "#") (S j))). pose proof (len_nonneg s).
      lia. }
    rewrite parse_loop_step by exact Hlen.
    rewrite (hash_token (pre ++ [35%N] ++ repeat_str (js "#") (S j) ++ s) (len pre)
               (repeat_str (js "#") (S j) ++ s)
               (substring_from_app pre ([35%N] ++ repeat_str (js "#") (S j) ++ s))
               eq_refl).
    cbn [length].
    rewrite (app_assoc pre [35%N]).
    replace (len pre + 1) with (len (pre ++ [35%N])) by (rewrite len_app; reflexivity).
    rewrite IH. f_equal. now rewrite <- app_assoc.
Qed.

Lemma parse_heading_line (j : nat) (s : jsstring) :
  s <> [] ->
  stops (fun c => is_word c || N.eqb c (chr "-")) s ->
  re_search LogseqParser.re_specialChars s = -1 ->
  re_search LogseqParser.re_scheme s = -1 ->
  re_search LogseqParser.re_newlineBlockquote s = -1 ->
  LogseqParser.parse (repeat_str (js "#") (S j) ++ s)
  = List.repeat (mkToken text (js "#") None 1) (S j) ++ [mkToken text s None (len s)].
Proof.
  intros Hne Hstop Hsp Hurl Hnl.
  unfold LogseqParser.parse, LogseqParser.parse_fuel.
  assert (Hfuel : List.length (repeat_str (js "#") (S j) ++ s)
                  = (S j + S (Nat.pred (List.length s)))%nat).
  { rewrite List.length_app. change (js "#") with [35%N].
    rewrite length_repeat_char. destruct s; [contradiction|]. simpl. lia. }
  rewrite Hfuel.
  pose proof (parse_loop_heading s Hne Hstop Hsp Hurl Hnl j []
                (Nat.pred (List.length s)) []) as H.
  cbn [app] in H. change (len []) with 0 in H.
  now rewrite H.
Qed.

Lemma join_nil_cons (a : jsstring) (l : list jsstring) :
  join [] (a :: l) = a ++ join [] l.
Proof. destruct l; cbn [join app]; [now rewrite app_nil_r|reflexivity]. Qed.

(** The AsciiDoc generator writes these tokens back as they were read. *)
Lemma asciidoc_heading_line (j : nat) (s : jsstring) :
  s <> [] -> single_line s = true ->
  AsciiDocGenerator.generate
    (List.repeat (mkToken text (js "#") None 1) j ++ [mkToken text s None (len s)])
  = repeat_str (js "#") j ++ s.
Proof.
  intros Hne Hs. unfold AsciiDocGenerator.generate, generate_with.
  induction j as [|j IH].
  - cbn [List.repeat app List.map join AsciiDocGenerator.generateToken type value].
    destruct s as [|x s]; [contradiction|].
    cbn [single_line forallb] in Hs. apply andb_true_iff in Hs as [Hx _].
    apply negb_true_iff in Hx. cbn [str_eqb]. now rewrite Hx.
  - cbn [List.repeat app List.map]. rewrite join_nil_cons, IH. reflexivity.
Qed.

(** ** Heading levels in the converters *)

(** X15.  A line made of [n] hashes (1 to 6), white space and a text is a
    heading of level [n].  The HTML converter recognises the heading in the
    content as it was written and converts the text of the heading on its
    own: an [h] element of level [n] around the converted text.  The AsciiDoc
    converter converts the content first and looks for the heading in the
    first line of the result: whenever the converted content is such a line,
    the block becomes a discrete heading with [n + 1] equals signs and the
    text of that line, and the stored depth offset is reset.  A heading line
    without special character and without URL scheme is converted to itself,
    so that its own text is the text of the discrete heading.  The text runs
    up to the first line terminator of the line; what follows it is
    dropped. *)
Theorem heading_levels (n : Z) (ws text rest : jsstring) (depth : Z)
        (st : AsciiDocConverter.State) :
  1 <= n <= 6 ->
  ws <> [] -> forallb is_space ws = true ->
  text <> [] -> forallb is_dot text = true ->
  stops is_space text -> stops is_dot rest ->
  single_line (ws ++ text ++ rest) = true ->
  let line := repeat (js "#") n ++ ws ++ text ++ rest in
  let heading :=
    [nl; nl] ++ js "[discrete]" ++ [nl] ++ repeat (js "=") (n + 1) ++ js " "
      ++ text ++ [nl] in
  HtmlConverter.convertBlockContent line
  = js "<h" ++ HtmlConverter.digit n ++ js ">"
      ++ HtmlConverter.convertLogseqSyntax text
      ++ js "</h" ++ HtmlConverter.digit n ++ js ">"
  /\ (forall content,
        blank content = false ->
        AsciiDocConverter.convertLogseqSyntax content = line ->
        AsciiDocConverter.convertBlockContent content depth st = (heading, None))
  /\ (re_search LogseqParser.re_specialChars (ws ++ text ++ rest) = -1 ->
      re_search LogseqParser.re_scheme (ws ++ text ++ rest) = -1 ->
      AsciiDocConverter.convertLogseqSyntax line = line
      /\ AsciiDocConverter.convertBlockContent line depth st = (heading, None)).
Proof.
  intros Hn Hws Hsp Htext Hdot Hstop1 Hstop2 Hline line heading.
  subst line heading.
  assert (Hn' : (1 <= Z.to_nat n <= 6)%nat) by lia.
  pose proof (re_heading_match (Z.to_nat n) ws text rest Hn' Hws Hsp Htext Hdot
                Hstop1 Hstop2) as Hm.
  destruct (isHeading_hashes (Z.to_nat n) ws (text ++ rest) Hn' Hws Hsp
              (stops_app _ _ _ Htext Hstop1)) as [Ha Hh].
  fold (repeat (js "#") n) in Hm, Ha, Hh.
  assert (Hlen : len (repeat (js "#") n) = n) by (apply len_hashes; lia).
  assert (Hone : single_line (repeat (js "#") n ++ ws ++ text ++ rest) = true).
  { rewrite single_line_app, Hline, single_line_repeat; reflexivity. }
  assert (Hadoc : forall content,
             blank content = false ->
             AsciiDocConverter.convertLogseqSyntax content
             = repeat (js "#") n ++ ws ++ text ++ rest ->
             AsciiDocConverter.convertBlockContent content depth st
             = ([nl; nl] ++ js "[discrete]" ++ [nl] ++ repeat (js "=") (n + 1)
                  ++ js " " ++ text ++ [nl], None)).
  { intros content Hblank Hconv. unfold AsciiDocConverter.convertBlockContent.
    rewrite Hblank, Hconv, (split_on_single _ Hone).
    cbn [item nth List.length Nat.ltb Nat.leb]. rewrite Ha.
    unfold AsciiDocConverter.convertToDiscreteHeading. rewrite Hm.
    cbn [g1 g2 group]. now rewrite Hlen. }
  split; [|split].
  - unfold HtmlConverter.convertBlockContent.
    rewrite hashes_not_blank by lia.
    rewrite (split_on_single _ Hone). cbn [item nth List.length Nat.ltb Nat.leb].
    rewrite Hh. unfold HtmlConverter.convertToHeading. rewrite Hm.
    cbn [g1 g2 group]. now rewrite Hlen.
  - exact Hadoc.
  - intros Hspecial Hurl.
    assert (Hconv : AsciiDocConverter.convertLogseqSyntax
                      (repeat (js "#") n ++ ws ++ text ++ rest)
                    = repeat (js "#") n ++ ws ++ text ++ rest).
    { unfold AsciiDocConverter.convertLogseqSyntax, repeat.
      destruct (Z.to_nat n) as [|j] eqn:E; [lia|].
      assert (Hne : ws ++ text ++ rest <> []) by (destruct ws; [contradiction|discriminate]).
      rewrite parse_heading_line; auto.
      - now apply asciidoc_heading_line.
      - destruct ws as [|x ws]; [contradiction|]. cbn [forallb] in Hsp.
        apply andb_true_iff in Hsp as [Hx _]. cbn [app stops].
        now apply space_is_no_tag_char.
      - now apply single_line_no_quote_line. }
    split; [exact Hconv|].
    apply Hadoc; [|exact Hconv]. apply hashes_not_blank. lia.
Qed.

(** The heading [## Title] with a carriage return at its end. *)
Lemma heading_levels_witness :
  let line := repeat (js "#") 2 ++ js " " ++ js "Title" ++ [13%N] in
  HtmlConverter.convertBlockContent line
  = js "<h" ++ HtmlConverter.digit 2 ++ js ">"
      ++ HtmlConverter.convertLogseqSyntax (js "Title")
      ++ js "</h" ++ HtmlConverter.digit 2 ++ js ">"
  /\ AsciiDocConverter.convertLogseqSyntax line = line
  /\ AsciiDocConverter.convertBlockContent line 1 (Some 3)
     = ([nl; nl] ++ js "[discrete]" ++ [nl] ++ repeat (js "=") (2 + 1) ++ js " "
          ++ js "Title" ++ [nl], None).
Proof.
  pose proof (heading_levels 2 (js " ") (js "Title") [13%N] 1 (Some 3)) as H.
  cbv zeta in H.
  destruct H as (Hhtml & _ & Hplain).
  - lia.
  - discriminate.
  - reflexivity.
  - discriminate.
  - reflexivity.
  - reflexivity.
  - reflexivity.
  - reflexivity.
  - intros line. split; [exact Hhtml|].
    apply Hplain; vm_compute; reflexivity.
Defined.

(** Markup in the heading is converted before the AsciiDoc heading is
    formed, so the discrete heading carries the converted text. *)
Example heading_with_highlight :
  AsciiDocConverter.convertLogseqSyntax (js "# ==x==") = js "# #x#"
  /\ AsciiDocConverter.convertBlockContent (js "# ==x==") 0 None
     = ([nl; nl] ++ js "[discrete]" ++ [nl] ++ js "== #x#" ++ [nl], None)
  /\ HtmlConverter.convertBlockContent (js "# ==x==") = js "<h1><mark>x</mark></h1>".
Proof. vm_compute. repeat split; reflexivity. Qed.

Example heading_with_page_reference :
  AsciiDocConverter.convertLogseqSyntax (js "# [[Page]]") = js "# *Page*"
  /\ AsciiDocConverter.convertBlockContent (js "# [[Page]]") 2 (Some 1)
     = ([nl; nl] ++ js "[discrete]" ++ [nl] ++ js "== *Page*" ++ [nl], None)
  /\ HtmlConverter.convertBlockContent (js "# [[Page]]")
     = js "<h1><strong>Page</strong></h1>".
Proof. vm_compute. repeat split; reflexivity. Qed.
